(** * Accessibility test suite: checklist aggregation and categorisation

    A shallow embedding of the aggregation logic of the accessibility test
    runner (run-tests.js, checklists.js, remediation-data.js,
    generate-report.js, the deliverables module and the eight chapter
    modules under tests/) and of the URL handling of the web server
    (server.js), with the properties of that logic proved or refuted on the
    embedding.

    Conventions.
    - A JavaScript object used as a dictionary is a [gmap string _] of its
      own properties.  A lookup [obj[k]] with a key that comes from the
      input (a tag, an id, a rating, a success criterion) is [Js.index obj k],
      which also finds the properties that every object inherits from
      [Object.prototype]; a lookup with a key of the program's own tables is
      [obj !! k].  Where the order of the keys is observed ([Object.keys],
      [Object.values], [Map]) the dictionary is an association list.
    - A JavaScript [Set] is a duplicate-free list in insertion order, which
      is what [Array.from] returns.
    - A field that may be [undefined] is an [option].
    - A call that may throw returns an [option], [None] being the TypeError
      thrown; in an [async] function the throw is the rejection of the
      promise.
    - A string is a [string], holding its UTF-8 bytes, where the code only
      stores, compares or joins it (ids, rules, messages, URLs of a run).
      Where the code reads a text character by character (the server's URL
      extraction, the runner's arguments, the title of a page) it is the
      list of its UTF-16 code units, [Text.text].
    - Counts are natural numbers ([N]); the score, which divides, is computed
      on IEEE 754 binary64 numbers as JavaScript does.
    - [async] functions are run to completion; a rejected promise is an
      explicit error result. *)

From Stdlib Require Import ZArith Floats.SpecFloat.
From stdpp Require Import base decidable option list gmap strings fin_maps pretty.

Local Open Scope string_scope.

(** ** JavaScript values *)

Module Js.

(** The double-quote character, for the texts that contain it. *)
Definition dq : string :=
  String (Ascii.Ascii false true false false false true false false) EmptyString.

(** [a || b] on values that are an object or [undefined]. *)
Definition or {A} (a b : option A) : option A :=
  match a with Some x => Some x | None => b end.

(** The property key an argument is turned into: [undefined] reads the key
    ["undefined"]. *)
Definition property_key (k : option string) : string := default "undefined" k.

(** [`${n}`] for a count. *)
Definition show (n : N) : string := pretty n.

(** The properties every plain object inherits from [Object.prototype]. *)
Definition prototype_names : list string :=
  [ "constructor"; "__defineGetter__"; "__defineSetter__"; "hasOwnProperty";
    "__lookupGetter__"; "__lookupSetter__"; "isPrototypeOf"; "propertyIsEnumerable";
    "toString"; "valueOf"; "__proto__"; "toLocaleString" ].

(** What an object literal holds under a key: a value the program wrote
    there, or the built-in of that name that it inherits from
    [Object.prototype] (a function; under [__proto__] the prototype
    itself).  A built-in is truthy, is not nullish, is no array and has none
    of the properties the program reads. *)
Inductive Value (A : Type) : Type :=
  | Data (value : A)
  | Builtin (name : string).
Arguments Data {A} value.
Arguments Builtin {A} name.

#[global] Instance Value_eq_dec {A} `{EqDecision A} : EqDecision (Value A).
Proof. solve_decision. Defined.

(** [obj[key]] for an object literal [obj]: its own property, else the
    property of that name of [Object.prototype], else [undefined]. *)
Definition index {A} (obj : gmap string A) (key : string) : option (Value A) :=
  match obj !! key with
  | Some value => Some (Data value)
  | None => if decide (key ∈ prototype_names) then Some (Builtin key) else None
  end.

(** A property whose value the literal may have left [undefined]. *)
Definition defined {A} (v : option (Value (option A))) : option (Value A) :=
  match v with
  | Some (Data (Some value)) => Some (Data value)
  | Some (Data None) => None
  | Some (Builtin name) => Some (Builtin name)
  | None => None
  end.

(** [String(v)] for a built-in [v]: the text of a native function, or of
    the prototype object. *)
Definition builtin_text (name : string) : string :=
  if decide (name = "__proto__") then "[object Object]"
  else "function " +:+ (if decide (name = "constructor") then "Object" else name)
       +:+ "() { [native code] }".

(** The result of arithmetic on integers and built-ins: an integer, [NaN]
    or a string. *)
Inductive Sum : Type :=
  | Int (n : Z)
  | NaN
  | Str (s : string).

#[global] Instance Sum_eq_dec : EqDecision Sum.
Proof. solve_decision. Defined.

(** [v * n]: a built-in is no number, the product is [NaN] ([None]). *)
Definition times (v : Value Z) (n : Z) : option Z :=
  match v with
  | Data m => Some (m * n)%Z
  | Builtin _ => None
  end.

(** [a + v] for a number [a] ([None] is [NaN]): the sum of two numbers, or
    with a built-in the two texts joined. *)
Definition plus (a : option Z) (v : Value Z) : Sum :=
  match v with
  | Data m => match a with Some n => Int (n + m) | None => NaN end
  | Builtin name =>
      Str (match a with Some n => pretty n | None => "NaN" end +:+ builtin_text name)
  end.

(** [xs.forEach(...)] with a body that updates [s] and may throw ([None]):
    a throw ends the loop. *)
Fixpoint for_each {S A} (f : S -> A -> option S) (s : S) (xs : list A) : option S :=
  match xs with
  | [] => Some s
  | x :: xs' =>
      match f s x with
      | Some s' => for_each f s' xs'
      | None => None
      end
  end.

(** [xs.join(sep)] *)
Definition join (sep : string) (xs : list string) : string := String.concat sep xs.

End Js.

(** A JavaScript [Set] of strings. *)
Module JsSet.

(** [s.add(c)]: a value already present keeps its place. *)
Definition add (c : string) (s : list string) : list string :=
  if decide (c ∈ s) then s else s ++ [c].

(** [xs.forEach((c) => s.add(c))] *)
Definition add_all (xs : list string) (s : list string) : list string :=
  foldl (fun acc c => add c acc) s xs.

End JsSet.

(** An object or [Map] with string keys whose order of keys is observed:
    a key keeps the position of its first assignment and the value of its
    last. *)
Module JsDict.

Fixpoint set {V} (k : string) (v : V) (m : list (string * V)) : list (string * V) :=
  match m with
  | [] => [(k, v)]
  | (k', v') :: m' => if decide (k' = k) then (k', v) :: m' else (k', v') :: set k v m'
  end.

Fixpoint get {V} (k : string) (m : list (string * V)) : option V :=
  match m with
  | [] => None
  | (k', v') :: m' => if decide (k' = k) then Some v' else get k m'
  end.

Definition keys {V} (m : list (string * V)) : list string := m.*1.
Definition values {V} (m : list (string * V)) : list V := m.*2.

End JsDict.


(** ** Texts read character by character *)

(** The functions that parse or measure a text (the URL extraction of the
    server, the arguments of the runner, the title and the language of a
    page) inspect its characters: there a JavaScript string is the list of
    its UTF-16 code units. *)
Module Text.
Local Open Scope N_scope.
Local Open Scope list_scope.

Definition text : Type := list N.

(** A string literal of the source whose characters are ASCII. *)
Definition lit (s : string) : text :=
  map Ascii.N_of_ascii (String.list_ascii_of_string s).

(** The line feed as a text. *)
Definition line_feed : text := [10].

(** White space of [\s] and of [String.prototype.trim]: tab, line feed,
    vertical tab, form feed, carriage return, space, no-break space, the
    other space separators, the line and paragraph separators and the byte
    order mark. *)
Definition is_space (c : N) : bool :=
  ((9 <=? c) && (c <=? 13)) || (c =? 32) || (c =? 160) || (c =? 5760)
  || ((8192 <=? c) && (c <=? 8202)) || (c =? 8232) || (c =? 8233)
  || (c =? 8239) || (c =? 8287) || (c =? 12288) || (c =? 65279).

Fixpoint drop_while (p : N -> bool) (t : text) : text :=
  match t with
  | c :: t' => if p c then drop_while p t' else t
  | [] => []
  end.

Fixpoint take_while (p : N -> bool) (t : text) : text :=
  match t with
  | c :: t' => if p c then c :: take_while p t' else []
  | [] => []
  end.

(** [t.trim()] *)
Definition trim (t : text) : text :=
  reverse (drop_while is_space (reverse (drop_while is_space t))).

(** [t.startsWith(p)] and [t.endsWith(p)] *)
Definition startsWith (p t : text) : bool := bool_decide (take (length p) t = p).
Definition endsWith (p t : text) : bool :=
  bool_decide (drop (length t - length p) t = p).

(** [xs.join(sep)] *)
Fixpoint join (sep : text) (xs : list text) : text :=
  match xs with
  | [] => []
  | [x] => x
  | x :: xs' => x ++ sep ++ join sep xs'
  end.

(** [[...new Set(xs)]]: the values in the order of their first occurrence. *)
Definition distinct (xs : list text) : list text :=
  foldl (fun s x => if decide (x ∈ s) then s else s ++ [x]) [] xs.

(** A letter of A-Z as the letter of a-z: how the flag [i] and
    [toLowerCase] compare with a lower-case ASCII pattern. *)
Definition lower (c : N) : N := if (65 <=? c) && (c <=? 90) then c + 32 else c.

(** The byte [n] as a character of a [string]. *)
Definition byte (n : N) : Ascii.ascii := Ascii.ascii_of_N n.

Definition high_surrogate (c : N) : bool := (55296 <=? c) && (c <=? 56319).
Definition low_surrogate (c : N) : bool := (56320 <=? c) && (c <=? 57343).

(** The UTF-8 bytes of the character [c], in front of [s]. *)
Definition utf8 (c : N) (s : string) : string :=
  if c <? 128 then String (byte c) s
  else if c <? 2048 then
    String (byte (192 + c / 64)) (String (byte (128 + c mod 64)) s)
  else if c <? 65536 then
    String (byte (224 + c / 4096))
      (String (byte (128 + (c / 64) mod 64)) (String (byte (128 + c mod 64)) s))
  else
    String (byte (240 + c / 262144))
      (String (byte (128 + (c / 4096) mod 64))
         (String (byte (128 + (c / 64) mod 64)) (String (byte (128 + c mod 64)) s))).

(** A text put into a [string], where the code joins it with other
    strings: the UTF-8 bytes of its characters, a surrogate pair being one
    character (a surrogate without its partner is written as the unit it
    is). *)
Fixpoint encode (t : text) : string :=
  match t with
  | [] => EmptyString
  | c :: t' =>
      if high_surrogate c then
        match t' with
        | d :: t'' =>
            if low_surrogate d
            then utf8 (65536 + (c - 55296) * 1024 + (d - 56320)) (encode t'')
            else utf8 c (encode t')
        | [] => utf8 c EmptyString
        end
      else utf8 c (encode t')
  end.

End Text.

(** ** checklists.js *)

Module Checklists.

Record ChapterInfo := {
  ch_id : string;
  ch_name : string;
}.

(** [CHECKLIST_CHAPTERS], in the order of the literal (the [source] URLs are
    left out: nothing reads them). *)
Definition CHECKLIST_CHAPTERS : list (string * ChapterInfo) :=
  [ ("semantics", {| ch_id := "1"; ch_name := "Semantic Structure and Navigation" |});
    ("images", {| ch_id := "2"; ch_name := "Images, Canvas, SVG, and Non-Text Content" |});
    ("visualDesign", {| ch_id := "3"; ch_name := "Visual Design and Colors" |});
    ("responsive", {| ch_id := "4"; ch_name := "Responsive Design and Zoom" |});
    ("multimedia", {| ch_id := "5"; ch_name := "Multimedia, Animations, and Motion" |});
    ("inputMethods", {| ch_id := "6"; ch_name := "Device-Independent Input Methods" |});
    ("forms", {| ch_id := "7"; ch_name := "Form Labels, Instructions, and Validation" |});
    ("dynamicUpdates", {| ch_id := "8"; ch_name := "Dynamic Updates, AJAX, and SPAs" |}) ].

(** [Object.keys(CHECKLIST_CHAPTERS)] *)
Definition chapter_keys : list string := JsDict.keys CHECKLIST_CHAPTERS.

Definition AXE_TAG_TO_CHAPTER_entries : list (string * list string) :=
  [ ("wcag2a", ["semantics"; "images"; "forms"; "inputMethods"]);
    ("wcag2aa", ["semantics"; "images"; "visualDesign"; "forms"; "inputMethods"]);
    ("wcag21a", ["semantics"; "images"; "forms"; "inputMethods"]);
    ("wcag21aa", ["semantics"; "images"; "visualDesign"; "forms"; "inputMethods"]);
    ("wcag22aa", ["semantics"; "images"; "visualDesign"; "forms"; "inputMethods"]);
    ("best-practice", ["semantics"; "images"; "forms"; "inputMethods"; "dynamicUpdates"]);
    ("cat.semantics", ["semantics"]);
    ("cat.name-role-value", ["semantics"; "forms"; "inputMethods"]);
    ("cat.structure", ["semantics"]);
    ("cat.color", ["visualDesign"]);
    ("cat.parsing", ["semantics"]);
    ("cat.aria", ["semantics"; "forms"; "inputMethods"; "dynamicUpdates"]);
    ("cat.forms", ["forms"]);
    ("cat.keyboard", ["inputMethods"]);
    ("cat.focus", ["inputMethods"; "semantics"]);
    ("cat.language", ["semantics"]);
    ("cat.text-alternatives", ["images"]);
    ("cat.time-based-media", ["multimedia"]);
    ("cat.sensory-and-visual-cues", ["visualDesign"]);
    ("cat.layout", ["responsive"; "visualDesign"]);
    ("cat.motion", ["multimedia"]) ].

Definition AXE_TAG_TO_CHAPTER : gmap string (list string) :=
  list_to_map AXE_TAG_TO_CHAPTER_entries.

End Checklists.

(** ** remediation-data.js *)

Module Remediation.
Import Js.

Record RemediationEntry := {
  wcag : list string;
  snippet : string;
  impact : string;
  effort : string;
}.

#[global] Instance RemediationEntry_eq_dec : EqDecision RemediationEntry.
Proof. solve_decision. Defined.

Definition REMEDIATION_MAP_entries : list (string * RemediationEntry) :=
  [
    ("page-title-exists",
      {| wcag := ["2.4.2"];
         snippet := "<title>Descriptive page title – e.g. Home | Company Name</title>";
         impact := "high"; effort := "simple" |});
    ("html-lang",
      {| wcag := ["3.1.1"];
         snippet := ("<html lang=" +:+ dq +:+ "en" +:+ dq +:+ ">");
         impact := "high"; effort := "simple" |});
    ("landmarks-present",
      {| wcag := ["1.3.1"; "2.4.1"];
         snippet := ("<main>, <nav>, <header>, <footer>, <aside>, or role=" +:+ dq +:+ "main" +:+ dq +:+ ", role=" +:+ dq +:+ "navigation" +:+ dq +:+ ", etc.");
         impact := "medium"; effort := "moderate" |});
    ("single-main",
      {| wcag := ["1.3.1"; "2.4.1"];
         snippet := ("Use exactly one <main> or [role=" +:+ dq +:+ "main" +:+ dq +:+ "] for primary content.");
         impact := "medium"; effort := "simple" |});
    ("heading-structure",
      {| wcag := ["1.3.1"; "2.4.6"];
         snippet := "Start with <h1>, then <h2>, <h3>… without skipping levels.";
         impact := "medium"; effort := "moderate" |});
    ("link-text",
      {| wcag := ["2.4.4"; "4.1.2"];
         snippet := ("<a href=" +:+ dq +:+ "..." +:+ dq +:+ ">Descriptive text</a> – avoid empty links or " +:+ dq +:+ "click here" +:+ dq +:+ ".");
         impact := "high"; effort := "simple" |});
    ("link-meaningful",
      {| wcag := ["2.4.4"];
         snippet := ("Link text should describe the destination. Replace " +:+ dq +:+ "click here" +:+ dq +:+ " with e.g. " +:+ dq +:+ "Download the guide" +:+ dq +:+ ".");
         impact := "medium"; effort := "moderate" |});
    ("skip-link",
      {| wcag := ["2.4.1"];
         snippet := ("<a href=" +:+ dq +:+ "#main" +:+ dq +:+ " class=" +:+ dq +:+ "skip-link" +:+ dq +:+ ">Skip to main content</a>");
         impact := "high"; effort := "simple" |});
    ("table-headers",
      {| wcag := ["1.3.1"];
         snippet := ("<th scope=" +:+ dq +:+ "col" +:+ dq +:+ ">Header</th> or <th scope=" +:+ dq +:+ "row" +:+ dq +:+ ">Row label</th>");
         impact := "high"; effort := "moderate" |});
    ("list-markup",
      {| wcag := ["1.3.1"];
         snippet := "<ul><li>...</li></ul> or <ol><li>...</li></ol> for lists.";
         impact := "medium"; effort := "simple" |});
    ("iframe-titles",
      {| wcag := ["4.1.2"];
         snippet := ("<iframe title=" +:+ dq +:+ "Description of iframe content" +:+ dq +:+ " src=" +:+ dq +:+ "..." +:+ dq +:+ ">");
         impact := "high"; effort := "simple" |});
    ("unique-ids",
      {| wcag := ["4.1.1"];
         snippet := "Ensure every id attribute is unique within the page.";
         impact := "high"; effort := "moderate" |});
    ("img-alt",
      {| wcag := ["1.1.1"];
         snippet := ("<img src=" +:+ dq +:+ "photo.jpg" +:+ dq +:+ " alt=" +:+ dq +:+ "Description of the image" +:+ dq +:+ ">");
         impact := "high"; effort := "simple" |});
    ("img-alt-length",
      {| wcag := ["1.1.1"];
         snippet := "Keep alt concise (under ~125 chars). Use longdesc or surrounding text for long descriptions.";
         impact := "medium"; effort := "simple" |});
    ("svg-role",
      {| wcag := ["1.1.1"; "4.1.2"];
         snippet := ("<svg role=" +:+ dq +:+ "img" +:+ dq +:+ " aria-labelledby=" +:+ dq +:+ "chart-title" +:+ dq +:+ "> or role=" +:+ dq +:+ "presentation" +:+ dq +:+ " for decorative.");
         impact := "high"; effort := "simple" |});
    ("svg-accessible-name",
      {| wcag := ["1.1.1"];
         snippet := ("<svg aria-label=" +:+ dq +:+ "Chart showing..." +:+ dq +:+ " > or <title> inside <svg>.");
         impact := "high"; effort := "simple" |});
    ("canvas-alt",
      {| wcag := ["1.1.1"];
         snippet := ("<canvas id=" +:+ dq +:+ "c" +:+ dq +:+ ">…</canvas> + accessible alternative (text or link).");
         impact := "high"; effort := "moderate" |});
    ("image-map-alt",
      {| wcag := ["1.1.1"];
         snippet := ("<area alt=" +:+ dq +:+ "Region description" +:+ dq +:+ " shape=" +:+ dq +:+ "rect" +:+ dq +:+ " coords=" +:+ dq +:+ "..." +:+ dq +:+ ">");
         impact := "high"; effort := "moderate" |});
    ("link-differentiation",
      {| wcag := ["1.4.1"];
         snippet := ("Don't rely on color alone. Add underline, icon, or text (e.g. " +:+ dq +:+ "opens in new tab" +:+ dq +:+ ").");
         impact := "medium"; effort := "simple" |});
    ("focus-indicator",
      {| wcag := ["2.4.7"];
         snippet := ":focus { outline: 2px solid currentColor; outline-offset: 2px; }";
         impact := "high"; effort := "simple" |});
    ("no-horizontal-scroll",
      {| wcag := ["1.4.10"];
         snippet := "Use max-width: 100%, overflow-wrap: break-word. Avoid fixed pixel widths.";
         impact := "medium"; effort := "moderate" |});
    ("viewport-zoom",
      {| wcag := ["1.4.4"];
         snippet := ("Ensure user-scalable=yes (or omit) in <meta name=" +:+ dq +:+ "viewport" +:+ dq +:+ ">.");
         impact := "high"; effort := "simple" |});
    ("video-captions",
      {| wcag := ["1.2.2"];
         snippet := ("<track kind=" +:+ dq +:+ "captions" +:+ dq +:+ " src=" +:+ dq +:+ "captions.vtt" +:+ dq +:+ " srclang=" +:+ dq +:+ "en" +:+ dq +:+ ">");
         impact := "high"; effort := "complex" |});
    ("video-autoplay",
      {| wcag := ["1.4.2"];
         snippet := "Don't autoplay with sound, or provide pause/mute controls.";
         impact := "medium"; effort := "simple" |});
    ("audio-autoplay",
      {| wcag := ["1.4.2"];
         snippet := "Avoid autoplay. If needed, provide immediate pause control.";
         impact := "medium"; effort := "simple" |});
    ("flash-alternative",
      {| wcag := ["1.1.1"];
         snippet := "Provide HTML alternative or ensure content is accessible without Flash.";
         impact := "high"; effort := "complex" |});
    ("tabindex-positive",
      {| wcag := ["2.4.3"];
         snippet := ("Remove tabindex > 0. Use natural DOM order or tabindex=" +:+ dq +:+ "0" +:+ dq +:+ " for focusable widgets.");
         impact := "high"; effort := "simple" |});
    ("touch-target-size",
      {| wcag := ["2.5.5"];
         snippet := "Min 44×44px touch targets with spacing. padding or min-height/min-width.";
         impact := "medium"; effort := "moderate" |});
    ("form-labels",
      {| wcag := ["3.3.2"; "4.1.2"];
         snippet := ("<label for=" +:+ dq +:+ "id" +:+ dq +:+ ">Label</label><input id=" +:+ dq +:+ "id" +:+ dq +:+ "> or aria-label=" +:+ dq +:+ "Label" +:+ dq);
         impact := "high"; effort := "simple" |});
    ("placeholder-not-only-label",
      {| wcag := ["3.3.2"];
         snippet := "Use <label> or aria-label. Placeholder is a hint, not a replacement.";
         impact := "high"; effort := "simple" |});
    ("no-auto-refresh",
      {| wcag := ["2.2.2"];
         snippet := "Avoid auto-refresh. If required, allow user to extend time.";
         impact := "medium"; effort := "moderate" |});
    ("dynamic-announcements",
      {| wcag := ["4.1.3"];
         snippet := ("Use aria-live=" +:+ dq +:+ "polite" +:+ dq +:+ " or aria-live=" +:+ dq +:+ "assertive" +:+ dq +:+ " on live regions.");
         impact := "high"; effort := "moderate" |});
    ("page-load",
      {| wcag := [];
         snippet := "Check URL, network, bot protection, and server availability.";
         impact := "high"; effort := "complex" |}) ].

Definition REMEDIATION_MAP : gmap string RemediationEntry :=
  list_to_map REMEDIATION_MAP_entries.

(** A value of [AXE_REMEDIATION] written [REMEDIATION_MAP[k]] is the result
    of that lookup. *)
Definition AXE_REMEDIATION_entries : list (string * option RemediationEntry) :=
  [
    ("document-title", REMEDIATION_MAP !! "page-title-exists");
    ("html-has-lang", REMEDIATION_MAP !! "html-lang");
    ("image-alt", REMEDIATION_MAP !! "img-alt");
    ("label", REMEDIATION_MAP !! "form-labels");
    ("link-name", REMEDIATION_MAP !! "link-text");
    ("button-name",
      Some {| wcag := ["2.1.1"; "4.1.2"];
         snippet := ("<button>Label</button> or aria-label=" +:+ dq +:+ "Label" +:+ dq);
         impact := "high"; effort := "simple" |});
    ("color-contrast",
      Some {| wcag := ["1.4.3"];
         snippet := "Increase contrast to 4.5:1 (normal) or 3:1 (large). Use WebAIM contrast checker.";
         impact := "high"; effort := "moderate" |});
    ("landmark-one-main", REMEDIATION_MAP !! "single-main");
    ("region",
      Some {| wcag := ["1.3.1"; "2.4.1"];
         snippet := "Use landmarks: main, nav, header, footer, aside.";
         impact := "medium"; effort := "moderate" |});
    ("landmark-unique",
      Some {| wcag := ["1.3.1"];
         snippet := "Give landmarks unique aria-label if multiple of same type.";
         impact := "medium"; effort := "simple" |});
    ("frame-title", REMEDIATION_MAP !! "iframe-titles");
    ("duplicate-id", REMEDIATION_MAP !! "unique-ids");
    ("heading-order", REMEDIATION_MAP !! "heading-structure");
    ("list", REMEDIATION_MAP !! "list-markup");
    ("tabindex", REMEDIATION_MAP !! "tabindex-positive");
    ("focus-order-semantics",
      Some {| wcag := ["2.4.3"];
         snippet := "Ensure DOM order matches visual order. Avoid positive tabindex.";
         impact := "medium"; effort := "moderate" |});
    ("meta-viewport", REMEDIATION_MAP !! "viewport-zoom");
    ("aria-valid-attr",
      Some {| wcag := ["4.1.2"];
         snippet := "Use only valid ARIA attributes. See MDN ARIA reference.";
         impact := "high"; effort := "simple" |});
    ("aria-valid-attr-value",
      Some {| wcag := ["4.1.2"];
         snippet := ("Ensure ARIA attribute values are valid (e.g. aria-expanded=" +:+ dq +:+ "true" +:+ dq +:+ " or " +:+ dq +:+ "false" +:+ dq +:+ ").");
         impact := "high"; effort := "simple" |});
    ("aria-required-attr",
      Some {| wcag := ["4.1.2"];
         snippet := "Add all required ARIA attributes for the role (e.g. combobox needs aria-expanded).";
         impact := "high"; effort := "moderate" |});
    ("input-button-name", REMEDIATION_MAP !! "form-labels");
    ("form-field-multiple-labels",
      Some {| wcag := ["3.3.2"];
         snippet := "Each form control should have one associated label.";
         impact := "medium"; effort := "simple" |}) ].

Definition AXE_REMEDIATION : gmap string (option RemediationEntry) :=
  list_to_map AXE_REMEDIATION_entries.

Definition IMPACT_ORDER : gmap string Z :=
  list_to_map [("high", 0%Z); ("medium", 1%Z); ("low", 2%Z)].
Definition EFFORT_ORDER : gmap string Z :=
  list_to_map [("simple", 0%Z); ("moderate", 1%Z); ("complex", 2%Z)].

Definition generic_entry : RemediationEntry :=
  {| wcag := [];
     snippet := "Review the issue and apply appropriate fix. See W3C WCAG guidelines.";
     impact := "medium";
     effort := "moderate" |}.

(** [REMEDIATION_MAP[checkId] || AXE_REMEDIATION[axeRuleId] || { ... }]:
    an entry, or the built-in a catalogue inherits under the name of an
    argument. *)
Definition getRemediation (checkId axeRuleId : option string) : Js.Value RemediationEntry :=
  default (Js.Data generic_entry)
    (Js.or (Js.index REMEDIATION_MAP (Js.property_key checkId))
           (Js.defined (Js.index AXE_REMEDIATION (Js.property_key axeRuleId)))).

(** A fix-order item: a check result or an audit violation joined with its
    catalogue entry. *)
Record FixOrderItem := {
  fi_rule : string;
  fi_status : string;
  fi_impact : string;
  fi_effort : string;
  fi_url : string;
  fi_wcag : list string;
  fi_snippet : string;
}.

#[global] Instance FixOrderItem_eq_dec : EqDecision FixOrderItem.
Proof. solve_decision. Defined.

(** [imp * 10 + eff], with [?? 1] for a missing rank.  A rank read from a
    built-in is no number: the product is [NaN] and the sum a string. *)
Definition fixOrderScore (item : FixOrderItem) : Js.Sum :=
  let imp := default (Js.Data 1%Z) (Js.index IMPACT_ORDER (fi_impact item)) in
  let eff := default (Js.Data 1%Z) (Js.index EFFORT_ORDER (fi_effort item)) in
  Js.plus (Js.times imp 10) eff.

End Remediation.

(** ** The deliverables module: the client presentation *)

Module Deliverables.
Import Remediation.

(** The three filters of [generateClientPresentation]. *)
Definition quickWins_pred (i : FixOrderItem) : bool :=
  bool_decide (fi_impact i = "high") && bool_decide (fi_effort i = "simple").

Definition mediumEffort_pred (i : FixOrderItem) : bool :=
  (bool_decide (fi_impact i = "high") && negb (bool_decide (fi_effort i = "simple")))
  || (bool_decide (fi_impact i = "medium") && bool_decide (fi_effort i = "simple")).

Definition longTerm_pred (i : FixOrderItem) : bool :=
  bool_decide (fi_effort i = "complex")
  || (bool_decide (fi_impact i = "medium") && negb (bool_decide (fi_effort i = "simple")))
  || bool_decide (fi_impact i = "low").

(** [[...new Map(items.map((i) => [i.rule, i])).values()]] *)
Definition uniqueByRule (items : list FixOrderItem) : list FixOrderItem :=
  JsDict.values (foldl (fun m i => JsDict.set (fi_rule i) i m) [] items).

Definition quickWins (fixOrderItems : list FixOrderItem) : list FixOrderItem :=
  uniqueByRule (filter (fun i => quickWins_pred i = true) fixOrderItems).
Definition mediumEffort (fixOrderItems : list FixOrderItem) : list FixOrderItem :=
  uniqueByRule (filter (fun i => mediumEffort_pred i = true) fixOrderItems).
Definition longTerm (fixOrderItems : list FixOrderItem) : list FixOrderItem :=
  uniqueByRule (filter (fun i => longTerm_pred i = true) fixOrderItems).

End Deliverables.

(** ** Check results and the page under test *)

Module Checks.
Import Js.

(** One assertion outcome.  The chapter modules set every field but [url];
    [runCustomChecks] adds the [url]. *)
Record CheckResult := {
  cr_id : string;
  cr_rule : string;
  cr_status : string;
  cr_message : string;
  cr_chapter : option string;
  cr_url : option string;
}.

#[global] Instance CheckResult_eq_dec : EqDecision CheckResult.
Proof. solve_decision. Defined.

(** [{ id, rule, status, message, chapter }] *)
Definition check (id rule status message chapter : string) : CheckResult :=
  {| cr_id := id; cr_rule := rule; cr_status := status; cr_message := message;
     cr_chapter := Some chapter; cr_url := None |}.

(** [{ ...r, url }] *)
Definition with_url (url : string) (r : CheckResult) : CheckResult :=
  {| cr_id := cr_id r; cr_rule := cr_rule r; cr_status := cr_status r;
     cr_message := cr_message r; cr_chapter := cr_chapter r; cr_url := Some url |}.

(** An awaited promise: rejected with an error ([err.message]) or resolved
    to a value. *)
Inductive Settled (A : Type) : Type :=
  | Rejected (message : string)
  | Resolved (value : A).
Arguments Rejected {A} message.
Arguments Resolved {A} value.

(** [const x = await m; k]: a rejection is thrown past the rest of the
    function. *)
Definition await {A B} (m : Settled A) (k : A -> Settled B) : Settled B :=
  match m with
  | Rejected msg => Rejected msg
  | Resolved x => k x
  end.

Notation "x ← 'await' m ; k" := (await m (fun x => k))
  (at level 20, m at level 100, k at level 200, only parsing, right associativity).

(** What the probes of the chapter modules observe in the page, each an
    awaited call into the browser.  Arrays of which only the length is read
    are given by their length. *)
Record HeadingStructure := { hs_total : N; hs_skips : N; hs_h1Count : N }.
Record LinkChecks := { lc_total : N; lc_emptyText : N; lc_genericText : N }.
Record TableChecks := { tc_total : N; tc_noTh : N }.
Record ListChecks := { li_total : N; li_orphanLi : N }.
Record IframeChecks := { ic_total : N; ic_noTitle : N }.
Record ImageChecks := { im_total : N; im_missingAlt : N; im_longAlt : N }.
Record SvgChecks := { sv_total : N; sv_noRole : N; sv_noAccessibleName : N }.
Record CanvasChecks := { cv_total : N; cv_noRole : N; cv_noAlt : N }.
Record MapChecks := { mc_total : N; mc_areaNoAlt : N }.
Record LinkStyleChecks := { ls_total : N; ls_colorOnlyCount : N }.
Record FocusStyleChecks := { fs_total : N; fs_noVisibleOutline : N }.
Record OverflowChecks := { oc_docWidth : N; oc_viewWidth : N; oc_hasHorizontalScroll : bool }.
Record ViewportMeta := { vm_present : bool; vm_content : option string; vm_allowsZoom : bool }.
Record VideoChecks := { vc_total : N; vc_noCaptions : N; vc_autoplay : N }.
Record AudioChecks := { ac_total : N; ac_autoplay : N }.
Record FocusChecks := { fc_links : N; fc_buttons : N; fc_tabindexPositive : N }.
Record TouchChecks := { to_total : N; to_tooSmall : N }.
Record FormChecks := { fo_total : N; fo_missingLabel : N; fo_placeholderOnly : N }.

Record Page := {
  (* chapter 1 *)
  pg_title : Settled Text.text;
  pg_htmlLang : Settled (option Text.text);
  pg_landmarkCount : Settled N;
  pg_mainCount : Settled N;
  pg_headingStructure : Settled HeadingStructure;
  pg_linkChecks : Settled LinkChecks;
  pg_skipLink : Settled bool;
  pg_tableChecks : Settled TableChecks;
  pg_listChecks : Settled ListChecks;
  pg_iframeChecks : Settled IframeChecks;
  pg_duplicateIds : Settled (list string);
  (* chapter 2 *)
  pg_imageChecks : Settled ImageChecks;
  pg_svgChecks : Settled SvgChecks;
  pg_canvasChecks : Settled CanvasChecks;
  pg_mapChecks : Settled MapChecks;
  (* chapter 3 *)
  pg_linkStyleChecks : Settled LinkStyleChecks;
  pg_focusStyleChecks : Settled FocusStyleChecks;
  (* chapter 4 *)
  pg_setViewportSize : Settled unit;
  pg_overflowChecks : Settled OverflowChecks;
  pg_viewportMeta : Settled ViewportMeta;
  (* chapter 5 *)
  pg_videoChecks : Settled VideoChecks;
  pg_audioChecks : Settled AudioChecks;
  pg_flashChecks : Settled N;
  (* chapter 6 *)
  pg_focusChecks : Settled FocusChecks;
  pg_touchChecks : Settled TouchChecks;
  (* chapter 7 *)
  pg_formChecks : Settled FormChecks;
  (* chapter 8 *)
  pg_refreshMeta : Settled bool;
  pg_liveRegions : Settled N;
}.

(** [results.push(r)] and [if (c) results.push(r)] *)
Definition push (results : list CheckResult) (r : CheckResult) : list CheckResult :=
  results ++ [r].
Definition push_if (c : bool) (results : list CheckResult) (r : CheckResult) : list CheckResult :=
  if c then push results r else results.

End Checks.

(** ** tests/chapter1-semantics.js *)

Module Chapter1.
Import Js Checks.
Local Open Scope N_scope.

Definition chapterId : string := "semantics".

Definition runSemanticChecks (page : Page) : Settled (list CheckResult) :=
  let results := [] in
  title ← await pg_title page;
  let results := push results
    (check "page-title-exists"
       "Page MUST have a title with text"
       (if negb (bool_decide (title = [])) && (0 <? N.of_nat (length (Text.trim title)))
        then "pass" else "fail")
       (if bool_decide (title = []) then "Page has no title"
        else "Title: " +:+ dq +:+ Text.encode (take 80%nat title)
             +:+ (if 80 <? N.of_nat (length title) then "..." else EmptyString) +:+ dq)
       chapterId) in
  htmlLang ← await pg_htmlLang page;
  let lang := default [] htmlLang in
  let results := push results
    (check "html-lang"
       "Primary language MUST be identified on html element"
       (if negb (bool_decide (lang = [])) && (0 <? N.of_nat (length (Text.trim lang)))
        then "pass" else "fail")
       (if bool_decide (lang = []) then "Missing or empty lang attribute on <html>"
        else "lang=" +:+ dq +:+ Text.encode lang +:+ dq)
       chapterId) in
  landmarkCount ← await pg_landmarkCount page;
  let results := push results
    (check "landmarks-present"
       "Landmarks SHOULD be used for layout (main, nav, header, footer, etc.)"
       (if 0 <? landmarkCount then "pass" else "warn")
       ("Found " +:+ show landmarkCount +:+ " landmark element(s)")
       chapterId) in
  mainCount ← await pg_mainCount page;
  let results := push results
    (check "single-main"
       "Page SHOULD have only one main landmark"
       (if mainCount =? 1 then "pass" else if mainCount =? 0 then "warn" else "fail")
       ("Found " +:+ show mainCount +:+ " main landmark(s)")
       chapterId) in
  headingStructure ← await pg_headingStructure page;
  let results := push results
    (check "heading-structure"
       "Main content SHOULD start with h1, headings SHOULD NOT skip levels"
       (if (hs_skips headingStructure =? 0) && (1 <=? hs_h1Count headingStructure)
        then "pass" else "warn")
       ("Headings: " +:+ show (hs_total headingStructure) +:+ " total, "
        +:+ show (hs_h1Count headingStructure) +:+ " h1(s), "
        +:+ show (hs_skips headingStructure) +:+ " level skip(s)")
       chapterId) in
  linkChecks ← await pg_linkChecks page;
  let results := push results
    (check "link-text"
       "Links MUST have programmatically-discernible text"
       (if lc_emptyText linkChecks =? 0 then "pass" else "fail")
       (if 0 <? lc_emptyText linkChecks
        then show (lc_emptyText linkChecks) +:+ " link(s) with no accessible text"
        else show (lc_total linkChecks) +:+ " links checked")
       chapterId) in
  let results := push_if (0 <? lc_genericText linkChecks) results
    (check "link-meaningful"
       "Link purpose SHOULD be determinable from link text alone"
       "warn"
       (show (lc_genericText linkChecks) +:+ " link(s) with generic text (e.g. "
        +:+ dq +:+ "click here" +:+ dq +:+ ")")
       chapterId) in
  skipLink ← await pg_skipLink page;
  let results := push results
    (check "skip-link"
       "Skip link SHOULD be provided for keyboard users"
       (if skipLink then "pass" else "warn")
       (if skipLink then "Skip link found" else "No skip link detected")
       chapterId) in
  tableChecks ← await pg_tableChecks page;
  let results := push_if (0 <? tc_total tableChecks) results
    (check "table-headers"
       "Data tables MUST have header cells (th)"
       (if tc_noTh tableChecks =? 0 then "pass" else "fail")
       (if 0 <? tc_noTh tableChecks
        then show (tc_noTh tableChecks) +:+ " table(s) without th"
        else "All tables have headers")
       chapterId) in
  listChecks ← await pg_listChecks page;
  let results := push_if (0 <? li_orphanLi listChecks) results
    (check "list-markup"
       "Lists MUST use semantic markup (ul/ol)"
       "fail"
       (show (li_orphanLi listChecks) +:+ " orphan li element(s) found")
       chapterId) in
  iframeChecks ← await pg_iframeChecks page;
  let results := push_if (0 <? ic_total iframeChecks) results
    (check "iframe-titles"
       "Iframes MUST have non-empty title attribute"
       (if ic_noTitle iframeChecks =? 0 then "pass" else "fail")
       (if 0 <? ic_noTitle iframeChecks
        then show (ic_noTitle iframeChecks) +:+ " iframe(s) without title"
        else "All iframes have titles")
       chapterId) in
  duplicateIds ← await pg_duplicateIds page;
  let results := push_if (0 <? N.of_nat (length duplicateIds)) results
    (check "unique-ids"
       "IDs MUST be unique within the page"
       "fail"
       ("Duplicate IDs: " +:+ join ", " duplicateIds)
       chapterId) in
  Resolved results.

End Chapter1.

(** ** tests/chapter2-images.js *)

Module Chapter2.
Import Js Checks.
Local Open Scope N_scope.

Definition chapterId : string := "images".

Definition runImageChecks (page : Page) : Settled (list CheckResult) :=
  let results := [] in
  imageChecks ← await pg_imageChecks page;
  let results :=
    if 0 <? im_total imageChecks then
      let results := push results
        (check "img-alt"
           "Informative images MUST have programmatically-discernible alternative text"
           (if im_missingAlt imageChecks =? 0 then "pass" else "fail")
           (if 0 <? im_missingAlt imageChecks
            then show (im_missingAlt imageChecks) +:+ " image(s) missing alt attribute"
            else show (im_total imageChecks) +:+ " images have alt text")
           chapterId) in
      push_if (0 <? im_longAlt imageChecks) results
        (check "img-alt-length"
           "Alternative text SHOULD be concise (â‰¤250 characters)"
           "warn"
           (show (im_longAlt imageChecks) +:+ " image(s) with alt > 250 chars")
           chapterId)
    else results in
  svgChecks ← await pg_svgChecks page;
  let results :=
    if 0 <? sv_total svgChecks then
      let results := push results
        (check "svg-role"
           ("SVG elements SHOULD have role=" +:+ dq +:+ "img" +:+ dq)
           (if sv_noRole svgChecks =? 0 then "pass" else "warn")
           (if 0 <? sv_noRole svgChecks
            then show (sv_noRole svgChecks) +:+ " SVG(s) without role=" +:+ dq +:+ "img" +:+ dq
            else "All SVGs have role")
           chapterId) in
      push results
        (check "svg-accessible-name"
           "Informative/actionable SVGs MUST have meaningful alternative text"
           (if sv_noAccessibleName svgChecks =? 0 then "pass" else "warn")
           (if 0 <? sv_noAccessibleName svgChecks
            then show (sv_noAccessibleName svgChecks) +:+ " SVG(s) without accessible name"
            else "All SVGs have accessible names")
           chapterId)
    else results in
  canvasChecks ← await pg_canvasChecks page;
  let results := push_if (0 <? cv_total canvasChecks) results
    (check "canvas-alt"
       ("Canvas elements MUST have role=" +:+ dq +:+ "img" +:+ dq +:+ " and text alternative")
       (if (cv_noAlt canvasChecks =? 0) && (cv_noRole canvasChecks =? 0) then "pass" else "fail")
       (if (0 <? cv_noAlt canvasChecks) || (0 <? cv_noRole canvasChecks)
        then show (cv_total canvasChecks) +:+ " canvas element(s) need role and alternative text"
        else "All canvases have role and alt")
       chapterId) in
  mapChecks ← await pg_mapChecks page;
  let results := push_if ((0 <? mc_total mapChecks) && (0 <? mc_areaNoAlt mapChecks)) results
    (check "image-map-alt"
       "Image map areas MUST have alternative text"
       "fail"
       (show (mc_areaNoAlt mapChecks) +:+ " area(s) in image map without alt")
       chapterId) in
  Resolved results.

End Chapter2.

(** ** tests/chapter3-visual.js *)

Module Chapter3.
Import Js Checks.
Local Open Scope N_scope.

Definition chapterId : string := "visualDesign".

Definition runVisualChecks (page : Page) : Settled (list CheckResult) :=
  let results := [] in
  linkStyleChecks ← await pg_linkStyleChecks page;
  let results := push_if (0 <? ls_colorOnlyCount linkStyleChecks) results
    (check "link-differentiation"
       "Links MUST not rely on color alone; provide underline/outline on hover/focus"
       "warn"
       (show (ls_colorOnlyCount linkStyleChecks)
        +:+ " link(s) may rely on color only (no underline/border)")
       chapterId) in
  focusChecks ← await pg_focusStyleChecks page;
  let results := push results
    (check "focus-indicator"
       "Focusable elements MUST have visible focus indicator (axe covers contrast)"
       "info"
       (show (fs_total focusChecks) +:+ " focusable elements - verify focus styles in axe results")
       chapterId) in
  Resolved results.

End Chapter3.

(** ** tests/chapter4-responsive.js *)

Module Chapter4.
Import Js Checks.
Local Open Scope N_scope.

Definition chapterId : string := "responsive".

(** The viewport argument only reaches [page.setViewportSize]. *)
Definition runResponsiveChecks (page : Page) : Settled (list CheckResult) :=
  let results := [] in
  _ ← await pg_setViewportSize page;
  overflowChecks ← await pg_overflowChecks page;
  let results := push results
    (check "no-horizontal-scroll"
       "Content MUST NOT require horizontal scrolling at 320px width"
       (if negb (oc_hasHorizontalScroll overflowChecks) then "pass" else "fail")
       (if oc_hasHorizontalScroll overflowChecks
        then "Horizontal overflow: content " +:+ show (oc_docWidth overflowChecks)
             +:+ "px vs viewport " +:+ show (oc_viewWidth overflowChecks) +:+ "px"
        else "No horizontal overflow at 320px")
       chapterId) in
  viewportMeta ← await pg_viewportMeta page;
  let results := push results
    (check "viewport-zoom"
       "Page MUST allow users to zoom on mobile (no user-scalable=no)"
       (if vm_present viewportMeta && vm_allowsZoom viewportMeta then "pass"
        else if vm_present viewportMeta then "warn" else "info")
       (if vm_present viewportMeta
        then if vm_allowsZoom viewportMeta
             then "Viewport allows zoom"
             else "Viewport may restrict zoom: " +:+ default "null" (vm_content viewportMeta)
        else "No viewport meta tag")
       chapterId) in
  Resolved results.

End Chapter4.

(** ** tests/chapter5-multimedia.js *)

Module Chapter5.
Import Js Checks.
Local Open Scope N_scope.

Definition chapterId : string := "multimedia".

Definition runMultimediaChecks (page : Page) : Settled (list CheckResult) :=
  let results := [] in
  videoChecks ← await pg_videoChecks page;
  let results :=
    if 0 <? vc_total videoChecks then
      let results := push results
        (check "video-captions"
           "Prerecorded video MUST include synchronized captions"
           (if vc_noCaptions videoChecks =? 0 then "pass" else "fail")
           (if 0 <? vc_noCaptions videoChecks
            then show (vc_noCaptions videoChecks) +:+ " video(s) without caption track"
            else "All videos have caption tracks")
           chapterId) in
      push_if (0 <? vc_autoplay videoChecks) results
        (check "video-autoplay"
           "Auto-play video (>5s) MUST have pause/stop mechanism"
           "warn"
           (show (vc_autoplay videoChecks) +:+ " video(s) with autoplay - verify pause control exists")
           chapterId)
    else results in
  audioChecks ← await pg_audioChecks page;
  let results := push_if (0 <? ac_autoplay audioChecks) results
    (check "audio-autoplay"
       "Audio auto-playing >3s MUST have stop/pause/mute control"
       "warn"
       (show (ac_autoplay audioChecks) +:+ " audio element(s) with autoplay")
       chapterId) in
  flashChecks ← await pg_flashChecks page;
  let results := push_if (0 <? flashChecks) results
    (check "flash-alternative"
       "Flash/Silverlight SHOULD have HTML alternative"
       "warn"
       (show flashChecks +:+ " Flash/plugin object(s) found - ensure accessible alternative")
       chapterId) in
  Resolved results.

End Chapter5.

(** ** tests/chapter6-input-methods.js *)

Module Chapter6.
Import Js Checks.
Local Open Scope N_scope.

Definition chapterId : string := "inputMethods".

Definition runInputMethodChecks (page : Page) : Settled (list CheckResult) :=
  let results := [] in
  focusChecks ← await pg_focusChecks page;
  let results := push results
    (check "tabindex-positive"
       "tabindex with positive values SHOULD NOT be used"
       (if fc_tabindexPositive focusChecks =? 0 then "pass" else "warn")
       (if 0 <? fc_tabindexPositive focusChecks
        then show (fc_tabindexPositive focusChecks) +:+ " element(s) with positive tabindex"
        else "No positive tabindex values")
       chapterId) in
  touchChecks ← await pg_touchChecks page;
  let results := push_if (0 <? to_tooSmall touchChecks) results
    (check "touch-target-size"
       "Touch targets SHOULD be at least 44x44 pixels"
       "warn"
       (show (to_tooSmall touchChecks) +:+ " interactive element(s) below 44x44px")
       chapterId) in
  Resolved results.

End Chapter6.

(** ** tests/chapter7-forms.js *)

Module Chapter7.
Import Js Checks.
Local Open Scope N_scope.

Definition chapterId : string := "forms".

Definition runFormChecks (page : Page) : Settled (list CheckResult) :=
  let results := [] in
  formChecks ← await pg_formChecks page;
  let results :=
    if 0 <? fo_total formChecks then
      let results := push results
        (check "form-labels"
           "Form inputs MUST have programmatically-associated labels"
           (if fo_missingLabel formChecks =? 0 then "pass" else "fail")
           (if 0 <? fo_missingLabel formChecks
            then show (fo_missingLabel formChecks) +:+ " input(s) without proper label"
            else "All inputs have labels")
           chapterId) in
      push results
        (check "placeholder-not-only-label"
           "Placeholder MUST NOT be the only label for inputs"
           (if fo_placeholderOnly formChecks =? 0 then "pass" else "fail")
           (if 0 <? fo_placeholderOnly formChecks
            then show (fo_placeholderOnly formChecks) +:+ " input(s) may use placeholder as only label"
            else "No placeholder-only labels")
           chapterId)
    else results in
  Resolved results.

End Chapter7.

(** ** tests/chapter8-dynamic.js *)

Module Chapter8.
Import Js Checks.
Local Open Scope N_scope.

Definition chapterId : string := "dynamicUpdates".

Definition runDynamicChecks (page : Page) : Settled (list CheckResult) :=
  let results := [] in
  refreshMeta ← await pg_refreshMeta page;
  let results := push results
    (check "no-auto-refresh"
       "Page MUST NOT refresh or reload automatically"
       (if negb refreshMeta then "pass" else "fail")
       (if refreshMeta then "Meta refresh found - may auto-reload page" else "No meta refresh")
       chapterId) in
  liveRegions ← await pg_liveRegions page;
  let results := push results
    (check "dynamic-announcements"
       "Dynamic content changes SHOULD be announced (aria-live, etc.)"
       "info"
       ("Found " +:+ show liveRegions +:+ " aria-live region(s) - verify status messages are announced")
       chapterId) in
  Resolved results.

End Chapter8.

(** ** run-tests.js: the audit scan *)

Module AxeScan.
Import Checklists Checks.

(** A record of the audit library: a violation, an incomplete result or a
    pass.  The run only reads [tags] and counts the records. *)
Record AxeRecord := {
  ar_id : string;
  ar_help : string;
  ar_description : string;
  ar_tags : option (list string);
  ar_nodes : N;
}.

#[global] Instance AxeRecord_eq_dec : EqDecision AxeRecord.
Proof. solve_decision. Defined.

(** [None]: a tag names a built-in that the tag table inherits; it is
    truthy and no list, and [ch.forEach] throws a TypeError. *)
Definition categorizeAxeViolation (violation : AxeRecord) : option (list string) :=
  let tags := default [] (ar_tags violation) in
  chapters ←
    Js.for_each (fun chapters tag =>
                   match Js.index AXE_TAG_TO_CHAPTER tag with
                   | Some (Js.Data ch) => Some (JsSet.add_all ch chapters)
                   | Some (Js.Builtin _) => None
                   | None => Some chapters
                   end) [] tags;
  Some (if decide (length chapters = 0) then JsSet.add "semantics" chapters else chapters).

(** What [builder.analyze()] resolves to. *)
Record AxeResults := {
  violations : option (list AxeRecord);
  incomplete : option (list AxeRecord);
  passes : option (list AxeRecord);
}.

Record ChapterBucket := {
  b_violations : list AxeRecord;
  b_incomplete : list AxeRecord;
  b_passes : list AxeRecord;
}.

Inductive Kind := Violations | Incomplete | Passes.

(** [bucket.<kind>.push(v)] *)
Definition bucket_push (k : Kind) (v : AxeRecord) (b : ChapterBucket) : ChapterBucket :=
  match k with
  | Violations => {| b_violations := b_violations b ++ [v]; b_incomplete := b_incomplete b; b_passes := b_passes b |}
  | Incomplete => {| b_violations := b_violations b; b_incomplete := b_incomplete b ++ [v]; b_passes := b_passes b |}
  | Passes => {| b_violations := b_violations b; b_incomplete := b_incomplete b; b_passes := b_passes b ++ [v] |}
  end.

(** [if (byChapter[ch]) byChapter[ch].<kind>.push(v)], for a chapter [ch]
    that the classifier returned: a value of the tag table or "semantics",
    never the name of a built-in. *)
Definition push_into (k : Kind) (v : AxeRecord) (byChapter : gmap string ChapterBucket)
    (ch : string) : gmap string ChapterBucket :=
  match byChapter !! ch with
  | Some b => <[ch := bucket_push k v b]> byChapter
  | None => byChapter
  end.

(** [(records || []).forEach((v) => categorizeAxeViolation(v).forEach(...))]:
    a throw of the classifier ends the loop. *)
Definition distribute (k : Kind) (records : option (list AxeRecord))
    (byChapter : gmap string ChapterBucket) : option (gmap string ChapterBucket) :=
  Js.for_each (fun m v =>
                 chapters ← categorizeAxeViolation v;
                 Some (foldl (push_into k v) m chapters))
              byChapter (default [] records).

Definition empty_bucket : ChapterBucket :=
  {| b_violations := []; b_incomplete := []; b_passes := [] |}.

Definition init_byChapter : gmap string ChapterBucket :=
  foldl (fun m ch => <[ch := empty_bucket]> m) ∅ chapter_keys.

Definition build_byChapter (results : AxeResults) : option (gmap string ChapterBucket) :=
  byChapter ← distribute Violations (violations results) init_byChapter;
  byChapter ← distribute Incomplete (incomplete results) byChapter;
  distribute Passes (passes results) byChapter.

(** What [runAxeScan] returns (the [timestamp] is left out). *)
Record AxeData := {
  ad_url : string;
  ad_violations : option (list AxeRecord);
  ad_incomplete : option (list AxeRecord);
  ad_passes : option (list AxeRecord);
  ad_byChapter : gmap string ChapterBucket;
}.

(** The message of the TypeError of the classifier. *)
Definition not_a_function : string := "ch.forEach is not a function".

(** [results] is what [builder.analyze()] resolved to.  The function is
    [async]: the throw of the classifier rejects its promise. *)
Definition runAxeScan (results : AxeResults) (url : string) : Settled AxeData :=
  match build_byChapter results with
  | Some byChapter =>
      Resolved {| ad_url := url;
                  ad_violations := violations results;
                  ad_incomplete := incomplete results;
                  ad_passes := passes results;
                  ad_byChapter := byChapter |}
  | None => Rejected not_a_function
  end.

End AxeScan.

(** ** run-tests.js: the custom checks and the main loop *)

Module Runner.
Import Js Checks AxeScan.
Local Open Scope N_scope.

(** The chapter table of [runCustomChecks]. *)
Definition chapters : list (string * (Page -> Settled (list CheckResult))) :=
  [ ("semantics", Chapter1.runSemanticChecks);
    ("images", Chapter2.runImageChecks);
    ("visualDesign", Chapter3.runVisualChecks);
    ("responsive", Chapter4.runResponsiveChecks);
    ("multimedia", Chapter5.runMultimediaChecks);
    ("inputMethods", Chapter6.runInputMethodChecks);
    ("forms", Chapter7.runFormChecks);
    ("dynamicUpdates", Chapter8.runDynamicChecks) ].

(** The result pushed when a chapter module throws. *)
Definition chapter_error (chapterId message url : string) : CheckResult :=
  {| cr_id := chapterId +:+ "-error";
     cr_rule := chapterId +:+ " checks";
     cr_status := "fail";
     cr_message := message;
     cr_chapter := Some chapterId;
     cr_url := Some url |}.

Definition runCustomChecks (page : Page) (url : string) : list CheckResult :=
  foldl (fun (allResults : list CheckResult) '(chapterId, fn) =>
           match fn page with
           | Resolved results => (allResults ++ map (with_url url) results)%list
           | Rejected message => (allResults ++ [chapter_error chapterId message url])%list
           end)
        [] chapters.

Record Summary := {
  pass : N;
  fail : N;
  warn : N;
}.

(** The report of a run ([generatedAt] and [screenshots] are left out: the
    clock and the files written are outside the embedding). *)
Record RunReport := {
  urls : list string;
  axeResults : list (string * AxeData);
  customResults : list CheckResult;
  summary : Summary;
}.

Definition initial_report : RunReport :=
  {| urls := [];
     axeResults := [];
     customResults := [];
     summary := {| pass := 0; fail := 0; warn := 0 |} |}.

(** The body of [customData.forEach] that updates the summary. *)
Definition tally (s : Summary) (r : CheckResult) : Summary :=
  if bool_decide (cr_status r = "pass") then
    {| pass := pass s + 1; fail := fail s; warn := warn s |}
  else if bool_decide (cr_status r = "fail") then
    {| pass := pass s; fail := fail s + 1; warn := warn s |}
  else
    {| pass := pass s; fail := fail s; warn := warn s + 1 |}.

(** The result pushed by the [catch] of the loop body. *)
Definition page_load_error (message url : string) : CheckResult :=
  {| cr_id := "page-load";
     cr_rule := "Page load";
     cr_status := "fail";
     cr_message := message;
     cr_chapter := None;
     cr_url := Some url |}.

(** What the browser does for one URL of the run: the outcome of
    [page.goto], the outcome of the audit ([builder.analyze()]), and the
    page the chapter modules probe. *)
Record Visit := {
  v_url : string;
  v_goto : Settled unit;
  v_analyze : Settled AxeResults;
  v_page : Page;
}.

(** The [try] block of the loop body.  Its calls that can reject
    ([page.goto] and [runAxeScan], with the audit inside it) come before
    every update of the report, so a rejection leaves the report as it
    was.  (The screenshots taken after the checks, and with them the
    faults of the file system, are left out.) *)
Definition try_url (report : RunReport) (v : Visit) : Settled RunReport :=
  let url := v_url v in
  _ ← await v_goto v;
  results ← await v_analyze v;
  axeData ← await runAxeScan results url;
  (* report.axeResults[url] = axeData; report.urls.push(url): the URL, which
     the browser has loaded, names no built-in and is no array index *)
  let report :=
    {| urls := (urls report ++ [url])%list;
       axeResults := JsDict.set url axeData (axeResults report);
       customResults := customResults report;
       summary := summary report |} in
  let customData := runCustomChecks (v_page v) url in
  (* report.customResults.push(...customData) *)
  let report :=
    {| urls := urls report;
       axeResults := axeResults report;
       customResults := (customResults report ++ customData)%list;
       summary := summary report |} in
  (* customData.forEach(...) *)
  let report :=
    {| urls := urls report;
       axeResults := axeResults report;
       customResults := customResults report;
       summary := foldl tally (summary report) customData |} in
  Resolved report.

(** One iteration of [for (const url of urls)]: the [try] block and its
    [catch]. *)
Definition test_url (report : RunReport) (v : Visit) : RunReport :=
  match try_url report v with
  | Resolved report' => report'
  | Rejected message =>
      {| urls := urls report;
         axeResults := axeResults report;
         customResults := (customResults report ++ [page_load_error message (v_url v)])%list;
         summary := {| pass := pass (summary report);
                       fail := fail (summary report) + 1;
                       warn := warn (summary report) |} |}
  end.

Definition run (visits : list Visit) : RunReport :=
  foldl test_url initial_report visits.

(** [main]: without URLs the process exits with status 1 and there is no
    report. *)
Definition main (visits : list Visit) : option RunReport :=
  if bool_decide (length visits = 0%nat) then None else Some (run visits).

End Runner.

(** ** JavaScript numbers *)

(** IEEE 754 binary64, on the executable specification of the standard
    library: round to nearest, ties to even. *)
Module Number.
Local Open Scope Z_scope.

Definition prec : Z := 53.
Definition emax : Z := 1024.

Definition number : Type := spec_float.

#[global] Instance number_eq_dec : EqDecision number.
Proof. unfold number. solve_decision. Defined.

(** The number an integer literal or an integer count denotes. *)
Definition of_Z (z : Z) : number := binary_normalize prec emax z 0 false.
Definition of_N (n : N) : number := of_Z (Z.of_N n).

Definition add : number -> number -> number := SFadd prec emax.
Definition mul : number -> number -> number := SFmul prec emax.
Definition div : number -> number -> number := SFdiv prec emax.

(** [x === 0] *)
Definition is_zero (x : number) : bool := SFeqb x (S754_zero false).

(** [Math.round(x)]: the integer nearest to [x], the larger one on a tie;
    a result that is zero keeps the sign of [x]. *)
Definition round (x : number) : number :=
  match x with
  | S754_finite s m e =>
      if 0 <=? e then x
      else
        let k := - e in
        let n := Z.shiftr (cond_Zopp s (Zpos m) + 2 ^ (k - 1)) k in
        if n =? 0 then S754_zero s else of_Z n
  | _ => x
  end.

(** [Math.max(a, b)] and [Math.min(a, b)]: [NaN] if either is, and [+0]
    above [-0]. *)
Definition max (a b : number) : number :=
  match SFcompare a b with
  | None => S754_nan
  | Some Lt => b
  | Some Gt => a
  | Some Eq => match a with S754_zero true => b | _ => a end
  end.

Definition min (a b : number) : number :=
  match SFcompare a b with
  | None => S754_nan
  | Some Lt => a
  | Some Gt => b
  | Some Eq => match a with S754_zero false => b | _ => a end
  end.

(** The integer a number is, when it is one. *)
Definition to_Z (x : number) : option Z :=
  match x with
  | S754_zero _ => Some 0
  | S754_finite s m e =>
      if 0 <=? e then Some (cond_Zopp s (Zpos m * 2 ^ e))
      else if Zpos m mod 2 ^ (- e) =? 0 then Some (cond_Zopp s (Zpos m / 2 ^ (- e)))
      else None
  | _ => None
  end.

End Number.

(** ** generate-report.js: the statistics of [generateReport] *)

Module Report.
Import Js Checks AxeScan Runner.

Record ChecklistItem := {
  text : string;
  disabilities : option (list string);
}.

Definition DISABILITY_MAP_entries : list (string * list string) :=
  [ ("page-title-exists", ["Blindness"; "Low Vision"; "Reading Disabilities"; "Cognitive Disabilities"]);
    ("html-lang", ["Blindness"; "Reading Disabilities"; "Cognitive Disabilities"]);
    ("landmarks-present", ["Blindness"; "Low Vision"; "Cognitive Disabilities"]);
    ("single-main", ["Blindness"; "Low Vision"; "Cognitive Disabilities"]);
    ("heading-structure", ["Blindness"; "Low Vision"; "Reading Disabilities"; "Cognitive Disabilities"]);
    ("link-text", ["Blindness"; "Low Vision"; "Reading Disabilities"]);
    ("link-meaningful", ["Blindness"; "Low Vision"; "Reading Disabilities"; "Cognitive Disabilities"]);
    ("skip-link", ["Blindness"; "Dexterity/Motor Disabilities"]);
    ("table-headers", ["Blindness"; "Low Vision"; "Reading Disabilities"; "Cognitive Disabilities"]);
    ("list-markup", ["Blindness"; "Low Vision"; "Reading Disabilities"; "Cognitive Disabilities"]);
    ("iframe-titles", ["Blindness"; "Low Vision"; "Cognitive Disabilities"]);
    ("unique-ids", ["Blindness"; "Cognitive Disabilities"]);
    ("img-alt", ["Blindness"; "Low Vision"; "Deafblindness"]);
    ("img-alt-length", ["Blindness"; "Low Vision"; "Deafblindness"; "Cognitive Disabilities"]);
    ("svg-role", ["Blindness"; "Low Vision"; "Deafblindness"]);
    ("svg-accessible-name", ["Blindness"; "Low Vision"; "Deafblindness"]);
    ("canvas-alt", ["Blindness"; "Low Vision"; "Deafblindness"]);
    ("image-map-alt", ["Blindness"; "Low Vision"; "Deafblindness"]);
    ("link-differentiation", ["Colorblindness"; "Low Vision"]);
    ("focus-indicator", ["Low Vision"; "Dexterity/Motor Disabilities"; "Blindness"]);
    ("no-horizontal-scroll", ["Low Vision"; "Dexterity/Motor Disabilities"]);
    ("viewport-zoom", ["Low Vision"; "Dexterity/Motor Disabilities"]);
    ("video-captions", ["Deafness and Hard-of-Hearing"; "Deafblindness"]);
    ("video-autoplay", ["Deafness and Hard-of-Hearing"; "Cognitive Disabilities"]);
    ("audio-autoplay", ["Deafness and Hard-of-Hearing"]);
    ("flash-alternative", ["Blindness"; "Deafness and Hard-of-Hearing"]);
    ("tabindex-positive", ["Dexterity/Motor Disabilities"; "Blindness"]);
    ("touch-target-size", ["Dexterity/Motor Disabilities"; "Low Vision"]);
    ("form-labels", ["Blindness"; "Cognitive Disabilities"; "Reading Disabilities"]);
    ("placeholder-not-only-label", ["Blindness"; "Cognitive Disabilities"; "Reading Disabilities"]);
    ("no-auto-refresh", ["Cognitive Disabilities"; "Dexterity/Motor Disabilities"]);
    ("dynamic-announcements", ["Blindness"; "Cognitive Disabilities"]);
    ("page-load", ["Various"]) ].

Definition ALL_DISABILITIES : list string :=
  [ "Blindness";
    "Low Vision";
    "Colorblindness";
    "Deafness and Hard-of-Hearing";
    "Deafblindness";
    "Dexterity/Motor Disabilities";
    "Speech Disabilities";
    "Cognitive Disabilities";
    "Reading Disabilities";
    "Seizure Disorders";
    "Various" ].

Definition MANUAL_VERIFICATION_ITEMS : list ChecklistItem :=
  [ {| text := "Page title is unique and describes the page or result of the user action.";
       disabilities := Some ["Blindness"; "Low Vision"; "Reading Disabilities"; "Cognitive Disabilities"] |};
    {| text := ("Link purpose can be determined from the link text alone (no " +:+ dq +:+ "click here" +:+ dq +:+ ").");
       disabilities := Some ["Blindness"; "Low Vision"; "Reading Disabilities"; "Cognitive Disabilities"] |};
    {| text := "Alternative text is meaningful and concise, not just present.";
       disabilities := Some ["Blindness"; "Low Vision"; "Deafblindness"] |};
    {| text := "Color contrast meets 4.5:1 for normal text, 3:1 for large text and UI.";
       disabilities := Some ["Low Vision"; "Colorblindness"] |};
    {| text := "Information is not conveyed by color alone.";
       disabilities := Some ["Colorblindness"; "Low Vision"] |};
    {| text := "Focus order is logical and matches visual order; no positive tabindex.";
       disabilities := Some ["Blindness"; "Dexterity/Motor Disabilities"] |};
    {| text := "All interactive elements are keyboard accessible and have visible focus.";
       disabilities := Some ["Blindness"; "Dexterity/Motor Disabilities"; "Low Vision"] |};
    {| text := "Touch targets are at least 44×44px with spacing between them.";
       disabilities := Some ["Dexterity/Motor Disabilities"; "Low Vision"] |};
    {| text := "Form error messages are associated with fields and announced to screen readers.";
       disabilities := Some ["Blindness"; "Cognitive Disabilities"; "Reading Disabilities"] |};
    {| text := "Dynamic content changes are announced (e.g. aria-live) where appropriate.";
       disabilities := Some ["Blindness"; "Cognitive Disabilities"] |};
    {| text := "No content flashes more than 3 times per second (seizure risk).";
       disabilities := Some ["Seizure Disorders"] |};
    {| text := "Video has captions and, if needed, audio description; audio has transcript.";
       disabilities := Some ["Deafness and Hard-of-Hearing"; "Deafblindness"] |};
    {| text := "Motion/animation can be paused or disabled (e.g. prefers-reduced-motion).";
       disabilities := Some ["Cognitive Disabilities"] |} ].

Definition ASSISTIVE_TECH_ITEMS : list ChecklistItem :=
  [ {| text := "Screen reader (NVDA, JAWS, or VoiceOver): Navigate by headings and landmarks; all content reachable.";
       disabilities := Some ["Blindness"; "Low Vision"] |};
    {| text := "Screen reader: Form fields have announced labels and errors; buttons/links have clear names.";
       disabilities := Some ["Blindness"; "Low Vision"] |};
    {| text := "Screen reader: No unexpected context changes on focus; dynamic updates are announced.";
       disabilities := Some ["Blindness"; "Cognitive Disabilities"] |};
    {| text := "Keyboard only: Tab through every interactive element; no keyboard traps.";
       disabilities := Some ["Blindness"; "Dexterity/Motor Disabilities"] |};
    {| text := "Keyboard only: Focus order matches visual order; focus is always visible.";
       disabilities := Some ["Blindness"; "Dexterity/Motor Disabilities"; "Low Vision"] |};
    {| text := "Keyboard only: All actions (menus, modals, carousels) work with keyboard alone.";
       disabilities := Some ["Blindness"; "Dexterity/Motor Disabilities"] |};
    {| text := "Zoom: At 200% zoom, content reflows; no horizontal scrolling; text still readable.";
       disabilities := Some ["Low Vision"] |};
    {| text := "Zoom: No content clipped or overlapping at 200%.";
       disabilities := Some ["Low Vision"] |};
    {| text := "Reduce motion: Animations respect prefers-reduced-motion or can be paused.";
       disabilities := Some ["Cognitive Disabilities"] |};
    {| text := "Mobile/touch: All features work with touch; targets are large enough; no gesture-only actions.";
       disabilities := Some ["Dexterity/Motor Disabilities"; "Low Vision"] |} ].

Definition DISABILITY_MAP : gmap string (list string) :=
  list_to_map DISABILITY_MAP_entries.

Section Statistics.
Local Open Scope N_scope.

(** [Object.values(reportData.axeResults || {}).reduce(...)] *)
Definition totalAxeViolations (reportData : RunReport) : N :=
  foldl (fun sum r => sum + N.of_nat (length (default [] (ad_violations r))))
        0 (JsDict.values (axeResults reportData)).

(** [loadErrors] *)
Definition loadErrors (reportData : RunReport) : list CheckResult :=
  filter (fun r => cr_id r = "page-load") (customResults reportData).

(** [customByChapter[ch]], for a key [ch] of [CHECKLIST_CHAPTERS] *)
Definition customByChapter (reportData : RunReport) (ch : string) : list CheckResult :=
  filter (fun r => cr_chapter r = Some ch) (customResults reportData).

(** [if (disabilityStats[d] !== undefined) disabilityStats[d]++], for a
    category [d] of the lists of the program, none of which is the name of
    a built-in. *)
Definition bump (disabilityStats : gmap string N) (d : string) : gmap string N :=
  match disabilityStats !! d with
  | Some n => <[d := n + 1]> disabilityStats
  | None => disabilityStats
  end.

(** [(data.violations?.length || 0) * Math.max(1, reportData.urls?.length || 1)] *)
Definition various_count (reportData : RunReport) (data : AxeData) : N :=
  let urlCount := N.of_nat (length (urls reportData)) in
  N.of_nat (length (default [] (ad_violations data)))
  * N.max 1 (if urlCount =? 0 then 1 else urlCount).

(** [DISABILITY_MAP[r.id] || ['Various']] *)
Definition listed_for (r : CheckResult) : Js.Value (list string) :=
  default (Js.Data ["Various"]) (Js.index DISABILITY_MAP (cr_id r)).

(** [None]: the id of a result names a built-in that [DISABILITY_MAP]
    inherits; it is no list, its [forEach] is no function and the call
    throws a TypeError, which [generateReport] does not catch. *)
Definition disabilityStats (reportData : RunReport) : option (gmap string N) :=
  let stats := foldl (fun m d => <[d := 0]> m) ∅ ALL_DISABILITIES in
  stats ←
    Js.for_each (fun m r =>
                   match listed_for r with
                   | Js.Data ds => Some (foldl bump m ds)
                   | Js.Builtin _ => None
                   end) stats (customResults reportData);
  let stats :=
    foldl (fun m item => foldl bump m (default [] (disabilities item)))
          stats (MANUAL_VERIFICATION_ITEMS ++ ASSISTIVE_TECH_ITEMS)%list in
  Some (foldl (fun m data =>
                 <["Various" := default 0 (m !! "Various") + various_count reportData data]> m)
              stats (JsDict.values (axeResults reportData))).

End Statistics.

Section Score.
Import Number.

(** [pass + fail + warn + totalAxeViolations] *)
Definition total (pass fail warn totalAxeViolations : N) : number :=
  add (add (add (of_N pass) (of_N fail)) (of_N warn)) (of_N totalAxeViolations).

(** [total === 0 ? 100 : Math.round((pass / total) * 100)] *)
Definition score (pass fail warn totalAxeViolations : N) : number :=
  let total := total pass fail warn totalAxeViolations in
  if is_zero total then of_Z 100
  else round (mul (div (of_N pass) total) (of_Z 100)).

(** [Math.max(0, Math.min(100, score))] *)
Definition scoreClamp (pass fail warn totalAxeViolations : N) : number :=
  max (of_Z 0) (min (of_Z 100) (score pass fail warn totalAxeViolations)).

(** The score [generateReport] shows for a report. *)
Definition report_score (reportData : RunReport) : number :=
  scoreClamp (Runner.pass (summary reportData)) (Runner.fail (summary reportData))
             (Runner.warn (summary reportData)) (totalAxeViolations reportData).

End Score.

End Report.

(** ** Vocabulary of the statements *)

Module Vocabulary.
Import Js Checks Checklists AxeScan Remediation Runner Report.

(** A key that names no built-in: a plain object holds under it what the
    program wrote there, or nothing. *)
Definition plain_key (key : string) : Prop := key ∉ Js.prototype_names.

(** An audit record none of whose tags names a built-in, and audit results
    made of such records. *)
Definition plain_record (v : AxeRecord) : Prop :=
  Forall plain_key (default [] (ar_tags v)).

#[global] Instance plain_key_dec key : Decision (plain_key key).
Proof. unfold plain_key. apply _. Defined.

#[global] Instance plain_record_dec v : Decision (plain_record v).
Proof. unfold plain_record. apply _. Defined.

Definition plain_results (results : AxeResults) : Prop :=
  Forall plain_record (default [] (violations results))
  /\ Forall plain_record (default [] (incomplete results))
  /\ Forall plain_record (default [] (passes results)).

#[global] Instance plain_results_dec results : Decision (plain_results results).
Proof. unfold plain_results. apply _. Defined.

(** The set of chapters the tag table lists for the tags, added to [acc]
    in the order of the tags. *)
Definition collect (acc : list string) (tags : list string) : list string :=
  foldl (fun chapters tag =>
           match AXE_TAG_TO_CHAPTER !! tag with
           | Some ch => JsSet.add_all ch chapters
           | None => chapters
           end) acc tags.

(** The chapters of a record by the tag table alone, with the default
    chapter: what the classifier returns for a plain record. *)
Definition chapters_of (v : AxeRecord) : list string :=
  let chapters := collect [] (default [] (ar_tags v)) in
  if decide (length chapters = 0) then JsSet.add "semantics" chapters else chapters.

(** The classifier sends record [v] to chapter [ch]. *)
Definition sent_to (ch : string) (v : AxeRecord) : Prop :=
  match categorizeAxeViolation v with
  | Some chapters => ch ∈ chapters
  | None => False
  end.

#[global] Instance sent_to_dec ch v : Decision (sent_to ch v).
Proof. unfold sent_to. destruct (categorizeAxeViolation v); apply _. Defined.

(** The records of a list that the classifier sends to chapter [ch]. *)
Definition routed_to (ch : string) (records : option (list AxeRecord)) : list AxeRecord :=
  filter (sent_to ch) (default [] records).

(** [bucket.<kind>.push(...vs)] *)
Definition bucket_extend (k : Kind) (vs : list AxeRecord) (b : ChapterBucket) : ChapterBucket :=
  match k with
  | Violations => {| b_violations := b_violations b ++ vs; b_incomplete := b_incomplete b; b_passes := b_passes b |}
  | Incomplete => {| b_violations := b_violations b; b_incomplete := b_incomplete b ++ vs; b_passes := b_passes b |}
  | Passes => {| b_violations := b_violations b; b_incomplete := b_incomplete b; b_passes := b_passes b ++ vs |}
  end.

(** The ranks of the priority score, as the specification gives them. *)
Definition impactRank (impact : string) : option Z :=
  if decide (impact = "high") then Some 0%Z
  else if decide (impact = "medium") then Some 1%Z
  else if decide (impact = "low") then Some 2%Z
  else None.

Definition effortRank (effort : string) : option Z :=
  if decide (effort = "simple") then Some 0%Z
  else if decide (effort = "moderate") then Some 1%Z
  else if decide (effort = "complex") then Some 2%Z
  else None.

Definition impacts : list string := ["high"; "medium"; "low"].
Definition efforts : list string := ["simple"; "moderate"; "complex"].

(** The audit-rule entry of a rule id: an own key of [AXE_REMEDIATION]
    whose value is defined. *)
Definition axe_entry (axeRuleId : option string) : option RemediationEntry :=
  mjoin (AXE_REMEDIATION !! Js.property_key axeRuleId).

(** The number of phases of the client presentation an item is listed
    under. *)
Definition phase_count (i : FixOrderItem) : nat :=
  (if Deliverables.quickWins_pred i then 1 else 0)
  + (if Deliverables.mediumEffort_pred i then 1 else 0)
  + (if Deliverables.longTerm_pred i then 1 else 0).

(** The fix-order item of a check result, joined with the entry the
    catalogue gives for its id. *)
Definition fix_item (checkId rule status url : string) : option FixOrderItem :=
  match getRemediation (Some checkId) None with
  | Js.Data rem =>
      Some {| fi_rule := rule; fi_status := status;
              fi_impact := impact rem; fi_effort := effort rem;
              fi_url := url; fi_wcag := wcag rem; fi_snippet := snippet rem |}
  | Js.Builtin _ => None
  end.

(** The list of disability categories of a check result, where it is one. *)
Definition categories (r : CheckResult) : list string :=
  match listed_for r with
  | Js.Data ds => ds
  | Js.Builtin _ => []
  end.

(** The static checklist items of the report. *)
Definition checklist_items : list ChecklistItem :=
  MANUAL_VERIFICATION_ITEMS ++ ASSISTIVE_TECH_ITEMS.

(** How many check results count for category [d]. *)
Definition results_listing (d : string) (results : list CheckResult) : N :=
  N.of_nat (length (filter (fun r => d ∈ categories r) results)).

(** How many checklist items list category [d]. *)
Definition items_listing (d : string) : N :=
  N.of_nat (length (filter (fun item => d ∈ default [] (disabilities item)) checklist_items)).

(** The sum, over the URLs with audit results, of
    [violationCount * max(1, urlCount)]. *)
Definition audit_share (reportData : RunReport) : N :=
  foldr (fun data acc => various_count reportData data + acc)%N 0%N
        (JsDict.values (axeResults reportData)).

(** The closed set of statuses. *)
Definition statuses : list string := ["pass"; "fail"; "warn"; "info"].

(** What holds of every result a chapter module returns. *)
Definition chapter_result (chapterId : string) (r : CheckResult) : Prop :=
  cr_id r <> "page-load"
  /\ cr_chapter r = Some chapterId
  /\ cr_url r = None
  /\ cr_status r ∈ statuses.

(** What holds of every result [runCustomChecks] returns for [url]. *)
Definition custom_result (url : string) (r : CheckResult) : Prop :=
  cr_id r <> "page-load"
  /\ (exists ch, ch ∈ chapter_keys /\ cr_chapter r = Some ch)
  /\ cr_url r = Some url
  /\ cr_status r ∈ statuses.

(** A property of the results a settled call resolved to. *)
Definition settled_all (P : CheckResult -> Prop) (s : Settled (list CheckResult)) : Prop :=
  match s with
  | Resolved results => Forall P results
  | Rejected _ => True
  end.

(** What the chapter table demands of an entry. *)
Definition chapter_entry (e : string * (Page -> Settled (list CheckResult))) : Prop :=
  e.1 ∈ chapter_keys
  /\ e.1 +:+ "-error" <> "page-load"
  /\ forall page, settled_all (chapter_result e.1) (e.2 page).

(** The error with which the [try] block of the loop body rejects, if it
    does: the page could not be loaded ([page.goto]), audited, or its audit
    classified. *)
Definition load_error (v : Visit) : option string :=
  match v_goto v with
  | Rejected message => Some message
  | Resolved _ =>
      match v_analyze v with
      | Rejected message => Some message
      | Resolved results =>
          match runAxeScan results (v_url v) with
          | Rejected message => Some message
          | Resolved _ => None
          end
      end
  end.

Definition loaded (v : Visit) : Prop := load_error v = None.
Definition failed (v : Visit) : Prop := is_Some (load_error v).

(** The audit results of a visit that loaded. *)
Definition audit_of (v : Visit) : AxeResults :=
  match v_analyze v with
  | Resolved results => results
  | Rejected _ => {| violations := None; incomplete := None; passes := None |}
  end.

(** The audit data of a visit that loaded. *)
Definition scan_of (v : Visit) : AxeData :=
  {| ad_url := v_url v;
     ad_violations := violations (audit_of v);
     ad_incomplete := incomplete (audit_of v);
     ad_passes := passes (audit_of v);
     ad_byChapter := default ∅ (build_byChapter (audit_of v)) |}.

(** The check results one visit adds to the report. *)
Definition visit_results (v : Visit) : list CheckResult :=
  match load_error v with
  | Some message => [page_load_error message (v_url v)]
  | None => runCustomChecks (v_page v) (v_url v)
  end.

(** The synthetic results of the visits that failed, in the order of the
    visits. *)
Definition load_failures (visits : list Visit) : list CheckResult :=
  omap (fun v => (fun message => page_load_error message (v_url v)) <$> load_error v) visits.

Definition is_page_load (r : CheckResult) : Prop := cr_id r = "page-load".

(** How many results have status [st], and how many have a status other
    than "pass" and "fail". *)
Definition count_status (st : string) (results : list CheckResult) : N :=
  N.of_nat (length (filter (fun r => cr_status r = st) results)).

Definition count_other (results : list CheckResult) : N :=
  N.of_nat (length (filter (fun r => cr_status r <> "pass" /\ cr_status r <> "fail") results)).

(** The score as the specification words it: 100 without checks, else
    [round(100 * pass / total)] clamped into [0, 100].  [round] is taken as
    [Math.round] rounds, halves upwards; rounding halves to even is given
    for comparison. *)
Definition round_half_up (num den : Z) : Z := ((2 * num + den) / (2 * den))%Z.

Definition round_half_even (num den : Z) : Z :=
  let q := (num / den)%Z in
  let r := (num mod den)%Z in
  match (2 * r ?= den)%Z with
  | Lt => q
  | Gt => (q + 1)%Z
  | Eq => if Z.even q then q else (q + 1)%Z
  end.

(** A number that is zero, positive or [+Infinity]; [lo] bounds the
    exponent of a finite one from below. *)
Definition nonneg_from (lo : Z) (x : Number.number) : Prop :=
  match x with
  | S754_zero false => True
  | S754_infinity false => True
  | S754_finite false _ e => (lo <= e)%Z
  | _ => False
  end.

Definition nonneg (x : Number.number) : Prop := exists lo, nonneg_from lo x.

Definition clamp (lo hi x : Z) : Z := Z.max lo (Z.min hi x).

Definition computeScore_spec (pass fail warn auditViolationCount : N) : Z :=
  let total := Z.of_N (pass + fail + warn + auditViolationCount) in
  if (total =? 0)%Z then 100%Z
  else clamp 0 100 (round_half_up (100 * Z.of_N pass) total).

(** [100 * pass / total] lies exactly halfway between two integers. *)
Definition exact_tie (pass total : N) : bool :=
  ((200 * Z.of_N pass) mod (2 * Z.of_N total) =? Z.of_N total)%Z.

(** The score agrees with the specification, or is one below it on an exact
    tie. *)
Definition score_agrees (pass fail : N) : bool :=
  match Number.to_Z (scoreClamp pass fail 0 0) with
  | Some s =>
      (s =? computeScore_spec pass fail 0 0)%Z
      || (exact_tie pass (pass + fail) && (s =? computeScore_spec pass fail 0 0 - 1)%Z)
  | None => false
  end.

(** The pairs [(pass, fail)] with [pass + fail <= bound]. *)
Definition small_counts (bound : nat) : list (N * N) :=
  total ← seq 0 (S bound); pass ← seq 0 (S total);
  [(N.of_nat pass, N.of_nat (total - pass))].

End Vocabulary.

(** ** Sample inputs *)

Module Samples.
Import Js Checks Checklists AxeScan Remediation Runner Report.





(** A video without captions, rated as the catalogue rates the check
    "video-captions": high impact, complex effort. *)
Definition captions_item : FixOrderItem :=
  {| fi_rule := "Prerecorded video MUST include synchronized captions";
     fi_status := "fail";
     fi_impact := "high"; fi_effort := "complex";
     fi_url := "https://example.org/";
     fi_wcag := ["1.2.2"];
     fi_snippet := "<track kind=" +:+ dq +:+ "captions" +:+ dq +:+ " src=" +:+ dq
                   +:+ "captions.vtt" +:+ dq +:+ " srclang=" +:+ dq +:+ "en" +:+ dq +:+ ">" |}.

(** A page on which every probe resolves and finds nothing to report. *)
Definition clean_page : Page :=
  {| pg_title := Resolved (Text.lit "Home");
     pg_htmlLang := Resolved (Some (Text.lit "en"));
     pg_landmarkCount := Resolved 4%N;
     pg_mainCount := Resolved 1%N;
     pg_headingStructure := Resolved {| hs_total := 3; hs_skips := 0; hs_h1Count := 1 |};
     pg_linkChecks := Resolved {| lc_total := 5; lc_emptyText := 0; lc_genericText := 0 |};
     pg_skipLink := Resolved true;
     pg_tableChecks := Resolved {| tc_total := 0; tc_noTh := 0 |};
     pg_listChecks := Resolved {| li_total := 6; li_orphanLi := 0 |};
     pg_iframeChecks := Resolved {| ic_total := 0; ic_noTitle := 0 |};
     pg_duplicateIds := Resolved [];
     pg_imageChecks := Resolved {| im_total := 2; im_missingAlt := 0; im_longAlt := 0 |};
     pg_svgChecks := Resolved {| sv_total := 0; sv_noRole := 0; sv_noAccessibleName := 0 |};
     pg_canvasChecks := Resolved {| cv_total := 0; cv_noRole := 0; cv_noAlt := 0 |};
     pg_mapChecks := Resolved {| mc_total := 0; mc_areaNoAlt := 0 |};
     pg_linkStyleChecks := Resolved {| ls_total := 5; ls_colorOnlyCount := 0 |};
     pg_focusStyleChecks := Resolved {| fs_total := 7; fs_noVisibleOutline := 0 |};
     pg_setViewportSize := Resolved ();
     pg_overflowChecks :=
       Resolved {| oc_docWidth := 320; oc_viewWidth := 320; oc_hasHorizontalScroll := false |};
     pg_viewportMeta :=
       Resolved {| vm_present := true;
                   vm_content := Some "width=device-width, initial-scale=1";
                   vm_allowsZoom := true |};
     pg_videoChecks := Resolved {| vc_total := 0; vc_noCaptions := 0; vc_autoplay := 0 |};
     pg_audioChecks := Resolved {| ac_total := 0; ac_autoplay := 0 |};
     pg_flashChecks := Resolved 0%N;
     pg_focusChecks := Resolved {| fc_links := 5; fc_buttons := 2; fc_tabindexPositive := 0 |};
     pg_touchChecks := Resolved {| to_total := 7; to_tooSmall := 0 |};
     pg_formChecks := Resolved {| fo_total := 0; fo_missingLabel := 0; fo_placeholderOnly := 0 |};
     pg_refreshMeta := Resolved false;
     pg_liveRegions := Resolved 0%N |}.

Definition no_findings : AxeResults :=
  {| violations := Some []; incomplete := Some []; passes := Some [] |}.

(** A URL that loads, and one whose navigation fails. *)
Definition clean_visit (url : string) : Visit :=
  {| v_url := url; v_goto := Resolved (); v_analyze := Resolved no_findings;
     v_page := clean_page |}.

Definition failing_visit (url : string) : Visit :=
  {| v_url := url; v_goto := Rejected "net::ERR_NAME_NOT_RESOLVED";
     v_analyze := Resolved no_findings; v_page := clean_page |}.

(** Three submitted URLs, the second of which fails to load. *)
Definition three_visits : list Visit :=
  [ clean_visit "https://example.org/";
    failing_visit "https://unreachable.example/";
    clean_visit "https://example.org/contact" ].

(** A page without a title, otherwise as [clean_page]. *)
Definition untitled_page : Page :=
  {| pg_title := Resolved [];
     pg_htmlLang := pg_htmlLang clean_page;
     pg_landmarkCount := pg_landmarkCount clean_page;
     pg_mainCount := pg_mainCount clean_page;
     pg_headingStructure := pg_headingStructure clean_page;
     pg_linkChecks := pg_linkChecks clean_page;
     pg_skipLink := pg_skipLink clean_page;
     pg_tableChecks := pg_tableChecks clean_page;
     pg_listChecks := pg_listChecks clean_page;
     pg_iframeChecks := pg_iframeChecks clean_page;
     pg_duplicateIds := pg_duplicateIds clean_page;
     pg_imageChecks := pg_imageChecks clean_page;
     pg_svgChecks := pg_svgChecks clean_page;
     pg_canvasChecks := pg_canvasChecks clean_page;
     pg_mapChecks := pg_mapChecks clean_page;
     pg_linkStyleChecks := pg_linkStyleChecks clean_page;
     pg_focusStyleChecks := pg_focusStyleChecks clean_page;
     pg_setViewportSize := pg_setViewportSize clean_page;
     pg_overflowChecks := pg_overflowChecks clean_page;
     pg_viewportMeta := pg_viewportMeta clean_page;
     pg_videoChecks := pg_videoChecks clean_page;
     pg_audioChecks := pg_audioChecks clean_page;
     pg_flashChecks := pg_flashChecks clean_page;
     pg_focusChecks := pg_focusChecks clean_page;
     pg_touchChecks := pg_touchChecks clean_page;
     pg_formChecks := pg_formChecks clean_page;
     pg_refreshMeta := pg_refreshMeta clean_page;
     pg_liveRegions := pg_liveRegions clean_page |}.

(** Twelve rules of the audit library violated on one page. *)
Definition twelve_violations : list AxeRecord :=
  map (fun rule =>
         {| ar_id := rule; ar_help := rule; ar_description := rule;
            ar_tags := Some ["wcag2a"]; ar_nodes := 1 |})
      [ "color-contrast"; "image-alt"; "label"; "link-name"; "button-name";
        "html-has-lang"; "document-title"; "region"; "landmark-one-main";
        "heading-order"; "list"; "frame-title" ].

(** Two URLs: a clean page, and an untitled page with twelve audit
    violations.  Together 23 passes in 40 checks and violations. *)
Definition tie_visits : list Visit :=
  [ clean_visit "https://example.org/";
    {| v_url := "https://example.org/contact";
       v_goto := Resolved ();
       v_analyze := Resolved {| violations := Some twelve_violations;
                                incomplete := Some []; passes := Some [] |};
       v_page := untitled_page |} ].

(** An image without alternative text, rated as the catalogue rates the
    check "img-alt": a quick win. *)
Definition img_alt_item : FixOrderItem :=
  {| fi_rule := "Informative images MUST have programmatically-discernible alternative text";
     fi_status := "fail";
     fi_impact := "high"; fi_effort := "simple";
     fi_url := "https://example.org/";
     fi_wcag := ["1.1.1"];
     fi_snippet := "<img src=" +:+ dq +:+ "photo.jpg" +:+ dq +:+ " alt=" +:+ dq
                   +:+ "Description of the image" +:+ dq +:+ ">" |}.




End Samples.


(** ** The HTML escape of the report and of the deliverables *)

Module Html.
Import Stdlib.Strings.Ascii.

(** The double-quote character. *)
Definition dq_char : Ascii.ascii :=
  Ascii.Ascii false true false false false true false false.

(** [s.replace(/c/g, by)] for a character [c] *)
Fixpoint replace_all (c : Ascii.ascii) (by_ : string) (s : string) : string :=
  match s with
  | EmptyString => EmptyString
  | String a s' =>
      if decide (a = c) then by_ +:+ replace_all c by_ s'
      else String a (replace_all c by_ s')
  end.

(** [escapeHtml(s)]: an argument that is [undefined] or empty gives the
    empty string. *)
Definition escapeHtml (s : option string) : string :=
  match s with
  | None => EmptyString
  | Some EmptyString => EmptyString
  | Some s =>
      replace_all dq_char "&quot;"
        (replace_all ">"%char "&gt;"
           (replace_all "<"%char "&lt;"
              (replace_all "&"%char "&amp;" s)))
  end.

End Html.

(** ** remediation-data.js: the links to the success criteria *)

Module Wcag.

Definition W3C_BASE : string := "https://www.w3.org/WAI/WCAG21/Understanding/".

Definition SC_TO_SLUG_entries : list (string * string) :=
  [ ("1.1.1", "non-text-content");
    ("1.2.2", "captions-prerecorded");
    ("1.3.1", "info-and-relationships");
    ("1.3.2", "meaningful-sequence");
    ("1.4.1", "use-of-color");
    ("1.4.2", "audio-control");
    ("1.4.3", "contrast-minimum");
    ("1.4.4", "resize-text");
    ("1.4.10", "reflow");
    ("1.4.11", "non-text-contrast");
    ("1.4.12", "text-spacing");
    ("2.1.1", "keyboard");
    ("2.1.2", "no-keyboard-trap");
    ("2.2.2", "pause-stop-hide");
    ("2.4.1", "bypass-blocks");
    ("2.4.2", "page-titled");
    ("2.4.3", "focus-order");
    ("2.4.4", "link-purpose-in-context");
    ("2.4.6", "headings-and-labels");
    ("2.4.7", "focus-visible");
    ("2.5.5", "target-size");
    ("3.1.1", "language-of-page");
    ("3.2.2", "on-input");
    ("3.3.1", "error-identification");
    ("3.3.2", "labels-or-instructions");
    ("4.1.1", "parsing");
    ("4.1.2", "name-role-value");
    ("4.1.3", "status-messages") ].

Definition SC_TO_SLUG : gmap string string := list_to_map SC_TO_SLUG_entries.

Definition quickref : string := "https://www.w3.org/WAI/WCAG21/quickref/".

(** [wcagScUrl(sc)]: for the name of a built-in that [SC_TO_SLUG] inherits
    the slug is the built-in, whose text goes into the link. *)
Definition wcagScUrl (sc : string) : string :=
  match Js.index SC_TO_SLUG sc with
  | Some (Js.Data slug) =>
      if bool_decide (slug = EmptyString) then quickref
      else W3C_BASE +:+ slug +:+ ".html"
  | Some (Js.Builtin name) => W3C_BASE +:+ Js.builtin_text name +:+ ".html"
  | None => quickref
  end.

End Wcag.

(** ** The deliverables module: the accessibility statement *)

Module Statement.
Import Remediation.

(** [[...new Set(fixOrderItems.map((i) => i.rule))]] *)
Definition uniqueRules (fixOrderItems : list FixOrderItem) : list string :=
  JsSet.add_all (map fi_rule fixOrderItems) [].

End Statement.

(** ** server.js: the URLs of a request *)

Module Server.
Import Text.
Local Open Scope N_scope.
Local Open Scope list_scope.

(** A character of the class of the URL pattern: any character but white
    space, the double and the single quote, [<], [>], the comma and [|]. *)
Definition url_char (c : N) : bool :=
  negb (is_space c || (c =? 34) || (c =? 39) || (c =? 60) || (c =? 62)
        || (c =? 44) || (c =? 124)).

(** [scheme] followed by one or more URL characters, at the start of [t]:
    the match, which takes as many URL characters as there are. *)
Definition after_scheme (scheme : text) (t : text) : option text :=
  if startsWith scheme t then
    match take_while url_char (drop (length scheme) t) with
    | [] => None
    | rest => Some (scheme ++ rest)
    end
  else None.

(** The URL pattern ([http], an optional [s], [://] and one or more URL
    characters) at the start of [t]: with the [s] first. *)
Definition url_at (t : text) : option text :=
  match after_scheme (lit "https://") t with
  | Some u => Some u
  | None => after_scheme (lit "http://") t
  end.

(** [text.match(urlRegex) || []]: the matches from left to right; after a
    match the search goes on where the match ended.  [skip] is the number
    of characters still inside the last match. *)
Fixpoint url_matches (skip : nat) (t : text) : list text :=
  match t with
  | [] => []
  | _ :: t' =>
      match skip with
      | S k => url_matches k t'
      | O =>
          match url_at t with
          | Some u => u :: url_matches (length u - 1) t'
          | None => url_matches 0 t'
          end
      end
  end.

(** [[.,;:!?)]] *)
Definition trailing_punct (c : N) : bool :=
  (c =? 46) || (c =? 44) || (c =? 59) || (c =? 58) || (c =? 33) || (c =? 63)
  || (c =? 41).

(** [u.replace(/[.,;:!?)]+$/, '')] *)
Definition strip_trailing (u : text) : text :=
  reverse (drop_while trailing_punct (reverse u)).

(** [extractUrlsFromText(text)]: [None] is an argument that is not a
    string. *)
Definition extractUrlsFromText (text : option Text.text) : list Text.text :=
  match text with
  | None => []
  | Some [] => []
  | Some t => distinct (map strip_trailing (url_matches 0 t))
  end.

(** [text.split(/\r?\n/)]: a carriage return right before a line feed
    belongs to the separator.  [cur] is the piece being read. *)
Fixpoint split_lines (cur : text) (t : text) : list text :=
  match t with
  | [] => [cur]
  | c :: t' =>
      if c =? 10 then cur :: split_lines [] t'
      else if (c =? 13) && bool_decide (head t' = Some 10) then split_lines cur t'
      else split_lines (cur ++ [c]) t'
  end.

(** [line.split(/[,\t]/)] *)
Fixpoint split_fields (cur : text) (t : text) : list text :=
  match t with
  | [] => [cur]
  | c :: t' =>
      if (c =? 44) || (c =? 9) then cur :: split_fields [] t'
      else split_fields (cur ++ [c]) t'
  end.

Definition is_quote (c : N) : bool := (c =? 34) || (c =? 39).

(** The [replace] of [parseCsv]: a double or single quote at the start is
    removed, then one at the end of what is left. *)
Definition strip_quotes (p : text) : text :=
  let p :=
    match p with
    | c :: p' => if is_quote c then p' else p
    | [] => []
    end in
  match reverse p with
  | c :: r => if is_quote c then reverse r else p
  | [] => []
  end.

(** [parseCsv(buffer)], on the text the buffer decodes to. *)
Definition parseCsv (buffer : text) : list text :=
  let lines := filter (fun l => trim l <> []) (split_lines [] buffer) in
  let urls :=
    foldl (fun urls line =>
             let parts := map (fun p => strip_quotes (trim p)) (split_fields [] line) in
             foldl (fun urls p => if startsWith (lit "http") p then urls ++ [p] else urls)
                   urls parts)
          [] lines in
  distinct urls.

(** [t] starts with the lower-case pattern [p], letters compared without
    case (the flag [i]). *)
Definition starts_ci (p t : text) : bool :=
  bool_decide (map lower (take (length p) t) = p).

(** [<name>([^<]+)<\/name>] at the start of [t]: the group, which takes
    every character up to the next [<]. *)
Definition element_at (name : string) (t : text) : option (text * nat) :=
  let open := lit ("<" +:+ name +:+ ">") in
  let close := lit ("</" +:+ name +:+ ">") in
  if starts_ci open t then
    let rest := drop (length open) t in
    match take_while (fun c => negb (c =? 60)) rest with
    | [] => None
    | body =>
        if starts_ci close (drop (length body) rest)
        then Some (body, (length open + length body + length close)%nat)
        else None
    end
  else None.

(** [text.matchAll(/<name>([^<]+)<\/name>/gi)], the first group of each
    match, trimmed. *)
Fixpoint elements (name : string) (skip : nat) (t : text) : list text :=
  match t with
  | [] => []
  | _ :: t' =>
      match skip with
      | S k => elements name k t'
      | O =>
          match element_at name t with
          | Some (body, n) => trim body :: elements name (n - 1) t'
          | None => elements name 0 t'
          end
      end
  end.

(** [parseXml(buffer)] *)
Definition parseXml (buffer : text) : list text :=
  distinct (elements "loc" 0 buffer ++ elements "url" 0 buffer).

(** The uploaded file of a request. *)
Record Upload := {
  originalname : option text;
  buffer : text;
}.

(** [name.toLowerCase().endsWith(ext)] for the extensions [.csv] and
    [.xml], whose characters are lower-case forms of ASCII characters
    only. *)
Definition has_extension (ext : text) (name : text) : bool :=
  endsWith ext (map lower name).

(** The URL list of [POST /api/run], from the text area and the upload. *)
Definition request_urls (urlText : option text) (file : option Upload) : list text :=
  let urls := [] in
  let urlText := default [] urlText in
  let urls :=
    if bool_decide (trim urlText = []) then urls
    else extractUrlsFromText (Some urlText) in
  let urls :=
    match file with
    | Some f =>
        let name := default [] (originalname f) in
        if has_extension (lit ".csv") name then urls ++ parseCsv (buffer f)
        else if has_extension (lit ".xml") name then urls ++ parseXml (buffer f)
        else urls ++ extractUrlsFromText (Some (buffer f))
    | None => urls
    end in
  filter (fun u => startsWith (lit "http") u = true) (distinct urls).

(** What the handler of [POST /api/run] does with a request: it answers
    400, or spawns the runner and answers with the number of URLs.  [args]
    are the arguments of the runner after the path of the script, [id] is
    the identifier drawn for the run. *)
Inductive RunRequest :=
  | BadRequest (error : string)
  | Spawned (args : list text) (count : nat).

Definition post_run (urlText : option text) (file : option Upload) (id : text) : RunRequest :=
  let urls := request_urls urlText file in
  if bool_decide (length urls = 0%nat) then
    BadRequest "No valid URLs provided. Add URLs in the text area or upload a CSV/XML file."
  else
    let urlsArg := join line_feed urls in
    Spawned [lit "--report"; lit "--urls=" ++ urlsArg; lit "--output-id=" ++ id]
            (length urls).

(** [isValidReportId(id)] *)
Definition id_char (c : N) : bool :=
  ((97 <=? c) && (c <=? 122)) || ((65 <=? c) && (c <=? 90))
  || ((48 <=? c) && (c <=? 57)) || (c =? 45).

Definition isValidReportId (id : text) : bool :=
  (negb (bool_decide (id = [])) && forallb id_char id)
  && bool_decide (length id <= 32)%nat.

End Server.

(** ** run-tests.js: the arguments of the runner *)

Module Args.
Import Text Checks.
Local Open Scope N_scope.
Local Open Scope list_scope.

(** [[\n,\s]] *)
Definition separator (c : N) : bool := (c =? 10) || (c =? 44) || is_space c.

(** [value.split(/[\n,\s]+/)]: a separator is a longest run of separator
    characters.  [cur] is the piece being read, [inside] tells that the
    last character belonged to a separator. *)
Fixpoint split_runs (cur : text) (inside : bool) (t : text) : list text :=
  match t with
  | [] => [cur]
  | c :: t' =>
      if separator c then
        if inside then split_runs cur true t' else cur :: split_runs [] true t'
      else split_runs (cur ++ [c]) false t'
  end.

(** [parseUrlsFromArgs()], on [process.argv]. *)
Definition parseUrlsFromArgs (argv : list text) : option (list text) :=
  match List.find (startsWith (lit "--urls=")) argv with
  | Some urlsArg =>
      let value := trim (drop (length (lit "--urls=")) urlsArg) in
      Some (filter (fun u => u <> [] /\ startsWith (lit "http") u = true)
                   (map trim (split_runs [] false value)))
  | None => None
  end.

(** [process.argv.indexOf(a)] and what follows it *)
Fixpoint after_arg (a : text) (argv : list text) : option (option text) :=
  match argv with
  | [] => None
  | x :: argv' => if decide (x = a) then Some (head argv') else after_arg a argv'
  end.

(** [parseOutputId()] *)
Definition parseOutputId (argv : list text) : option text :=
  match List.find (startsWith (lit "--output-id=")) argv with
  | Some arg => Some (trim (drop (length (lit "--output-id=")) arg))
  | None =>
      match after_arg (lit "--output-id") argv with
      | Some (Some (c :: next)) => Some (c :: next)
      | _ => None
      end
  end.

(** [getUrls()]: [config] is what importing urls.config.js gives, its
    export [urls] if the import succeeds. *)
Definition getUrls (argv : list text) (config : Settled (option (list text))) : list text :=
  match parseUrlsFromArgs argv with
  | Some (u :: fromArgs) => u :: fromArgs
  | _ =>
      match config with
      | Resolved urls => default [] urls
      | Rejected _ => []
      end
  end.

End Args.

(** ** generate-report.js: what the sections of the report show *)

Module View.
Import Checks AxeScan Runner Report.

(** [customByChapter[chapterId]?.filter((r) => r.url === url) || []], for a
    key [chapterId] of [CHECKLIST_CHAPTERS] *)
Definition custom (reportData : RunReport) (chapterId url : string) : list CheckResult :=
  filter (fun r => cr_url r = Some url) (customByChapter reportData chapterId).

(** [axeData?.byChapter?.[chapterId]?.violations || []] *)
Definition axeViolations (reportData : RunReport) (chapterId url : string) : list AxeRecord :=
  match JsDict.get url (axeResults reportData) with
  | Some axeData =>
      match ad_byChapter axeData !! chapterId with
      | Some bucket => b_violations bucket
      | None => []
      end
  | None => []
  end.

(** The alert above the chapters. *)
Inductive Alert :=
  | LoadErrorAlert (errors : list CheckResult)
  | NoPagesAlert
  | NoAlert.

Definition alert (reportData : RunReport) : Alert :=
  if bool_decide (0 < length (loadErrors reportData))%nat
  then LoadErrorAlert (loadErrors reportData)
  else if bool_decide (length (urls reportData) = 0%nat) then NoPagesAlert
  else NoAlert.

End View.

(** ** Vocabulary of the statements about texts, catalogues and views *)

Module Terms.
Import Js Checks Checklists AxeScan Remediation Runner Report Vocabulary.
Import Text Html Wcag Statement Server Args View.
Import Stdlib.Strings.Ascii.

(** The characters of a string. *)
Definition chars (s : string) : list Ascii.ascii := String.list_ascii_of_string s.

(** The escape of one character. *)
Definition escape_char (a : Ascii.ascii) : string :=
  if decide (a = "&"%char) then "&amp;"
  else if decide (a = "<"%char) then "&lt;"
  else if decide (a = ">"%char) then "&gt;"
  else if decide (a = dq_char) then "&quot;"
  else String a EmptyString.

(** A string escaped character by character, in one pass. *)
Fixpoint escape_each (s : string) : string :=
  match s with
  | EmptyString => EmptyString
  | String a s' => escape_char a +:+ escape_each s'
  end.

(** A character that would open or close markup or an attribute value. *)
Definition markup_char (a : Ascii.ascii) : Prop :=
  a = "<"%char \/ a = ">"%char \/ a = dq_char.

(** The ids of the check results each chapter module can return, in the
    order in which the module pushes them. *)
Definition check_ids : list (string * list string) :=
  [ ("semantics",
     ["page-title-exists"; "html-lang"; "landmarks-present"; "single-main";
      "heading-structure"; "link-text"; "link-meaningful"; "skip-link";
      "table-headers"; "list-markup"; "iframe-titles"; "unique-ids"]);
    ("images",
     ["img-alt"; "img-alt-length"; "svg-role"; "svg-accessible-name";
      "canvas-alt"; "image-map-alt"]);
    ("visualDesign", ["link-differentiation"; "focus-indicator"]);
    ("responsive", ["no-horizontal-scroll"; "viewport-zoom"]);
    ("multimedia",
     ["video-captions"; "video-autoplay"; "audio-autoplay"; "flash-alternative"]);
    ("inputMethods", ["tabindex-positive"; "touch-target-size"]);
    ("forms", ["form-labels"; "placeholder-not-only-label"]);
    ("dynamicUpdates", ["no-auto-refresh"; "dynamic-announcements"]) ].

(** The ids of a chapter, by its key. *)
Definition ids_of (chapterId : string) : list string :=
  default [] (JsDict.get chapterId check_ids).

(** The id of the result that stands for a chapter module that threw. *)
Definition error_id (chapterId : string) : string := chapterId +:+ "-error".

Definition chapter_error_ids : list string := map error_id chapter_keys.

Definition is_chapter_error (r : CheckResult) : Prop := cr_id r ∈ chapter_error_ids.

(** Every id [runCustomChecks] can give a result, chapter by chapter. *)
Definition custom_ids : list string :=
  concat (map (fun e : string * list string => e.2 ++ [error_id e.1])%list check_ids).

(** The ids of [results] are among [ids], in that order, each at most
    once. *)
Definition ids_in_order (ids : list string) (results : list CheckResult) : Prop :=
  sublist (map cr_id results) ids.

(** A property of the list a settled call resolved to. *)
Definition resolves_to (Q : list CheckResult -> Prop) (s : Settled (list CheckResult)) : Prop :=
  match s with
  | Resolved results => Q results
  | Rejected _ => True
  end.

(** What a chapter module contributes to [runCustomChecks]. *)
Definition chapter_outcome (chapterId url : string) (s : Settled (list CheckResult))
    : list CheckResult :=
  match s with
  | Resolved results => map (with_url url) results
  | Rejected message => [chapter_error chapterId message url]
  end.

(** An entry of one of the two catalogues of remediation-data.js, or the
    generic entry. *)
Definition catalogue_entry (e : RemediationEntry) : Prop :=
  (exists id, REMEDIATION_MAP !! id = Some e)
  \/ (exists id, AXE_REMEDIATION !! id = Some (Some e))
  \/ e = generic_entry.

(** A text that reads http:// or https:// and goes on with [rest]. *)
Definition has_scheme (u rest : text) : Prop :=
  u = (lit "http://" ++ rest)%list \/ u = (lit "https://" ++ rest)%list.

(** A URL as the pattern of [extractUrlsFromText] reads it in full: a
    scheme, then one or more URL characters, the last of which is not one
    of the punctuation marks that are cut off. *)
Definition plain_url (u : text) : Prop :=
  (exists rest, rest <> [] /\ has_scheme u rest)
  /\ Forall (fun c => url_char c = true) u
  /\ (forall c, last u = Some c -> trailing_punct c = false).

(** A text the runner can take from its [--urls=] argument unchanged: it
    starts with http and holds no white space and no comma. *)
Definition argument_url (u : text) : Prop :=
  startsWith (lit "http") u = true /\ Forall (fun c => separator c = false) u.

(** An argument that is neither of the two options of the runner that
    carry a value. *)
Definition plain_argument (a : text) : Prop :=
  startsWith (lit "--urls=") a = false
  /\ startsWith (lit "--output-id=") a = false.

(** [process.argv] of the runner the server spawned: the path of node, the
    path of the script, and the arguments of the spawn. *)
Definition argv_of (execPath script : text) (args : list text) : list text :=
  execPath :: script :: args.

(** An argument the spawned process receives as it was given: it holds no
    NUL, which an argument cannot carry, and no surrogate code unit, which
    the encoding of the argument may replace. *)
Definition passed_unchanged (a : text) : Prop :=
  Forall (fun c => c <> 0 /\ ~ (55296 <= c <= 57343))%N a.

(** An upload the handler reads as plain text: none, or a file whose name
    ends neither in .csv nor in .xml. *)
Definition read_as_text (file : option Upload) : Prop :=
  match file with
  | None => True
  | Some f =>
      has_extension (lit ".csv") (default [] (originalname f)) = false
      /\ has_extension (lit ".xml") (default [] (originalname f)) = false
  end.

(** A digit of a hexadecimal number in lower case, as in the identifier the
    server draws for a run. *)
Definition hex_digit (c : N) : bool :=
  (((48 <=? c) && (c <=? 57)) || ((97 <=? c) && (c <=? 102)))%N.

(** A character that would take a path out of its folder. *)
Definition path_char (c : N) : bool :=
  ((c =? 47) || (c =? 92) || (c =? 46) || (c =? 0))%N.

End Terms.
(** * Properties *)


Lemma REMEDIATION_MAP_unfold :
  Remediation.REMEDIATION_MAP = list_to_map Remediation.REMEDIATION_MAP_entries.
Proof. reflexivity. Qed.

Lemma AXE_REMEDIATION_unfold :
  Remediation.AXE_REMEDIATION = list_to_map Remediation.AXE_REMEDIATION_entries.
Proof. reflexivity. Qed.

Lemma DISABILITY_MAP_unfold :
  Report.DISABILITY_MAP = list_to_map Report.DISABILITY_MAP_entries.
Proof. reflexivity. Qed.

Lemma IMPACT_ORDER_unfold :
  Remediation.IMPACT_ORDER = list_to_map [("high", 0%Z); ("medium", 1%Z); ("low", 2%Z)].
Proof. reflexivity. Qed.

Lemma EFFORT_ORDER_unfold :
  Remediation.EFFORT_ORDER = list_to_map [("simple", 0%Z); ("moderate", 1%Z); ("complex", 2%Z)].
Proof. reflexivity. Qed.

(** From here on the tables are looked up by evaluation only. *)
#[global] Opaque Checklists.AXE_TAG_TO_CHAPTER Remediation.REMEDIATION_MAP
  Remediation.AXE_REMEDIATION Remediation.IMPACT_ORDER Remediation.EFFORT_ORDER
  Report.DISABILITY_MAP.

(** ** The chapter classifier and the chapter buckets *)

Section AxeScanFacts.
Import Checklists AxeScan Vocabulary.

(** The taxonomy has these 8 chapter keys. *)
Lemma the_eight_chapters :
  chapter_keys = [ "semantics"; "images"; "visualDesign"; "responsive";
                   "multimedia"; "inputMethods"; "forms"; "dynamicUpdates" ].
Proof. reflexivity. Qed.

Lemma jsset_add_NoDup c s : NoDup s -> NoDup (JsSet.add c s).
Proof.
  intros Hs. unfold JsSet.add. case_decide; [done|].
  apply NoDup_app. split_and!; [done| |apply NoDup_singleton].
  intros x Hx Hin. apply list_elem_of_singleton in Hin. by subst.
Qed.

Lemma jsset_add_all_NoDup xs s : NoDup s -> NoDup (JsSet.add_all xs s).
Proof.
  unfold JsSet.add_all. revert s.
  induction xs as [|x xs IH]; intros s Hs; simpl; [done|].
  apply IH. by apply jsset_add_NoDup.
Qed.

Lemma jsset_add_elem c x s : x ∈ JsSet.add c s <-> x = c \/ x ∈ s.
Proof.
  unfold JsSet.add. case_decide.
  - split; [auto|]. intros [->|?]; done.
  - rewrite elem_of_app, list_elem_of_singleton. tauto.
Qed.

Lemma jsset_add_all_elem xs x s : x ∈ JsSet.add_all xs s <-> x ∈ xs \/ x ∈ s.
Proof.
  unfold JsSet.add_all. revert s.
  induction xs as [|y xs IH]; intros s; simpl.
  - rewrite elem_of_nil. tauto.
  - rewrite IH, jsset_add_elem, elem_of_cons. tauto.
Qed.

Lemma collect_NoDup tags acc : NoDup acc -> NoDup (collect acc tags).
Proof.
  unfold collect. revert acc.
  induction tags as [|t tags IH]; intros acc Hacc; simpl; [done|].
  apply IH. destruct (AXE_TAG_TO_CHAPTER !! t); [|done].
  by apply jsset_add_all_NoDup.
Qed.


Lemma collect_elem tags acc c :
  c ∈ collect acc tags <->
  c ∈ acc \/ exists tag chs, tag ∈ tags /\ AXE_TAG_TO_CHAPTER !! tag = Some chs /\ c ∈ chs.
Proof.
  unfold collect. revert acc.
  induction tags as [|t tags IH]; intros acc; simpl.
  - split; [auto|]. intros [?|(tag & chs & Htag & _)]; [done|].
    by apply elem_of_nil in Htag.
  - rewrite IH. destruct (AXE_TAG_TO_CHAPTER !! t) as [chs|] eqn:Ht.
    + rewrite jsset_add_all_elem. split.
      * intros [[Hc|Hc]|(tag & chs' & Htag & Hl & Hc)]; [|by left|].
        -- right. exists t, chs. split_and!; [apply list_elem_of_here|done..].
        -- right. exists tag, chs'. split_and!; [by apply list_elem_of_further|done..].
      * intros [Hc|(tag & chs' & Htag & Hl & Hc)]; [by left; right|].
        apply elem_of_cons in Htag as [->|Htag].
        -- left. left. congruence.
        -- right. exists tag, chs'. by split_and!.
    + split.
      * intros [Hc|(tag & chs' & Htag & Hl & Hc)]; [by left|].
        right. exists tag, chs'. split_and!; [by apply list_elem_of_further|done..].
      * intros [Hc|(tag & chs' & Htag & Hl & Hc)]; [by left|].
        apply elem_of_cons in Htag as [->|Htag]; [congruence|].
        right. exists tag, chs'. by split_and!.
Qed.


Lemma index_plain {A} (obj : gmap string A) key :
  plain_key key -> Js.index obj key = Js.Data <$> obj !! key.
Proof.
  unfold Js.index, plain_key. intros Hkey.
  destruct (obj !! key); [done|]. by rewrite decide_False.
Qed.

Lemma index_builtin {A} (obj : gmap string A) key :
  obj !! key = None -> ~ plain_key key -> Js.index obj key = Some (Js.Builtin key).
Proof.
  unfold Js.index, plain_key. intros -> Hkey.
  rewrite decide_True; [done|]. by destruct (decide (key ∈ Js.prototype_names)).
Qed.

(** Loops whose body may throw. *)
Lemma for_each_total {S A} (f : S -> A -> option S) (g : S -> A -> S) xs s :
  (forall s x, x ∈ xs -> f s x = Some (g s x)) ->
  Js.for_each f s xs = Some (foldl g s xs).
Proof.
  revert s. induction xs as [|x xs IH]; intros s Hf; cbn [Js.for_each foldl]; [done|].
  rewrite Hf by apply list_elem_of_here.
  apply IH. intros s' y Hy. apply Hf. by apply list_elem_of_further.
Qed.

Lemma for_each_throws {S A} (f : S -> A -> option S) xs s x :
  x ∈ xs -> (forall s, f s x = None) -> Js.for_each f s xs = None.
Proof.
  intros Hx Hf. revert s. induction xs as [|y xs IH]; intros s; cbn [Js.for_each].
  - by apply elem_of_nil in Hx.
  - apply elem_of_cons in Hx as [->|Hx].
    + by rewrite Hf.
    + destruct (f s y); [by apply IH|done].
Qed.

(** No key of the tag table names a built-in. *)
Lemma tag_table_keys_plain tag chs :
  AXE_TAG_TO_CHAPTER !! tag = Some chs -> plain_key tag.
Proof.
  intros Hl Hin.
  assert (Forall (fun name => AXE_TAG_TO_CHAPTER !! name = None) Js.prototype_names) as Hall.
  { apply (bool_decide_unpack _). by vm_compute. }
  rewrite Forall_forall in Hall. rewrite (Hall _ Hin) in Hl. discriminate.
Qed.

(** The classifier returns for a plain record, by the tag table alone, and
    throws for any other. *)
Lemma categorize_plain v :
  plain_record v -> categorizeAxeViolation v = Some (chapters_of v).
Proof.
  intros Hplain. unfold categorizeAxeViolation, chapters_of, collect. cbv zeta.
  unfold plain_record in Hplain. rewrite Forall_forall in Hplain.
  rewrite (for_each_total _
             (fun chapters tag =>
                match AXE_TAG_TO_CHAPTER !! tag with
                | Some ch => JsSet.add_all ch chapters
                | None => chapters
                end)); [done|].
  intros chapters tag Htag. rewrite index_plain by by apply Hplain.
  by destruct (AXE_TAG_TO_CHAPTER !! tag).
Qed.

Lemma categorize_builtin v :
  ~ plain_record v -> categorizeAxeViolation v = None.
Proof.
  intros Hplain. unfold categorizeAxeViolation. cbv zeta.
  unfold plain_record in Hplain. apply not_Forall_Exists in Hplain; [|apply _].
  apply Exists_exists in Hplain as (tag & Htag & Hkey).
  rewrite (for_each_throws _ _ _ tag Htag); [done|].
  intros chapters. rewrite index_builtin; [done| |done].
  destruct (AXE_TAG_TO_CHAPTER !! tag) as [chs|] eqn:Hl; [|done].
  exfalso. apply Hkey. by eapply tag_table_keys_plain.
Qed.

Lemma categorize_Some v chapters :
  categorizeAxeViolation v = Some chapters -> plain_record v /\ chapters = chapters_of v.
Proof.
  intros Hc. destruct (decide (plain_record v)) as [Hplain|Hplain].
  - rewrite (categorize_plain _ Hplain) in Hc. split; congruence.
  - rewrite (categorize_builtin _ Hplain) in Hc. discriminate.
Qed.

Lemma chapters_of_NoDup v : NoDup (chapters_of v).
Proof.
  unfold chapters_of. cbv zeta.
  pose proof (collect_NoDup (default [] (ar_tags v)) [] (NoDup_nil_2)) as Hnd.
  case_decide; [by apply jsset_add_NoDup|done].
Qed.







End AxeScanFacts.

Section BucketFacts.
Import Checks Checklists AxeScan Vocabulary.

Lemma bucket_extend_nil k b : bucket_extend k [] b = b.
Proof. destruct k, b; simpl; by rewrite app_nil_r. Qed.

Lemma bucket_extend_push k v vs b :
  bucket_push k v (bucket_extend k vs b) = bucket_extend k (vs ++ [v]) b.
Proof. destruct k, b; simpl; by rewrite app_assoc. Qed.

Lemma push_into_lookup k v (m : gmap string ChapterBucket) ch c :
  push_into k v m ch !! c =
  if decide (c = ch) then bucket_push k v <$> m !! c else m !! c.
Proof.
  unfold push_into. case_decide as Hc.
  - subst c. destruct (m !! ch) as [b|] eqn:Hm.
    + by rewrite lookup_insert_eq.
    + by rewrite Hm.
  - destruct (m !! ch) as [b|] eqn:Hm; [|done].
    by rewrite lookup_insert_ne.
Qed.

Lemma foldl_push_into_lookup k v cs (m : gmap string ChapterBucket) c :
  NoDup cs ->
  foldl (push_into k v) m cs !! c =
  if decide (c ∈ cs) then bucket_push k v <$> m !! c else m !! c.
Proof.
  revert m. induction cs as [|ch cs IH]; intros m Hnd; cbn [foldl].
  - by rewrite decide_False by apply not_elem_of_nil.
  - apply NoDup_cons in Hnd as [Hch Hnd].
    rewrite IH by done. rewrite push_into_lookup.
    destruct (decide (c = ch)) as [->|Hne].
    + rewrite decide_False by done. rewrite decide_True by apply list_elem_of_here. done.
    + destruct (decide (c ∈ cs)) as [Hin|Hin].
      * rewrite decide_True by (by apply list_elem_of_further). done.
      * rewrite decide_False; [done|]. intros [?|?]%elem_of_cons; done.
Qed.

Lemma bucket_extend_cons k v vs b :
  bucket_extend k vs (bucket_push k v b) = bucket_extend k (v :: vs) b.
Proof. destruct k, b; simpl; by rewrite <- app_assoc. Qed.

Lemma categorize_NoDup v chapters :
  categorizeAxeViolation v = Some chapters -> NoDup chapters.
Proof. intros [_ ->]%categorize_Some. apply chapters_of_NoDup. Qed.

(** What a loop over the records that ran to its end has put into the
    buckets. *)
Lemma distribute_Some k records (m m' : gmap string ChapterBucket) c :
  distribute k records m = Some m' ->
  m' !! c = bucket_extend k (routed_to c records) <$> m !! c.
Proof.
  unfold distribute, routed_to. generalize (default [] records) as vs. clear records.
  intros vs. revert m. induction vs as [|v vs IH]; intros m Hd; cbn [Js.for_each] in Hd.
  - injection Hd as <-. rewrite filter_nil.
    destruct (m !! c) as [b|]; simpl; [|done]. by rewrite bucket_extend_nil.
  - destruct (categorizeAxeViolation v) as [chs|] eqn:Hc; cbn in Hd; [|done].
    rewrite (IH _ Hd). rewrite foldl_push_into_lookup by by eapply categorize_NoDup.
    rewrite filter_cons.
    destruct (decide (c ∈ chs)) as [Hin|Hin];
      destruct (decide (sent_to c v)) as [Hs|Hs];
      unfold sent_to in Hs; rewrite Hc in Hs; try done.
    destruct (m !! c) as [b|]; simpl; [|done]. by rewrite bucket_extend_cons.
Qed.

(** The loop runs to its end when the records are plain. *)
Lemma distribute_plain k records (m : gmap string ChapterBucket) :
  Forall plain_record (default [] records) -> is_Some (distribute k records m).
Proof.
  intros Hplain. unfold distribute. rewrite Forall_forall in Hplain.
  rewrite (for_each_total _ (fun m v => foldl (push_into k v) m (chapters_of v)));
    [by eexists|].
  intros m0 v Hv. by rewrite (categorize_plain _ (Hplain _ Hv)).
Qed.

Lemma init_byChapter_lookup c :
  init_byChapter !! c = if decide (c ∈ chapter_keys) then Some empty_bucket else None.
Proof.
  unfold init_byChapter.
  assert (forall keys (m : gmap string ChapterBucket),
    foldl (fun m ch => <[ch := empty_bucket]> m) m keys !! c =
    if decide (c ∈ keys) then Some empty_bucket else m !! c) as Hgen.
  { induction keys as [|k keys IH]; intros m; cbn [foldl].
    - by rewrite decide_False by apply not_elem_of_nil.
    - rewrite IH. destruct (decide (c ∈ keys)) as [Hin|Hin].
      + rewrite decide_True by (by apply list_elem_of_further). done.
      + destruct (decide (c = k)) as [->|Hne].
        * rewrite decide_True by apply list_elem_of_here. by rewrite lookup_insert_eq.
        * rewrite decide_False by (intros [?|?]%elem_of_cons; done).
          by rewrite lookup_insert_ne. }
  rewrite Hgen. by case_decide.
Qed.

Lemma build_byChapter_lookup results (byChapter : gmap string ChapterBucket) ch :
  build_byChapter results = Some byChapter ->
  byChapter !! ch =
  if decide (ch ∈ chapter_keys)
  then Some {| b_violations := routed_to ch (violations results);
               b_incomplete := routed_to ch (incomplete results);
               b_passes := routed_to ch (passes results) |}
  else None.
Proof.
  unfold build_byChapter. intros Hb.
  destruct (distribute Violations _ _) as [m1|] eqn:H1; cbn in Hb; [|done].
  destruct (distribute Incomplete _ _) as [m2|] eqn:H2; cbn in Hb; [|done].
  rewrite (distribute_Some _ _ _ _ ch Hb), (distribute_Some _ _ _ _ ch H2),
    (distribute_Some _ _ _ _ ch H1), init_byChapter_lookup.
  case_decide; done.
Qed.


Lemma distribute_builtin k records (m : gmap string ChapterBucket) :
  ~ Forall plain_record (default [] records) -> distribute k records m = None.
Proof.
  intros Hplain. apply not_Forall_Exists in Hplain; [|apply _].
  apply Exists_exists in Hplain as (v & Hv & Hkey).
  unfold distribute. apply (for_each_throws _ _ _ v Hv).
  intros m0. by rewrite (categorize_builtin _ Hkey).
Qed.

(** The scan rejects exactly when a record of the audit is not plain. *)
Lemma runAxeScan_rejects results url :
  ~ plain_results results -> runAxeScan results url = Rejected not_a_function.
Proof.
  intros Hplain. unfold runAxeScan, build_byChapter.
  destruct (decide (Forall plain_record (default [] (violations results)))) as [Hv|Hv];
    [|by rewrite (distribute_builtin _ _ _ Hv)].
  destruct (distribute_plain Violations (violations results) init_byChapter Hv) as [m1 ->].
  cbn [mbind option_bind].
  destruct (decide (Forall plain_record (default [] (incomplete results)))) as [Hi|Hi];
    [|by rewrite (distribute_builtin _ _ _ Hi)].
  destruct (distribute_plain Incomplete (incomplete results) m1 Hi) as [m2 ->].
  cbn [mbind option_bind].
  destruct (decide (Forall plain_record (default [] (passes results)))) as [Hp|Hp];
    [|by rewrite (distribute_builtin _ _ _ Hp)].
  exfalso. apply Hplain. by split_and!.
Qed.

Lemma runAxeScan_Resolved results url data :
  runAxeScan results url = Resolved data <->
  exists byChapter,
    build_byChapter results = Some byChapter
    /\ data = {| ad_url := url;
                 ad_violations := violations results;
                 ad_incomplete := incomplete results;
                 ad_passes := passes results;
                 ad_byChapter := byChapter |}.
Proof.
  unfold runAxeScan. destruct (build_byChapter results) as [byChapter|]; split.
  - intros [= <-]. by exists byChapter.
  - intros (m & [= <-] & ->). done.
  - done.
  - intros (m & Hm & _). done.
Qed.



End BucketFacts.

(** ** The rule catalogue and the priority score *)

Section RemediationFacts.
Import Remediation Vocabulary.
Local Open Scope Z_scope.

(** No value of [AXE_REMEDIATION] is a dangling reference: every rule id
    listed there has an entry. *)
Lemma axe_remediation_defined k v :
  AXE_REMEDIATION !! k = Some v -> is_Some v.
Proof.
  intros Hl. rewrite AXE_REMEDIATION_unfold in Hl.
  apply elem_of_list_to_map_2 in Hl.
  assert (Forall (fun e : string * option RemediationEntry => is_Some e.2)
                 AXE_REMEDIATION_entries) as Hall.
  { apply (bool_decide_unpack _). by vm_compute. }
  rewrite Forall_forall in Hall. by apply (Hall _ Hl).
Qed.

Lemma axe_entry_None axeRuleId :
  axe_entry axeRuleId = None <-> AXE_REMEDIATION !! Js.property_key axeRuleId = None.
Proof.
  unfold axe_entry. destruct (AXE_REMEDIATION !! _) as [v|] eqn:Hl; [|done].
  destruct (axe_remediation_defined _ _ Hl) as [e ->]. done.
Qed.



Lemma impact_order_lookup impact :
  IMPACT_ORDER !! impact = impactRank impact.
Proof.
  unfold impactRank. repeat case_decide; subst; try by vm_compute.
  rewrite IMPACT_ORDER_unfold. apply not_elem_of_list_to_map_1.
  cbn [fmap list_fmap fst]. rewrite !elem_of_cons, elem_of_nil. tauto.
Qed.

Lemma effort_order_lookup effort :
  EFFORT_ORDER !! effort = effortRank effort.
Proof.
  unfold effortRank. repeat case_decide; subst; try by vm_compute.
  rewrite EFFORT_ORDER_unfold. apply not_elem_of_list_to_map_1.
  cbn [fmap list_fmap fst]. rewrite !elem_of_cons, elem_of_nil. tauto.
Qed.

(** The score in terms of the ranks, for every item whose ratings name no
    built-in: a missing rank counts as 1. *)
Lemma fixOrderScore_ranks item :
  plain_key (fi_impact item) -> plain_key (fi_effort item) ->
  fixOrderScore item =
  Js.Int (default 1 (impactRank (fi_impact item)) * 10
          + default 1 (effortRank (fi_effort item)))%Z.
Proof.
  intros Hi He. unfold fixOrderScore. cbv zeta.
  rewrite (index_plain _ _ Hi), (index_plain _ _ He),
    impact_order_lookup, effort_order_lookup.
  by destruct (impactRank (fi_impact item)), (effortRank (fi_effort item)).
Qed.

(** The ratings of the grid name no built-in. *)
Lemma ratings_plain : Forall plain_key (impacts ++ efforts).
Proof. apply (bool_decide_unpack _). by vm_compute. Qed.

Lemma impactRank_defined impact : impact ∈ impacts -> is_Some (impactRank impact).
Proof.
  unfold impacts. rewrite !elem_of_cons, elem_of_nil.
  intros [->|[->|[->|[]]]]; by eexists.
Qed.

Lemma effortRank_defined effort : effort ∈ efforts -> is_Some (effortRank effort).
Proof.
  unfold efforts. rewrite !elem_of_cons, elem_of_nil.
  intros [->|[->|[->|[]]]]; by eexists.
Qed.

Lemma default_impactRank_range impact :
  (0 <= default 1%Z (impactRank impact) <= 2)%Z
  /\ (default 1%Z (impactRank impact) = 0%Z -> impact = "high").
Proof. unfold impactRank. repeat case_decide; cbn [default]; split; try lia; done. Qed.

Lemma default_effortRank_range effort :
  (0 <= default 1%Z (effortRank effort) <= 2)%Z
  /\ (default 1%Z (effortRank effort) = 0%Z -> effort = "simple").
Proof. unfold effortRank. repeat case_decide; cbn [default]; split; try lia; done. Qed.

(** With an impact that names a built-in the score is no number. *)
Lemma fixOrderScore_not_a_number item :
  ~ plain_key (fi_impact item) -> plain_key (fi_effort item) ->
  fixOrderScore item = Js.NaN.
Proof.
  intros Hi He. unfold fixOrderScore. cbv zeta.
  rewrite (index_plain _ _ He), effort_order_lookup.
  rewrite index_builtin; [by destruct (effortRank (fi_effort item))| |done].
  rewrite impact_order_lookup. unfold impactRank.
  repeat case_decide; try done; exfalso; apply Hi;
    match goal with H : fi_impact item = _ |- _ => rewrite H end;
    apply (bool_decide_unpack _); by vm_compute.
Qed.

(** The order of a quick win and any other item with plain ratings. *)
Lemma quick_win_first (item other : FixOrderItem) :
  fi_impact item = "high" -> fi_effort item = "simple" ->
  plain_key (fi_impact other) -> plain_key (fi_effort other) ->
  ~ (fi_impact other = "high" /\ fi_effort other = "simple") ->
  exists n m, fixOrderScore item = Js.Int n /\ fixOrderScore other = Js.Int m /\ (n < m)%Z.
Proof.
  intros Hhigh Hsimple Hpi Hpe Hother.
  eexists _, _. split; [|split].
  - apply fixOrderScore_ranks; rewrite ?Hhigh, ?Hsimple;
      apply (bool_decide_unpack _); by vm_compute.
  - by apply fixOrderScore_ranks.
  - rewrite Hhigh, Hsimple.
    change (default 1 (impactRank "high") * 10 + default 1 (effortRank "simple"))%Z
      with 0%Z.
    destruct (default_impactRank_range (fi_impact other)) as [Hr1 Hz1].
    destruct (default_effortRank_range (fi_effort other)) as [Hr2 Hz2].
    destruct (decide (default 1%Z (impactRank (fi_impact other)) = 0%Z)) as [Hi|Hi]; [|lia].
    destruct (decide (default 1%Z (effortRank (fi_effort other)) = 0%Z)) as [He|He]; [|lia].
    exfalso. apply Hother. split; [by apply Hz1|by apply Hz2].
Qed.

(** C10.  For every item whose impact is one of high, medium, low and whose
    effort is one of simple, moderate, complex, [fixOrderScore] is the
    number [impactRank * 10 + effortRank] with the ranks high 0, medium 1,
    low 2 and simple 0, moderate 1, complex 2.  Hence an item with impact
    high and effort simple scores strictly lower than any item with another
    combination of the grid, and than any item whose ratings name no
    built-in of [Object.prototype] at all (a rating outside the grid ranks
    1): sorted by lower score first, quick wins come first. *)
Theorem fixOrderScore_rank_formula (item : FixOrderItem) :
  fi_impact item ∈ impacts ->
  fi_effort item ∈ efforts ->
  (exists ir er,
      impactRank (fi_impact item) = Some ir
      /\ effortRank (fi_effort item) = Some er
      /\ fixOrderScore item = Js.Int (ir * 10 + er))
  /\ impactRank "high" = Some 0%Z /\ impactRank "medium" = Some 1%Z
  /\ impactRank "low" = Some 2%Z
  /\ effortRank "simple" = Some 0%Z /\ effortRank "moderate" = Some 1%Z
  /\ effortRank "complex" = Some 2%Z
  /\ (forall other : FixOrderItem,
        fi_impact item = "high" -> fi_effort item = "simple" ->
        fi_impact other ∈ impacts -> fi_effort other ∈ efforts ->
        ~ (fi_impact other = "high" /\ fi_effort other = "simple") ->
        exists n m,
          fixOrderScore item = Js.Int n /\ fixOrderScore other = Js.Int m /\ (n < m)%Z)
  /\ (forall other : FixOrderItem,
        fi_impact item = "high" -> fi_effort item = "simple" ->
        plain_key (fi_impact other) -> plain_key (fi_effort other) ->
        ~ (fi_impact other = "high" /\ fi_effort other = "simple") ->
        exists n m,
          fixOrderScore item = Js.Int n /\ fixOrderScore other = Js.Int m /\ (n < m)%Z).
Proof.
  intros Himp Heff.
  destruct (impactRank_defined _ Himp) as [ir Hir].
  destruct (effortRank_defined _ Heff) as [er Her].
  pose proof ratings_plain as Hplain. rewrite Forall_forall in Hplain.
  split_and!; try done.
  - exists ir, er. split_and!; [done..|].
    rewrite fixOrderScore_ranks, Hir, Her; [done| |];
      apply Hplain; apply elem_of_app; [by left|by right].
  - intros other Hhigh Hsimple Hoi Hoe Hother.
    apply quick_win_first; [done..| | |done];
      apply Hplain; apply elem_of_app; [by left|by right].
  - intros other. apply quick_win_first.
Qed.

End RemediationFacts.

(** ** The three phases of the client presentation *)

Section PhaseFacts.
Import Remediation Deliverables Vocabulary Samples.

(** The items of the samples have the ratings of their catalogue
    entries. *)
Lemma captions_item_ratings :
  fi_impact captions_item = "high" /\ fi_effort captions_item = "complex".
Proof. by vm_compute. Qed.

Lemma img_alt_item_catalogued :
  fix_item "img-alt"
           "Informative images MUST have programmatically-discernible alternative text"
           "fail" "https://example.org/" = Some img_alt_item.
Proof. by vm_compute. Qed.

(** Over the 3 x 3 grid every item is in some phase, and every item but one
    with impact high and effort complex is in exactly one. *)
Lemma phase_count_grid (i : FixOrderItem) :
  fi_impact i ∈ impacts ->
  fi_effort i ∈ efforts ->
  phase_count i =
  if decide (fi_impact i = "high" /\ fi_effort i = "complex") then 2 else 1.
Proof.
  unfold impacts, efforts, phase_count, quickWins_pred, mediumEffort_pred, longTerm_pred.
  rewrite !elem_of_cons, !elem_of_nil.
  intros [->|[->|[->|[]]]] [->|[->|[->|[]]]]; by vm_compute.
Qed.

Lemma phases_cover_grid (i : FixOrderItem) :
  fi_impact i ∈ impacts ->
  fi_effort i ∈ efforts ->
  quickWins_pred i || mediumEffort_pred i || longTerm_pred i = true.
Proof.
  unfold impacts, efforts, quickWins_pred, mediumEffort_pred, longTerm_pred.
  rewrite !elem_of_cons, !elem_of_nil.
  intros [->|[->|[->|[]]]] [->|[->|[->|[]]]]; by vm_compute.
Qed.

(** C1.  The three phase filters of [generateClientPresentation] do not
    partition the impact x effort grid: an item with impact high and effort
    complex (here a video without captions, rated by the catalogue) passes
    both the Phase 2 filter and the Phase 3 filter, so it is listed under
    both [mediumEffort] and [longTerm]. *)
Theorem phases_overlap_high_complex :
  fix_item "video-captions" "Prerecorded video MUST include synchronized captions"
           "fail" "https://example.org/" = Some captions_item
  /\ quickWins_pred captions_item = false
  /\ mediumEffort_pred captions_item = true
  /\ longTerm_pred captions_item = true
  /\ phase_count captions_item = 2
  /\ mediumEffort [captions_item] = [captions_item]
  /\ longTerm [captions_item] = [captions_item].
Proof. by vm_compute. Qed.

End PhaseFacts.

(** ** The disability statistics *)

Section DisabilityFacts.
Import Js Checks AxeScan Runner Report Vocabulary.
Local Open Scope N_scope.

Lemma bump_lookup (m : gmap string N) d c :
  bump m d !! c = if decide (c = d) then (fun n => n + 1) <$> m !! c else m !! c.
Proof.
  unfold bump. case_decide as Hc.
  - subst c. destruct (m !! d) as [n|] eqn:Hm.
    + by rewrite lookup_insert_eq.
    + by rewrite Hm.
  - destruct (m !! d) as [n|] eqn:Hm; [|done]. by rewrite lookup_insert_ne.
Qed.

Lemma foldl_bump_lookup ds (m : gmap string N) c :
  NoDup ds ->
  foldl bump m ds !! c = (fun n => n + (if decide (c ∈ ds) then 1 else 0)) <$> m !! c.
Proof.
  revert m. induction ds as [|d ds IH]; intros m Hnd; cbn [foldl].
  - rewrite decide_False by apply not_elem_of_nil.
    destruct (m !! c); simpl; [|done]. by rewrite N.add_0_r.
  - apply NoDup_cons in Hnd as [Hd Hnd]. rewrite IH by done.
    rewrite bump_lookup. destruct (decide (c = d)) as [->|Hne].
    + rewrite decide_False by done. rewrite decide_True by apply list_elem_of_here.
      destruct (m !! d); simpl; [|done]. by rewrite N.add_0_r.
    + destruct (decide (c ∈ ds)) as [Hin|Hin].
      * by rewrite decide_True by (by apply list_elem_of_further).
      * by rewrite decide_False by (intros [?|?]%elem_of_cons; done).
Qed.

(** A loop that bumps, for each element, the categories [f] lists for it. *)
Lemma foldl_bump_each {A} (f : A -> list string) (xs : list A) (m : gmap string N) c :
  (forall x, x ∈ xs -> NoDup (f x)) ->
  foldl (fun m x => foldl bump m (f x)) m xs !! c =
  (fun n => n + N.of_nat (length (filter (fun x => c ∈ f x) xs))) <$> m !! c.
Proof.
  intros Hnd. induction xs as [|x xs IH] using rev_ind.
  - simpl. destruct (m !! c); simpl; [|done]. by rewrite N.add_0_r.
  - rewrite foldl_app. cbn [foldl].
    rewrite foldl_bump_lookup by (apply Hnd; set_solver).
    rewrite IH by (intros y Hy; apply Hnd; set_solver).
    rewrite filter_app, filter_cons, filter_nil, length_app.
    destruct (m !! c) as [n|]; simpl; [|done]. f_equal.
    case_decide; simpl; lia.
Qed.

(** No key of [DISABILITY_MAP] names a built-in. *)
Lemma listed_for_plain r :
  plain_key (cr_id r) ->
  listed_for r = Js.Data (default ["Various"] (DISABILITY_MAP !! cr_id r)).
Proof.
  intros Hk. unfold listed_for. rewrite (index_plain _ _ Hk).
  by destruct (DISABILITY_MAP !! cr_id r).
Qed.

Lemma disability_lists_NoDup r : NoDup (categories r).
Proof.
  unfold categories, listed_for, Js.index.
  destruct (DISABILITY_MAP !! cr_id r) as [ds|] eqn:Hl; simpl.
  - rewrite DISABILITY_MAP_unfold in Hl. apply elem_of_list_to_map_2 in Hl.
    assert (Forall (fun e : string * list string => NoDup e.2) DISABILITY_MAP_entries)
      as Hall.
    { apply (bool_decide_unpack _). by vm_compute. }
    rewrite Forall_forall in Hall. by apply (Hall _ Hl).
  - case_decide; simpl; [apply NoDup_nil_2|apply NoDup_singleton].
Qed.

Lemma checklist_lists_NoDup item :
  item ∈ checklist_items -> NoDup (default [] (disabilities item)).
Proof.
  assert (Forall (fun item => NoDup (default [] (disabilities item))) checklist_items)
    as Hall.
  { apply (bool_decide_unpack _). by vm_compute. }
  rewrite Forall_forall in Hall. apply Hall.
Qed.

Lemma initial_stats_lookup c :
  foldl (fun (m : gmap string N) d => <[d := 0]> m) ∅ ALL_DISABILITIES !! c =
  if decide (c ∈ ALL_DISABILITIES) then Some 0 else None.
Proof.
  assert (forall ds (m : gmap string N),
    foldl (fun (m : gmap string N) d => <[d := 0]> m) m ds !! c =
    if decide (c ∈ ds) then Some 0 else m !! c) as Hgen.
  { induction ds as [|d ds IH]; intros m; cbn [foldl].
    - by rewrite decide_False by apply not_elem_of_nil.
    - rewrite IH. destruct (decide (c ∈ ds)) as [Hin|Hin].
      + by rewrite decide_True by (by apply list_elem_of_further).
      + destruct (decide (c = d)) as [->|Hne].
        * rewrite decide_True by apply list_elem_of_here. by rewrite lookup_insert_eq.
        * rewrite decide_False by (intros [?|?]%elem_of_cons; done).
          by rewrite lookup_insert_ne. }
  rewrite Hgen. by case_decide.
Qed.

Lemma various_loop_lookup (f : AxeData -> N) datas (m : gmap string N) c :
  is_Some (m !! "Various") ->
  foldl (fun (m : gmap string N) data =>
           <["Various" := default 0 (m !! "Various") + f data]> m) m datas !! c =
  if decide (c = "Various")
  then Some (default 0 (m !! "Various") + foldr (fun data acc => f data + acc) 0 datas)
  else m !! c.
Proof.
  revert m. induction datas as [|data datas IH]; intros m [n Hn]; cbn [foldl foldr].
  - case_decide as Hc; [|done]. subst c. rewrite Hn. simpl. by rewrite N.add_0_r.
  - rewrite IH by (rewrite lookup_insert_eq; by eexists).
    case_decide as Hc.
    + rewrite lookup_insert_eq, Hn. simpl. f_equal. lia.
    + by rewrite lookup_insert_ne.
Qed.

(** The statistics of a report whose ids name no built-in. *)
Lemma disabilityStats_lookup reportData d :
  Forall (fun r => plain_key (cr_id r)) (customResults reportData) ->
  exists stats,
    disabilityStats reportData = Some stats
    /\ stats !! d =
       if decide (d ∈ ALL_DISABILITIES)
       then Some (results_listing d (customResults reportData)
                  + items_listing d
                  + (if decide (d = "Various") then audit_share reportData else 0))
       else None.
Proof.
  intros Hplain. rewrite Forall_forall in Hplain.
  unfold disabilityStats. cbv zeta.
  rewrite (for_each_total _ (fun m r => foldl bump m (categories r))).
  2:{ intros m r Hr. unfold categories. rewrite (listed_for_plain _ (Hplain _ Hr)). done. }
  cbn [mbind option_bind]. eexists. split; [done|].
  change (MANUAL_VERIFICATION_ITEMS ++ ASSISTIVE_TECH_ITEMS)%list with checklist_items.
  rewrite various_loop_lookup.
  2:{ rewrite (foldl_bump_each (fun item => default [] (disabilities item)))
        by apply checklist_lists_NoDup.
      rewrite (foldl_bump_each categories) by (intros; apply disability_lists_NoDup).
      rewrite initial_stats_lookup.
      rewrite decide_True by (apply (bool_decide_unpack _); by vm_compute).
      by eexists. }
  rewrite !(foldl_bump_each (fun item => default [] (disabilities item)))
    by apply checklist_lists_NoDup.
  rewrite !(foldl_bump_each categories) by (intros; apply disability_lists_NoDup).
  rewrite !initial_stats_lookup.
  destruct (decide (d = "Various")) as [->|Hd].
  - rewrite !decide_True by (apply (bool_decide_unpack _); by vm_compute).
    cbn [fmap option_fmap option_map default].
    unfold results_listing, items_listing, audit_share. f_equal; lia.
  - case_decide; cbn [fmap option_fmap option_map]; [|done].
    unfold results_listing, items_listing. f_equal; lia.
Qed.



End DisabilityFacts.

(** ** The chapter modules *)

Section AdapterFacts.
Import Js Checks Checklists Runner Vocabulary.

Lemma await_all {A} P (m : Settled A) k :
  (forall x, settled_all P (k x)) -> settled_all P (await m k).
Proof. intros Hk. destruct m; [exact I|apply Hk]. Qed.

Lemma Forall_push (P : CheckResult -> Prop) results r :
  Forall P results -> P r -> Forall P (push results r).
Proof. intros Hrs Hr. apply Forall_app. split; [done|]. by apply Forall_singleton. Qed.

Lemma Forall_push_if (P : CheckResult -> Prop) c results r :
  Forall P results -> P r -> Forall P (push_if c results r).
Proof. intros Hrs Hr. destruct c; [by apply Forall_push|done]. Qed.

Lemma chapter_result_check id rule status message chapterId :
  id <> "page-load" -> status ∈ statuses ->
  chapter_result chapterId (check id rule status message chapterId).
Proof. intros Hid Hst. by split_and!. Qed.

Lemma status_in_statuses_if (c : bool) a b :
  a ∈ statuses -> b ∈ statuses -> (if c then a else b) ∈ statuses.
Proof. by destruct c. Qed.

End AdapterFacts.

Ltac status_known :=
  repeat (apply status_in_statuses_if);
  apply (bool_decide_unpack _); vm_compute; exact I.

Ltac results_all :=
  repeat first
    [ apply Forall_nil_2
    | apply Forall_push
    | apply Forall_push_if
    | match goal with |- Forall _ (if ?c then _ else _) => destruct c end
    | apply chapter_result_check; [discriminate|status_known] ].

Ltac chapter_module :=
  repeat first [ apply await_all; intros ? | progress cbv zeta ];
  cbn [Vocabulary.settled_all]; results_all.

Section ChapterModuleFacts.
Import Js Checks Checklists Runner Vocabulary.

Lemma runSemanticChecks_results page :
  settled_all (chapter_result "semantics") (Chapter1.runSemanticChecks page).
Proof. unfold Chapter1.runSemanticChecks, Chapter1.chapterId. chapter_module. Qed.

Lemma runImageChecks_results page :
  settled_all (chapter_result "images") (Chapter2.runImageChecks page).
Proof. unfold Chapter2.runImageChecks, Chapter2.chapterId. chapter_module. Qed.

Lemma runVisualChecks_results page :
  settled_all (chapter_result "visualDesign") (Chapter3.runVisualChecks page).
Proof. unfold Chapter3.runVisualChecks, Chapter3.chapterId. chapter_module. Qed.

Lemma runResponsiveChecks_results page :
  settled_all (chapter_result "responsive") (Chapter4.runResponsiveChecks page).
Proof. unfold Chapter4.runResponsiveChecks, Chapter4.chapterId. chapter_module. Qed.

Lemma runMultimediaChecks_results page :
  settled_all (chapter_result "multimedia") (Chapter5.runMultimediaChecks page).
Proof. unfold Chapter5.runMultimediaChecks, Chapter5.chapterId. chapter_module. Qed.

Lemma runInputMethodChecks_results page :
  settled_all (chapter_result "inputMethods") (Chapter6.runInputMethodChecks page).
Proof. unfold Chapter6.runInputMethodChecks, Chapter6.chapterId. chapter_module. Qed.

Lemma runFormChecks_results page :
  settled_all (chapter_result "forms") (Chapter7.runFormChecks page).
Proof. unfold Chapter7.runFormChecks, Chapter7.chapterId. chapter_module. Qed.

Lemma runDynamicChecks_results page :
  settled_all (chapter_result "dynamicUpdates") (Chapter8.runDynamicChecks page).
Proof. unfold Chapter8.runDynamicChecks, Chapter8.chapterId. chapter_module. Qed.

End ChapterModuleFacts.

(** ** The custom checks and the main loop *)

Section RunnerFacts.
Import Js Checks Checklists AxeScan Runner Vocabulary.
Local Open Scope N_scope.

Lemma chapters_entries : Forall chapter_entry chapters.
Proof.
  unfold chapters.
  repeat (apply Forall_cons; split;
          [split_and!; cbn [fst snd];
           [apply (bool_decide_unpack _); vm_compute; exact I
           |vm_compute; discriminate
           |first [ apply runSemanticChecks_results | apply runImageChecks_results
                  | apply runVisualChecks_results | apply runResponsiveChecks_results
                  | apply runMultimediaChecks_results | apply runInputMethodChecks_results
                  | apply runFormChecks_results | apply runDynamicChecks_results ]]|]).
  apply Forall_nil_2.
Qed.

Lemma with_url_custom_result ch url r :
  ch ∈ chapter_keys -> chapter_result ch r -> custom_result url (with_url url r).
Proof.
  intros Hch (Hid & Hchap & _ & Hst). unfold custom_result. cbn [with_url cr_id cr_chapter cr_url cr_status].
  split_and!; [done| |done|done]. by exists ch.
Qed.

Lemma chapter_error_custom_result ch message url :
  ch ∈ chapter_keys -> ch +:+ "-error" <> "page-load" ->
  custom_result url (chapter_error ch message url).
Proof.
  intros Hch Hid. unfold custom_result, chapter_error.
  cbn [cr_id cr_chapter cr_url cr_status].
  split_and!; [done| |done|]. { by exists ch. }
  apply (bool_decide_unpack _). by vm_compute.
Qed.

Lemma custom_checks_loop page url table acc :
  Forall chapter_entry table ->
  Forall (custom_result url) acc ->
  Forall (custom_result url)
    (foldl (fun (allResults : list CheckResult) '(chapterId, fn) =>
              match fn page with
              | Resolved results => (allResults ++ map (with_url url) results)%list
              | Rejected message => (allResults ++ [chapter_error chapterId message url])%list
              end) acc table).
Proof.
  intros Htable. revert acc.
  induction Htable as [|[ch fn] table (Hch & Herr & Hfn) _ IH]; intros acc Hacc;
    cbn [foldl]; [done|].
  apply IH. cbn [fst snd] in *. specialize (Hfn page).
  destruct (fn page) as [message|results]; cbn [settled_all] in Hfn.
  - apply Forall_app. split; [done|].
    apply Forall_singleton. by apply chapter_error_custom_result.
  - apply Forall_app. split; [done|].
    apply Forall_map. eapply Forall_impl; [exact Hfn|].
    intros r Hr. by eapply with_url_custom_result.
Qed.

(** Every result of [runCustomChecks], the synthetic chapter errors
    included, carries the URL and one of the 8 chapter keys, has a status
    of the closed set and an id other than "page-load". *)
Lemma runCustomChecks_results page url :
  Forall (custom_result url) (runCustomChecks page url).
Proof. apply custom_checks_loop; [apply chapters_entries|apply Forall_nil_2]. Qed.

(** A visit that loaded has the audit data of its scan. *)
Lemma loaded_scan v :
  loaded v -> runAxeScan (audit_of v) (v_url v) = Resolved (scan_of v).
Proof.
  unfold loaded, load_error, scan_of, audit_of.
  destruct (v_goto v) as [m|[]]; [done|].
  destruct (v_analyze v) as [m|results]; [done|].
  unfold runAxeScan. by destruct (build_byChapter results).
Qed.

(** A visit whose page loads and is audited fails all the same when a
    record of the audit is not plain: the classifier throws inside the
    [try] block. *)
Lemma load_error_classifier v results :
  v_goto v = Resolved () -> v_analyze v = Resolved results ->
  ~ plain_results results -> load_error v = Some not_a_function.
Proof.
  intros Hgoto Hanalyze Hplain. unfold load_error.
  by rewrite Hgoto, Hanalyze, (runAxeScan_rejects _ _ Hplain).
Qed.

(** The loop body, by the outcome of the visit. *)
Lemma test_url_loaded report v :
  loaded v ->
  test_url report v =
  {| urls := urls report ++ [v_url v];
     axeResults := JsDict.set (v_url v) (scan_of v) (axeResults report);
     customResults := customResults report ++ runCustomChecks (v_page v) (v_url v);
     summary := foldl tally (summary report) (runCustomChecks (v_page v) (v_url v)) |}.
Proof.
  intros Hok. pose proof (loaded_scan v Hok) as Hscan. revert Hok Hscan.
  unfold loaded, load_error, test_url, try_url, audit_of. cbv zeta.
  destruct (v_goto v) as [m|[]]; [done|].
  destruct (v_analyze v) as [m|results]; [done|].
  intros _ Hscan. cbn [await]. by rewrite Hscan.
Qed.

Lemma test_url_failed report v message :
  load_error v = Some message ->
  test_url report v =
  {| urls := urls report;
     axeResults := axeResults report;
     customResults := customResults report ++ [page_load_error message (v_url v)];
     summary := {| pass := pass (summary report);
                   fail := fail (summary report) + 1;
                   warn := warn (summary report) |} |}.
Proof.
  unfold load_error, test_url, try_url.
  destruct (v_goto v) as [m|[]]; cbn [await].
  - by intros [= ->].
  - destruct (v_analyze v) as [m|results]; cbn [await]; [by intros [= ->]|].
    destruct (runAxeScan results (v_url v)) as [m|data]; cbn [await]; [|done].
    by intros [= ->].
Qed.

(** The loop, from any report on. *)
Lemma loop_customResults visits report :
  customResults (foldl test_url report visits) =
  (customResults report ++ concat (map visit_results visits))%list.
Proof.
  revert report. induction visits as [|v visits IH]; intros report; cbn [foldl map concat].
  - by rewrite app_nil_r.
  - rewrite IH, app_assoc. f_equal. unfold visit_results.
    destruct (load_error v) as [message|] eqn:Herr.
    + by rewrite (test_url_failed _ _ _ Herr).
    + by rewrite (test_url_loaded _ _ Herr).
Qed.

Lemma loop_summary visits report :
  summary (foldl test_url report visits) =
  foldl tally (summary report) (concat (map visit_results visits)).
Proof.
  revert report. induction visits as [|v visits IH]; intros report; cbn [foldl map concat].
  - done.
  - rewrite IH, foldl_app. f_equal. unfold visit_results.
    destruct (load_error v) as [message|] eqn:Herr.
    + by rewrite (test_url_failed _ _ _ Herr).
    + by rewrite (test_url_loaded _ _ Herr).
Qed.

Lemma loop_urls visits report :
  urls (foldl test_url report visits) =
  (urls report ++ map v_url (filter loaded visits))%list.
Proof.
  revert report. induction visits as [|v visits IH]; intros report; cbn [foldl].
  - by rewrite app_nil_r.
  - rewrite IH. destruct (load_error v) as [message|] eqn:Herr.
    + rewrite (test_url_failed _ _ _ Herr).
      rewrite filter_cons_False; [done|]. unfold loaded. by rewrite Herr.
    + rewrite (test_url_loaded _ _ Herr). rewrite filter_cons_True by done.
      cbn [urls map]. by rewrite <- app_assoc.
Qed.

Lemma jsdict_get_set {V} k (x : V) m k' :
  JsDict.get k' (JsDict.set k x m) = if decide (k = k') then Some x else JsDict.get k' m.
Proof.
  induction m as [|[k0 x0] m IH]; cbn [JsDict.set JsDict.get].
  - repeat case_decide; done.
  - destruct (decide (k0 = k)) as [->|Hne]; cbn [JsDict.get]; repeat case_decide; congruence.
Qed.

Lemma loop_axeResults visits report u :
  is_Some (JsDict.get u (axeResults (foldl test_url report visits))) <->
  is_Some (JsDict.get u (axeResults report))
  \/ exists v, v ∈ visits /\ loaded v /\ v_url v = u.
Proof.
  revert report. induction visits as [|v visits IH]; intros report; cbn [foldl].
  - split; [auto|]. intros [?|(v & Hv & _)]; [done|]. by apply elem_of_nil in Hv.
  - rewrite IH. destruct (load_error v) as [message|] eqn:Herr.
    + rewrite (test_url_failed _ _ _ Herr). cbn [axeResults]. split.
      * intros [?|(v' & Hv' & Hok & Hu)]; [by left|].
        right. exists v'. split_and!; [by apply list_elem_of_further|done..].
      * intros [?|(v' & Hv' & Hok & Hu)]; [by left|].
        apply elem_of_cons in Hv' as [->|Hv'].
        -- unfold loaded in Hok. congruence.
        -- right. by exists v'.
    + rewrite (test_url_loaded _ _ Herr). cbn [axeResults].
      rewrite jsdict_get_set. split.
      * intros [Hs|(v' & Hv' & Hok & Hu)].
        -- case_decide as Hk; [|by left].
           right. exists v. split_and!; [apply list_elem_of_here|done..].
        -- right. exists v'. split_and!; [by apply list_elem_of_further|done..].
      * intros [Hs|(v' & Hv' & Hok & Hu)].
        -- left. case_decide; [by eexists|done].
        -- apply elem_of_cons in Hv' as [->|Hv'].
           ++ left. rewrite decide_True by done. by eexists.
           ++ right. by exists v'.
Qed.

End RunnerFacts.

(** ** The report of a run *)

Section RunFacts.
Import Js Checks Checklists AxeScan Runner Vocabulary Samples.
Local Open Scope N_scope.

Lemma elem_of_concat {A} (x : A) (ls : list (list A)) :
  x ∈ concat ls <-> exists l, x ∈ l /\ l ∈ ls.
Proof.
  induction ls as [|l ls IH]; cbn [concat].
  - split; [by intros ?%elem_of_nil|]. intros (l & _ & Hl). by apply elem_of_nil in Hl.
  - rewrite elem_of_app, IH. split.
    + intros [Hx|(l' & Hx & Hl')].
      * exists l. split; [done|apply list_elem_of_here].
      * exists l'. split; [done|by apply list_elem_of_further].
    + intros (l' & Hx & Hl'). apply elem_of_cons in Hl' as [->|Hl'].
      * by left.
      * right. by exists l'.
Qed.

Lemma run_customResults visits :
  customResults (run visits) = concat (map visit_results visits).
Proof. unfold run. by rewrite loop_customResults. Qed.

Lemma tally_counts results s :
  pass (foldl tally s results) = pass s + count_status "pass" results
  /\ fail (foldl tally s results) = fail s + count_status "fail" results
  /\ warn (foldl tally s results) = warn s + count_other results.
Proof.
  unfold count_status, count_other. revert s.
  induction results as [|r results IH]; intros s; cbn [foldl].
  - rewrite !filter_nil. cbn [length]. lia.
  - destruct (IH (tally s r)) as (-> & -> & ->). unfold tally.
    destruct (decide (cr_status r = "pass")) as [Hp|Hp].
    + rewrite bool_decide_eq_true_2 by done. cbn [pass fail warn].
      rewrite (filter_cons_True (fun r => cr_status r = "pass")) by done.
      rewrite (filter_cons_False (fun r => cr_status r = "fail")) by congruence.
      rewrite (filter_cons_False (fun r => cr_status r <> "pass" /\ _)) by tauto.
      cbn [length]. lia.
    + rewrite bool_decide_eq_false_2 by done.
      destruct (decide (cr_status r = "fail")) as [Hf|Hf].
      * rewrite bool_decide_eq_true_2 by done. cbn [pass fail warn].
        rewrite (filter_cons_False (fun r => cr_status r = "pass")) by done.
        rewrite (filter_cons_True (fun r => cr_status r = "fail")) by done.
        rewrite (filter_cons_False (fun r => cr_status r <> "pass" /\ _)) by tauto.
        cbn [length]. lia.
      * rewrite bool_decide_eq_false_2 by done. cbn [pass fail warn].
        rewrite (filter_cons_False (fun r => cr_status r = "pass")) by done.
        rewrite (filter_cons_False (fun r => cr_status r = "fail")) by done.
        rewrite (filter_cons_True (fun r => cr_status r <> "pass" /\ _)) by tauto.
        cbn [length]. lia.
Qed.

(** What the summary of a run counts: the results with status "pass", those
    with status "fail" (the page-load failures among them), and under
    [warn] every result whose status is neither, "info" included.  Audit
    violations are in none of the three. *)
Lemma summary_counts visits :
  pass (summary (run visits)) = count_status "pass" (customResults (run visits))
  /\ fail (summary (run visits)) = count_status "fail" (customResults (run visits))
  /\ warn (summary (run visits)) = count_other (customResults (run visits)).
Proof.
  rewrite run_customResults. unfold run. rewrite loop_summary.
  destruct (tally_counts (concat (map visit_results visits)) (summary initial_report))
    as (-> & -> & ->).
  cbn [summary initial_report pass fail warn]. lia.
Qed.

(** C3.  After a run, [summary.warn] is not the number of results whose
    status is "warn": on a page where every check passes, the two results
    with status "info" that the chapter modules always report
    (focus-indicator and dynamic-announcements) are counted as warnings.
    [summary.pass] and [summary.fail] are the numbers of "pass" and "fail"
    results. *)
Theorem summary_warn_counts_info :
  let report := run [clean_visit "https://example.org/"] in
  warn (summary report) = 2
  /\ count_status "warn" (customResults report) = 0
  /\ count_status "info" (customResults report) = 2
  /\ pass (summary report) = count_status "pass" (customResults report)
  /\ fail (summary report) = count_status "fail" (customResults report).
Proof. by vm_compute. Qed.

Lemma visit_results_page_load v :
  filter is_page_load (visit_results v) =
  match load_error v with
  | Some message => [page_load_error message (v_url v)]
  | None => []
  end.
Proof.
  unfold visit_results. destruct (load_error v) as [message|].
  - by rewrite filter_cons_True, filter_nil by done.
  - pose proof (runCustomChecks_results (v_page v) (v_url v)) as Hall.
    induction Hall as [|r rs (Hid & _) _ IH]; [done|].
    by rewrite filter_cons_False.
Qed.

Lemma page_load_results visits :
  filter is_page_load (concat (map visit_results visits)) = load_failures visits.
Proof.
  unfold load_failures.
  induction visits as [|v visits IH]; cbn [map concat omap list_omap]; [done|].
  rewrite filter_app, visit_results_page_load, IH.
  by destruct (load_error v).
Qed.

Lemma load_failures_length visits :
  length (load_failures visits) = length (filter failed visits).
Proof.
  unfold load_failures.
  induction visits as [|v visits IH]; cbn [omap list_omap]; [done|].
  destruct (load_error v) as [message|] eqn:Herr; cbn [fmap option_fmap option_map].
  - rewrite filter_cons_True by (unfold failed; rewrite Herr; by eexists).
    cbn [length]. by rewrite IH.
  - rewrite filter_cons_False; [done|]. unfold failed. rewrite Herr. by intros [? ?].
Qed.

Lemma loaded_failed_length visits :
  length visits = (length (filter loaded visits) + length (filter failed visits))%nat.
Proof.
  induction visits as [|v visits IH]; [done|].
  destruct (load_error v) as [message|] eqn:Herr.
  - rewrite (filter_cons_False loaded) by (unfold loaded; by rewrite Herr).
    rewrite (filter_cons_True failed) by (unfold failed; rewrite Herr; by eexists).
    cbn [length]. lia.
  - rewrite (filter_cons_True loaded) by done.
    rewrite (filter_cons_False failed) by (unfold failed; rewrite Herr; by intros [? ?]).
    cbn [length]. lia.
Qed.

Lemma load_failures_elem v message visits :
  v ∈ visits -> load_error v = Some message ->
  page_load_error message (v_url v) ∈ load_failures visits.
Proof.
  intros Hv Herr. unfold load_failures. apply list_elem_of_omap.
  exists v. split; [done|]. by rewrite Herr.
Qed.

Lemma load_failures_other_urls u visits :
  (forall v, v ∈ visits -> v_url v <> u) ->
  filter (fun r => cr_url r = Some u) (load_failures visits) = [].
Proof.
  unfold load_failures.
  induction visits as [|v visits IH]; intros Hne; cbn [omap list_omap]; [done|].
  assert (v_url v <> u) as Hv by (apply Hne, list_elem_of_here).
  assert (forall v', v' ∈ visits -> v_url v' <> u) as Hrest
    by (intros v' Hv'; by apply Hne, list_elem_of_further).
  destruct (load_error v) as [message|]; cbn [fmap option_fmap option_map].
  - rewrite filter_cons_False by (cbn [cr_url page_load_error]; congruence). by apply IH.
  - by apply IH.
Qed.

Lemma load_failures_of_url v message visits :
  NoDup (map v_url visits) ->
  v ∈ visits -> load_error v = Some message ->
  filter (fun r => cr_url r = Some (v_url v)) (load_failures visits) =
  [page_load_error message (v_url v)].
Proof.
  unfold load_failures.
  induction visits as [|v' visits IH]; intros Hnd Hv Herr; [by apply elem_of_nil in Hv|].
  cbn [map] in Hnd. apply NoDup_cons in Hnd as [Hfresh Hnd].
  cbn [omap list_omap].
  apply elem_of_cons in Hv as [<-|Hv].
  - rewrite Herr. cbn [fmap option_fmap option_map].
    rewrite filter_cons_True by done. f_equal.
    apply load_failures_other_urls. intros v' Hv' Heq.
    apply Hfresh. rewrite <- Heq. by apply list_elem_of_fmap_2.
  - assert (v_url v' <> v_url v) as Hne.
    { intros Heq. apply Hfresh. rewrite Heq. by apply list_elem_of_fmap_2. }
    destruct (load_error v') as [message'|]; cbn [fmap option_fmap option_map].
    + rewrite filter_cons_False by (cbn [cr_url page_load_error]; congruence). by apply IH.
    + by apply IH.
Qed.

Lemma distinct_urls_same_visit v v' visits :
  NoDup (map v_url visits) -> v ∈ visits -> v' ∈ visits -> v_url v' = v_url v -> v' = v.
Proof.
  induction visits as [|w visits IH]; intros Hnd Hv Hv' Heq; [by apply elem_of_nil in Hv|].
  cbn [map] in Hnd. apply NoDup_cons in Hnd as [Hfresh Hnd].
  apply elem_of_cons in Hv as [->|Hv]; apply elem_of_cons in Hv' as [->|Hv'].
  - done.
  - exfalso. apply Hfresh. rewrite <- Heq. by apply list_elem_of_fmap_2.
  - exfalso. apply Hfresh. rewrite Heq. by apply list_elem_of_fmap_2.
  - by apply IH.
Qed.

Lemma loop_fail_lower_bound visits report :
  fail (summary report) + N.of_nat (length (filter failed visits))
  <= fail (summary (foldl test_url report visits)).
Proof.
  revert report. induction visits as [|v visits IH]; intros report; cbn [foldl].
  - rewrite filter_nil. cbn [length]. lia.
  - etrans; [|apply IH]. destruct (load_error v) as [message|] eqn:Herr.
    + rewrite (test_url_failed _ _ _ Herr). cbn [summary fail].
      rewrite filter_cons_True by (unfold failed; rewrite Herr; by eexists).
      cbn [length]. lia.
    + rewrite (test_url_loaded _ _ Herr). cbn [summary].
      rewrite filter_cons_False by (unfold failed; rewrite Herr; by intros [? ?]).
      destruct (tally_counts (runCustomChecks (v_page v) (v_url v)) (summary report))
        as (_ & -> & _). lia.
Qed.

(** A URL none of whose visits loaded is not in the report. *)
Lemma failed_url_absent visits u :
  (forall v, v ∈ visits -> v_url v = u -> failed v) ->
  (u ∉ urls (run visits)) /\ JsDict.get u (axeResults (run visits)) = None.
Proof.
  intros Hu. split.
  - unfold run. rewrite loop_urls. cbn [urls initial_report app].
    intros (v & -> & Hv)%list_elem_of_fmap.
    apply list_elem_of_filter in Hv as [Hok Hv].
    destruct (Hu v Hv eq_refl) as [message Herr]. unfold loaded in Hok. congruence.
  - destruct (JsDict.get u (axeResults (run visits))) as [data|] eqn:Hget; [|done].
    exfalso. assert (is_Some (JsDict.get u (axeResults (run visits)))) as Hs
      by (rewrite Hget; by eexists).
    unfold run in Hs. apply loop_axeResults in Hs as [[? Hinit]|(v & Hv & Hok & Heq)].
    + cbn [axeResults initial_report JsDict.get] in Hinit. done.
    + destruct (Hu v Hv Heq) as [message Herr]. unfold loaded in Hok. congruence.
Qed.

(** C4.  Every visit whose page load fails adds exactly one synthetic
    result with id "page-load", status "fail", the message of the error
    and the URL, and nothing else has that id: the page-load results of
    the report are, in order, those of the failed visits.  When the
    submitted URLs are distinct (the server removes duplicates), a URL whose
    load fails has exactly one page-load result and is neither in [urls]
    nor a key of [axeResults], while its failure is in [customResults]; in
    general this holds of a URL none of whose visits loaded.  So when 3
    URLs are submitted and exactly 1 fails to load, [urls] has length 2,
    [customResults] has exactly one "page-load" entry, and [summary.fail]
    is at least 1. *)
Theorem page_load_failures (visits : list Visit) :
  filter is_page_load (customResults (run visits)) = load_failures visits
  /\ (forall v message, v ∈ visits -> load_error v = Some message ->
        page_load_error message (v_url v) ∈ customResults (run visits)
        /\ cr_id (page_load_error message (v_url v)) = "page-load"
        /\ cr_status (page_load_error message (v_url v)) = "fail"
        /\ cr_message (page_load_error message (v_url v)) = message
        /\ cr_url (page_load_error message (v_url v)) = Some (v_url v))
  /\ (NoDup (map v_url visits) ->
      forall v message, v ∈ visits -> load_error v = Some message ->
        filter (fun r => cr_url r = Some (v_url v))
               (filter is_page_load (customResults (run visits)))
        = [page_load_error message (v_url v)]
        /\ (v_url v ∉ urls (run visits))
        /\ JsDict.get (v_url v) (axeResults (run visits)) = None)
  /\ (forall u, (forall v, v ∈ visits -> v_url v = u -> failed v) ->
        (u ∉ urls (run visits)) /\ JsDict.get u (axeResults (run visits)) = None)
  /\ length (urls (run visits)) = length (filter loaded visits)
  /\ length (filter is_page_load (customResults (run visits)))
     = length (filter failed visits)
  /\ N.of_nat (length (filter failed visits)) <= fail (summary (run visits))
  /\ (length visits = 3%nat -> length (filter failed visits) = 1%nat ->
      length (urls (run visits)) = 2%nat
      /\ length (filter is_page_load (customResults (run visits))) = 1%nat
      /\ 1 <= fail (summary (run visits))).
Proof.
  assert (filter is_page_load (customResults (run visits)) = load_failures visits) as Hpl.
  { rewrite run_customResults. apply page_load_results. }
  assert (length (urls (run visits)) = length (filter loaded visits)) as Hurls.
  { unfold run. rewrite loop_urls. cbn [urls initial_report app]. by rewrite length_map. }
  assert (N.of_nat (length (filter failed visits)) <= fail (summary (run visits))) as Hfail.
  { pose proof (loop_fail_lower_bound visits initial_report) as Hlb.
    cbn [summary initial_report fail] in Hlb. unfold run. lia. }
  split_and!.
  - done.
  - intros v message Hv Herr. split_and!; [|done..].
    assert (page_load_error message (v_url v) ∈ load_failures visits) as Hin
      by by apply load_failures_elem.
    rewrite <- Hpl in Hin. by apply list_elem_of_filter in Hin as [_ Hin].
  - intros Hnd v message Hv Herr. split.
    + rewrite Hpl. by apply load_failures_of_url.
    + apply failed_url_absent. intros v' Hv' Heq.
      rewrite (distinct_urls_same_visit v v' visits Hnd Hv Hv' Heq).
      unfold failed. rewrite Herr. by eexists.
  - apply failed_url_absent.
  - done.
  - by rewrite Hpl, load_failures_length.
  - done.
  - intros Hlen Hone. pose proof (loaded_failed_length visits) as Hsplit.
    split_and!; [lia| |lia]. by rewrite Hpl, load_failures_length.
Qed.

(** C5, as the code has it.  Every result in [customResults] that a chapter
    module returned or that stands for a chapter module that threw carries
    a [chapter] that is one of the 8 chapter keys; the synthetic result of
    a page-load failure, and only it, carries no [chapter]. *)
Theorem custom_results_chapter (visits : list Visit) (r : CheckResult) :
  r ∈ customResults (run visits) ->
  (is_page_load r /\ cr_chapter r = None)
  \/ (~ is_page_load r /\ exists ch, ch ∈ chapter_keys /\ cr_chapter r = Some ch).
Proof.
  rewrite run_customResults. intros Hr.
  apply elem_of_concat in Hr as (results & Hr & Hresults).
  apply list_elem_of_fmap in Hresults as (v & -> & Hv).
  unfold visit_results in Hr. destruct (load_error v) as [message|].
  - apply list_elem_of_singleton in Hr as ->. by left.
  - right. pose proof (runCustomChecks_results (v_page v) (v_url v)) as Hall.
    rewrite Forall_forall in Hall. by destruct (Hall r Hr) as (Hid & Hch & _).
Qed.

(** C5 as stated fails: the result of a page-load failure is in
    [customResults] and has no chapter. *)
Lemma page_load_result_without_chapter :
  ~ (forall r, r ∈ customResults (run [failing_visit "https://unreachable.example/"]) ->
       exists ch, ch ∈ chapter_keys /\ cr_chapter r = Some ch).
Proof.
  intros Hall.
  destruct (Hall (page_load_error "net::ERR_NAME_NOT_RESOLVED" "https://unreachable.example/"))
    as (ch & _ & Hch).
  - vm_compute. apply list_elem_of_here.
  - discriminate Hch.
Qed.

End RunFacts.

(** ** The score *)

Section ScoreFacts.
Import Number Runner Report Vocabulary Samples.

(** The values the specification lists. *)
Lemma score_listed_values :
  to_Z (scoreClamp 0 0 0 0) = Some 100%Z
  /\ to_Z (scoreClamp 10 0 0 0) = Some 100%Z
  /\ to_Z (scoreClamp 0 10 0 0) = Some 0%Z
  /\ to_Z (scoreClamp 5 5 0 0) = Some 50%Z.
Proof. by vm_compute. Qed.

(** On the listed values the score is the specification's. *)
Lemma score_listed_values_spec :
  Forall (fun '(p, f, w, a) => to_Z (scoreClamp p f w a) = Some (computeScore_spec p f w a))
         [(0, 0, 0, 0); (10, 0, 0, 0); (0, 10, 0, 0); (5, 5, 0, 0)]%N.
Proof. repeat constructor. Qed.

(** C2.  The score of [generateReport] is not always
    [round(100 * pass / total)].  A run of two URLs, a clean page and an
    untitled page with twelve audit violations, has 23 passes, 1 failure,
    4 warnings and 12 violations: 23 in 40.  The exact percentage is 57.5,
    which rounds to 58 (halves upwards as [Math.round] does, and to even as
    well), while the code divides first: [23 / 40] is the binary64 number
    just below 0.575, its product with 100 is 8092405580431359 * 2^-47,
    just below 57.5, and [Math.round] makes that 57. *)
Theorem score_of_23_in_40 :
  summary (run tie_visits) = {| pass := 23; fail := 1; warn := 4 |}
  /\ totalAxeViolations (run tie_visits) = 12%N
  /\ to_Z (report_score (run tie_visits)) = Some 57%Z
  /\ to_Z (scoreClamp 23 1 4 12) = Some 57%Z
  /\ computeScore_spec 23 1 4 12 = 58%Z
  /\ round_half_even (100 * 23) 40 = 58%Z
  /\ total 23 1 4 12 = of_Z 40
  /\ mul (div (of_N 23) (total 23 1 4 12)) (of_Z 100)
     = S754_finite false 8092405580431359 (-47)
  /\ (2 * 8092405580431359 < 115 * 2 ^ 47)%Z.
Proof. by vm_compute. Qed.

End ScoreFacts.

(** ** The range of the score *)

Section NumberFacts.
Import Number Report Vocabulary.
Local Open Scope Z_scope.

Lemma shr_1_nonneg mrs : 0 <= shr_m mrs -> 0 <= shr_m (shr_1 mrs).
Proof.
  destruct mrs as [m r s]. cbn [shr_m]. intros Hm.
  destruct m as [|[p|p|]|[p|p|]]; cbn [shr_1 shr_m]; lia.
Qed.

Lemma iter_pos_invariant {A} (Q : A -> Prop) (f : A -> A) p x :
  (forall y, Q y -> Q (f y)) -> Q x -> Q (SpecFloat.iter_pos f p x).
Proof.
  intros Hf. revert x. induction p as [p IH|p IH|]; intros x Hx; cbn [SpecFloat.iter_pos].
  - apply IH, IH, Hf, Hx.
  - apply IH, IH, Hx.
  - apply Hf, Hx.
Qed.

Lemma shr_nonneg mrs e n :
  0 <= shr_m mrs -> 0 <= shr_m (shr mrs e n).1 /\ e <= (shr mrs e n).2.
Proof.
  intros Hm. unfold shr. destruct n as [|p|p]; cbn [fst snd]; [split; [done|lia]| |split; [done|lia]].
  split; [|lia]. by apply iter_pos_invariant; [apply shr_1_nonneg|].
Qed.

Lemma shr_record_of_loc_m m l : shr_m (shr_record_of_loc m l) = m.
Proof. by destruct l as [|[]]. Qed.

Lemma shr_fexp_nonneg m e l :
  0 <= m ->
  0 <= shr_m (shr_fexp prec emax m e l).1 /\ e <= (shr_fexp prec emax m e l).2.
Proof.
  intros Hm. unfold shr_fexp. apply shr_nonneg. by rewrite shr_record_of_loc_m.
Qed.

Lemma round_nearest_even_nonneg m l : 0 <= m -> 0 <= round_nearest_even m l.
Proof.
  intros Hm. unfold round_nearest_even. destruct l as [|[]]; [done| |done|lia].
  destruct (Z.even m); lia.
Qed.

(** Rounding a mantissa that is not negative never gives [NaN] or a
    negative number, and does not lower the exponent. *)
Lemma binary_round_aux_nonneg m e l :
  0 <= m -> nonneg_from e (binary_round_aux prec emax false m e l).
Proof.
  intros Hm. unfold binary_round_aux.
  pose proof (shr_fexp_nonneg m e l Hm) as [Hm1 He1].
  destruct (shr_fexp prec emax m e l) as [mrs1 e1]. cbn [fst snd] in *.
  pose proof (round_nearest_even_nonneg (shr_m mrs1) (loc_of_shr_record mrs1) Hm1) as Hr.
  pose proof (shr_fexp_nonneg _ e1 loc_Exact Hr) as [Hm2 He2].
  destruct (shr_fexp prec emax _ e1 loc_Exact) as [mrs2 e2]. cbn [fst snd] in *.
  destruct (shr_m mrs2) as [|p|p]; [done| |lia].
  destruct (e2 <=? emax - prec); cbn [nonneg_from]; [lia|done].
Qed.

Lemma shl_align_exponent m e e' : (shl_align m e e').2 = Z.min e e'.
Proof.
  unfold shl_align. destruct (e' - e) as [|d|d] eqn:Hd; cbn [snd]; lia.
Qed.

Lemma binary_round_nonneg m e :
  nonneg_from (Z.min e (fexp prec emax (Zpos (digits2_pos m) + e)))
              (binary_round prec emax false m e).
Proof.
  unfold binary_round.
  pose proof (shl_align_exponent m e (fexp prec emax (Zpos (digits2_pos m) + e))) as He.
  destruct (shl_align m e _) as [mz ez]. cbn [snd] in He. subst ez.
  by apply binary_round_aux_nonneg.
Qed.

Lemma nonneg_from_weaken lo lo' x : lo' <= lo -> nonneg_from lo x -> nonneg_from lo' x.
Proof. intros Hlo. destruct x as [[]|[]| |[] m e]; cbn [nonneg_from]; try done. lia. Qed.

Lemma nonneg_from_nonneg lo x : nonneg_from lo x -> nonneg x.
Proof. intros Hx. by exists lo. Qed.

Lemma of_Z_nonneg z : 0 <= z -> nonneg (of_Z z).
Proof.
  intros Hz. unfold of_Z, binary_normalize. destruct z as [|p|p]; [by exists 0| |lia].
  eapply nonneg_from_nonneg, binary_round_nonneg.
Qed.

Lemma of_N_nonneg n : nonneg (of_N n).
Proof. apply of_Z_nonneg. lia. Qed.

Lemma add_nonneg x y : nonneg x -> nonneg y -> nonneg (add x y).
Proof.
  intros [lx Hx] [ly Hy].
  destruct x as [[]|[]| |[] mx ex]; cbn [nonneg_from] in Hx; try done;
  destruct y as [[]|[]| |[] my ey]; cbn [nonneg_from] in Hy; try done;
    try (by exists 0); try (by exists lx); try (by exists ly).
  unfold add, SFadd. cbn [cond_Zopp].
  set (a := (shl_align mx ex (Z.min ex ey)).1).
  set (b := (shl_align my ey (Z.min ex ey)).1).
  unfold binary_normalize.
  destruct (Zpos a + Zpos b) as [|p|p] eqn:Hsum; [lia| |lia].
  eapply nonneg_from_nonneg, binary_round_nonneg.
Qed.

Lemma mul_nonneg_literal x m e :
  nonneg x -> nonneg (mul x (S754_finite false m e)).
Proof.
  intros [lx Hx].
  destruct x as [[]|[]| |[] mx ex]; cbn [nonneg_from] in Hx; try done;
    try (by exists 0).
  unfold mul, SFmul. cbn [xorb].
  eapply nonneg_from_nonneg, binary_round_aux_nonneg. lia.
Qed.

Lemma digits2_pos_bounds p :
  2 ^ (Zpos (digits2_pos p) - 1) <= Zpos p < 2 ^ Zpos (digits2_pos p).
Proof.
  induction p as [p IH|p IH|]; cbn [digits2_pos]; [| |by vm_compute].
  - rewrite Pos2Z.inj_succ, (Pos2Z.inj_xI p).
    replace (Z.succ (Zpos (digits2_pos p)) - 1) with (Z.succ (Zpos (digits2_pos p) - 1)) by lia.
    rewrite !Z.pow_succ_r by lia.
    destruct IH as [Hlo Hhi]. revert Hlo Hhi.
    generalize (2 ^ (Zpos (digits2_pos p) - 1)) (2 ^ Zpos (digits2_pos p)). lia.
  - rewrite Pos2Z.inj_succ, (Pos2Z.inj_xO p).
    replace (Z.succ (Zpos (digits2_pos p)) - 1) with (Z.succ (Zpos (digits2_pos p) - 1)) by lia.
    rewrite !Z.pow_succ_r by lia.
    destruct IH as [Hlo Hhi]. revert Hlo Hhi.
    generalize (2 ^ (Zpos (digits2_pos p) - 1)) (2 ^ Zpos (digits2_pos p)). lia.
Qed.

Lemma digits2_pos_iter_xO p k :
  digits2_pos (Pos.iter xO p k) = (digits2_pos p + k)%positive.
Proof.
  induction k as [|k IH] using Pos.peano_ind.
  - cbn [Pos.iter digits2_pos]. lia.
  - rewrite Pos.iter_succ. cbn [digits2_pos]. rewrite IH. lia.
Qed.

(** A mantissa of 53 digits with an exponent in range is left as it is. *)
Lemma binary_round_aux_canonical s m e :
  Zpos (digits2_pos m) = 53 -> -1074 <= e <= 971 ->
  binary_round_aux prec emax s (Zpos m) e loc_Exact = S754_finite s m e.
Proof.
  intros Hd He.
  assert (shr_fexp prec emax (Zpos m) e loc_Exact
          = ({| shr_m := Zpos m; shr_r := false; shr_s := false |}, e)) as Hshr.
  { unfold shr_fexp. cbn [Zdigits2 shr_record_of_loc]. rewrite Hd.
    replace (fexp prec emax (53 + e) - e) with 0; [done|].
    unfold fexp, emin, prec, emax. lia. }
  unfold binary_round_aux. rewrite Hshr. cbn [shr_m loc_of_shr_record round_nearest_even].
  rewrite Hshr. cbn [shr_m].
  replace (e <=? emax - prec) with true; [done|].
  symmetry. apply Z.leb_le. unfold emax, prec. lia.
Qed.

(** A positive integer below 2^53 is a finite number. *)
Lemma of_Z_small p :
  Zpos p < 2 ^ 53 -> exists m e, of_Z (Zpos p) = S754_finite false m e.
Proof.
  intros Hp. pose proof (digits2_pos_bounds p) as [Hlo _].
  assert (Zpos (digits2_pos p) <= 53) as Hd.
  { destruct (Z.le_gt_cases (Zpos (digits2_pos p)) 53) as [|Hgt]; [done|].
    assert (2 ^ 53 <= 2 ^ (Zpos (digits2_pos p) - 1)) by (apply Z.pow_le_mono_r; lia). lia. }
  unfold of_Z, binary_normalize, binary_round.
  replace (fexp prec emax (Zpos (digits2_pos p) + 0)) with (Zpos (digits2_pos p) - 53)
    by (unfold fexp, emin, prec, emax; lia).
  unfold shl_align.
  destruct (Zpos (digits2_pos p) - 53 - 0) as [|k|k] eqn:Hk; [|lia|].
  - eexists _, _. apply binary_round_aux_canonical; lia.
  - eexists _, _. apply binary_round_aux_canonical; [|lia].
    rewrite digits2_pos_iter_xO. lia.
Qed.

Lemma of_N_small n :
  (n < 2 ^ 53)%N ->
  of_N n = S754_zero false \/ exists m e, of_N n = S754_finite false m e.
Proof.
  intros Hn. unfold of_N. destruct n as [|p]; [by left|]. right.
  apply of_Z_small. change (2 ^ 53) with (Z.of_N (2 ^ 53)). lia.
Qed.

Lemma div_eucl_nonneg a b : 0 <= a -> 0 < b -> 0 <= (Z.div_eucl a b).1.
Proof. intros Ha Hb. change (Z.div_eucl a b).1 with (a / b). by apply Z.div_pos. Qed.

(** Dividing zero or a positive finite number by a positive number. *)
Lemma div_nonneg x y :
  (x = S754_zero false \/ exists m e, x = S754_finite false m e) ->
  nonneg y -> is_zero y = false -> nonneg (div x y).
Proof.
  intros Hx [ly Hy] Hnz.
  destruct y as [[]|[]| |[] my ey]; cbn [nonneg_from] in Hy; try done.
  - destruct Hx as [->|(m & e & ->)]; by exists 0.
  - destruct Hx as [->|(mx & ex & ->)]; [by exists 0|].
    unfold div, SFdiv. cbn [xorb].
    destruct (SFdiv_core_binary prec emax (Zpos mx) ex (Zpos my) ey) as [[mz ez] lz] eqn:Hcore.
    eapply nonneg_from_nonneg, binary_round_aux_nonneg.
    unfold SFdiv_core_binary in Hcore.
    set (sh := ex - ey - _) in Hcore.
    set (m' := match sh with Z0 => Zpos mx | Zpos _ => Z.shiftl (Zpos mx) sh | Zneg _ => 0 end)
      in Hcore.
    assert (0 <= m') as Hm'.
    { subst m'. destruct sh as [|k|k]; [lia| |lia]. apply Z.shiftl_nonneg. lia. }
    pose proof (div_eucl_nonneg m' (Zpos my) Hm' ltac:(lia)) as Hq.
    destruct (Z.div_eucl m' (Zpos my)) as [q r]. cbn [fst] in Hq.
    by injection Hcore as <- _ _.
Qed.

Lemma literal_100 : of_Z 100 = S754_finite false 7036874417766400 (-46).
Proof. by vm_compute. Qed.

Lemma literal_0 : of_Z 0 = S754_zero false.
Proof. by vm_compute. Qed.

(** Clamping a number that is zero, or at least 2^7. *)
Lemma clamp_from_exponent y :
  nonneg_from (-45) y ->
  exists n, 0 <= n <= 100 /\ max (of_Z 0) (min (of_Z 100) y) = of_Z n.
Proof.
  intros Hy. rewrite literal_100, literal_0.
  destruct y as [[]|[]| |[] m e]; cbn [nonneg_from] in Hy; try done.
  - exists 0. split; [lia|]. by vm_compute.
  - exists 100. split; [lia|]. by vm_compute.
  - exists 100. split; [lia|]. rewrite literal_100.
    unfold min, SFcompare. replace (-46 ?= e) with Lt by (symmetry; apply Z.compare_lt_iff; lia).
    by vm_compute.
Qed.

(** Clamping a small positive integer. *)
Lemma clamp_small n :
  1 <= n <= 127 -> max (of_Z 0) (min (of_Z 100) (of_Z n)) = of_Z (Z.min 100 n).
Proof.
  intros Hn.
  assert (Forall (fun n => max (of_Z 0) (min (of_Z 100) (of_Z n)) = of_Z (Z.min 100 n))
                 (seqZ 1 127)) as Hall.
  { apply (bool_decide_unpack _). by vm_compute. }
  rewrite Forall_forall in Hall. apply Hall. apply elem_of_seqZ. lia.
Qed.

Lemma clamp_integer n :
  0 < n -> exists k, 0 <= k <= 100 /\ max (of_Z 0) (min (of_Z 100) (of_Z n)) = of_Z k.
Proof.
  intros Hn. destruct (Z.le_gt_cases n 127) as [Hsmall|Hlarge].
  - exists (Z.min 100 n). split; [lia|]. apply clamp_small. lia.
  - apply clamp_from_exponent. unfold of_Z, binary_normalize.
    destruct n as [|p|p]; [lia| |lia].
    eapply nonneg_from_weaken; [|apply binary_round_nonneg].
    pose proof (digits2_pos_bounds p) as [_ Hhi].
    assert (8 <= Zpos (digits2_pos p)) as Hd.
    { destruct (Z.le_gt_cases 8 (Zpos (digits2_pos p))) as [|Hlt]; [done|].
      assert (2 ^ Zpos (digits2_pos p) <= 2 ^ 7) by (apply Z.pow_le_mono_r; lia).
      change (2 ^ 7) with 128 in *. lia. }
    unfold fexp, emin, prec, emax. lia.
Qed.

(** [Math.round] of a number that is not negative is zero, an integer, or
    a number with a non-negative exponent. *)
Lemma round_nonneg x :
  nonneg x ->
  nonneg_from (-45) (round x) \/ exists n, 0 < n /\ round x = of_Z n.
Proof.
  intros [lo Hx].
  destruct x as [[]|[]| |[] m e]; cbn [nonneg_from] in Hx; try done;
    try (by left).
  unfold round. destruct (Z.leb_spec 0 e) as [He|He].
  - left. cbn [nonneg_from]. lia.
  - cbn [cond_Zopp].
    set (n := Z.shiftr (Zpos m + 2 ^ (- e - 1)) (- e)).
    assert (0 <= n) as Hn.
    { subst n. apply Z.shiftr_nonneg.
      assert (0 <= 2 ^ (- e - 1)) by (apply Z.pow_nonneg; lia). lia. }
    destruct (Z.eqb_spec n 0) as [Hz|Hnz]; [by left|].
    right. exists n. split; [lia|done].
Qed.

Lemma clamp_round x :
  nonneg x ->
  exists n, 0 <= n <= 100 /\ max (of_Z 0) (min (of_Z 100) (round x)) = of_Z n.
Proof.
  intros Hx. destruct (round_nonneg x Hx) as [Hr|(n & Hn & ->)].
  - by apply clamp_from_exponent.
  - by apply clamp_integer.
Qed.

Lemma total_nonneg pass fail warn totalAxeViolations :
  nonneg (total pass fail warn totalAxeViolations).
Proof. unfold total. repeat apply add_nonneg; apply of_N_nonneg. Qed.

(** The clamped score is an integer between 0 and 100, whatever the
    counts, as long as the number of passes is a safe integer. *)
Lemma scoreClamp_range pass fail warn totalAxeViolations :
  (pass < 2 ^ 53)%N ->
  exists n, 0 <= n <= 100 /\ scoreClamp pass fail warn totalAxeViolations = of_Z n.
Proof.
  intros Hpass. unfold scoreClamp, score. cbv zeta.
  destruct (is_zero (total pass fail warn totalAxeViolations)) eqn:Hzero.
  - exists 100. split; [lia|]. by vm_compute.
  - apply clamp_round. rewrite literal_100. apply mul_nonneg_literal.
    apply div_nonneg; [by apply of_N_small|apply total_nonneg|done].
Qed.

(** Without checks the score is 100. *)
Lemma scoreClamp_no_checks pass fail warn totalAxeViolations :
  (pass + fail + warn + totalAxeViolations = 0)%N ->
  scoreClamp pass fail warn totalAxeViolations = of_Z 100.
Proof.
  intros Hsum.
  assert (pass = 0 /\ fail = 0 /\ warn = 0 /\ totalAxeViolations = 0)%N
    as (-> & -> & -> & ->) by lia.
  by vm_compute.
Qed.

(** Up to 100 checks the score is the specification's, except that on an
    exact tie it can be one below. *)
Lemma score_up_to_100_checks pass fail :
  (pass + fail <= 100)%N -> score_agrees pass fail = true.
Proof.
  intros Hsum.
  assert (Forall (fun pf : N * N => score_agrees pf.1 pf.2 = true) (small_counts 100)) as Hall.
  { apply (bool_decide_unpack _). by vm_compute. }
  rewrite Forall_forall in Hall. apply (Hall (pass, fail)).
  unfold small_counts. apply list_elem_of_bind.
  exists (N.to_nat (pass + fail)). split.
  - apply list_elem_of_bind. exists (N.to_nat pass). split.
    + apply list_elem_of_singleton. f_equal; lia.
    + apply elem_of_seq. lia.
  - apply elem_of_seq. lia.
Qed.

End NumberFacts.

(** ** The statements at sample inputs *)

Section Witnesses.
Import Js Checks Checklists AxeScan Remediation Deliverables Runner Report Vocabulary Samples.





Lemma fixOrderScore_rank_formula_witness :
  fi_impact img_alt_item ∈ impacts
  /\ fi_effort img_alt_item ∈ efforts
  /\ exists n m,
       fixOrderScore img_alt_item = Js.Int n
       /\ fixOrderScore captions_item = Js.Int m
       /\ (n < m)%Z.
Proof.
  assert (fi_impact img_alt_item ∈ impacts) as Hi.
  { apply (bool_decide_unpack _). vm_compute. exact I. }
  assert (fi_effort img_alt_item ∈ efforts) as He.
  { apply (bool_decide_unpack _). vm_compute. exact I. }
  split; [exact Hi|]. split; [exact He|].
  destruct (fixOrderScore_rank_formula img_alt_item Hi He)
    as (_ & _ & _ & _ & _ & _ & _ & Hgrid & _).
  apply Hgrid.
  - vm_compute. reflexivity.
  - vm_compute. reflexivity.
  - apply (bool_decide_unpack _). vm_compute. exact I.
  - apply (bool_decide_unpack _). vm_compute. exact I.
  - vm_compute. intros [_ H]. discriminate H.
Defined.

Lemma page_load_failures_witness :
  length three_visits = 3
  /\ length (filter failed three_visits) = 1
  /\ length (urls (run three_visits)) = 2
  /\ length (filter is_page_load (customResults (run three_visits))) = 1
  /\ (1 <= fail (summary (run three_visits)))%N.
Proof.
  assert (length three_visits = 3) as Hlen by (vm_compute; reflexivity).
  assert (length (filter failed three_visits) = 1) as Hone by (vm_compute; reflexivity).
  split; [exact Hlen|]. split; [exact Hone|].
  exact (proj2 (proj2 (proj2 (proj2 (proj2 (proj2 (proj2
           (page_load_failures three_visits))))))) Hlen Hone).
Defined.

Lemma custom_results_chapter_witness :
  page_load_error "net::ERR_NAME_NOT_RESOLVED" "https://unreachable.example/"
    ∈ customResults (run three_visits)
  /\ ((is_page_load (page_load_error "net::ERR_NAME_NOT_RESOLVED" "https://unreachable.example/")
       /\ cr_chapter (page_load_error "net::ERR_NAME_NOT_RESOLVED" "https://unreachable.example/")
          = None)
      \/ (~ is_page_load (page_load_error "net::ERR_NAME_NOT_RESOLVED" "https://unreachable.example/")
          /\ exists ch, ch ∈ chapter_keys
               /\ cr_chapter (page_load_error "net::ERR_NAME_NOT_RESOLVED"
                                               "https://unreachable.example/") = Some ch)).
Proof.
  assert (page_load_error "net::ERR_NAME_NOT_RESOLVED" "https://unreachable.example/"
            ∈ customResults (run three_visits)) as Hin.
  { apply (bool_decide_unpack _). vm_compute. exact I. }
  split; [exact Hin|].
  exact (custom_results_chapter three_visits _ Hin).
Defined.

End Witnesses.

(** ** The HTML escape *)

Section HtmlFacts.
Import Html Terms.
Import Stdlib.Strings.Ascii.

Lemma string_app_cons a (s t : string) : String a s +:+ t = String a (s +:+ t).
Proof. reflexivity. Qed.

Lemma string_app_assoc (s t u : string) : (s +:+ t) +:+ u = s +:+ (t +:+ u).
Proof. induction s as [|a s IH]; [done|]. by rewrite !string_app_cons, IH. Qed.

Lemma replace_all_app c by_ s t :
  replace_all c by_ (s +:+ t) = replace_all c by_ s +:+ replace_all c by_ t.
Proof.
  induction s as [|a s IH]; [done|].
  rewrite string_app_cons. cbn [replace_all].
  case_decide; rewrite IH; [|done].
  by rewrite string_app_assoc.
Qed.

Lemma chars_app s t : chars (s +:+ t) = (chars s ++ chars t)%list.
Proof.
  unfold chars. induction s as [|a s IH]; [done|].
  rewrite string_app_cons. cbn [String.list_ascii_of_string app]. by rewrite IH.
Qed.

Lemma escapeHtml_unfold s :
  escapeHtml (Some s) =
  replace_all dq_char "&quot;" (replace_all ">"%char "&gt;"
    (replace_all "<"%char "&lt;" (replace_all "&"%char "&amp;" s))).
Proof. by destruct s. Qed.

Lemma escape_step a s :
  escapeHtml (Some (String a s)) = escape_char a +:+ escapeHtml (Some s).
Proof.
  rewrite !escapeHtml_unfold. unfold escape_char.
  change (replace_all "&"%char "&amp;" (String a s)) with
    (if decide (a = "&"%char) then "&amp;" +:+ replace_all "&"%char "&amp;" s
     else String a (replace_all "&"%char "&amp;" s)).
  destruct (decide (a = "&"%char)) as [->|Hamp].
  { by rewrite !replace_all_app. }
  set (s1 := replace_all "&"%char "&amp;" s).
  change (replace_all "<"%char "&lt;" (String a s1)) with
    (if decide (a = "<"%char) then "&lt;" +:+ replace_all "<"%char "&lt;" s1
     else String a (replace_all "<"%char "&lt;" s1)).
  destruct (decide (a = "<"%char)) as [->|Hlt].
  { by rewrite !replace_all_app. }
  set (s2 := replace_all "<"%char "&lt;" s1).
  change (replace_all ">"%char "&gt;" (String a s2)) with
    (if decide (a = ">"%char) then "&gt;" +:+ replace_all ">"%char "&gt;" s2
     else String a (replace_all ">"%char "&gt;" s2)).
  destruct (decide (a = ">"%char)) as [->|Hgt].
  { by rewrite !replace_all_app. }
  set (s3 := replace_all ">"%char "&gt;" s2).
  change (replace_all dq_char "&quot;" (String a s3)) with
    (if decide (a = dq_char) then "&quot;" +:+ replace_all dq_char "&quot;" s3
     else String a (replace_all dq_char "&quot;" s3)).
  by destruct (decide (a = dq_char)).
Qed.

Lemma escapeHtml_escape_each s : escapeHtml (Some s) = escape_each s.
Proof. induction s as [|a s IH]; [done|]. by rewrite escape_step, IH. Qed.

(** The four replacements of [escapeHtml], done one after the other on the
    whole string, escape each character of the argument once: the ampersand
    of an entity that a replacement wrote is not escaped again, because the
    ampersands are replaced first. *)
Theorem escapeHtml_each_character (s : string) :
  escapeHtml (Some s) = escape_each s.
Proof.
  induction s as [|a s IH]; [done|].
  rewrite escape_step, IH. done.
Qed.

Lemma escape_char_unmarked a : Forall (fun c => ~ markup_char c) (chars (escape_char a)).
Proof.
  unfold escape_char, markup_char.
  repeat case_decide; subst;
    repeat (apply Forall_cons; split; [intros [?|[?|?]]; by first [discriminate|congruence]|]);
    apply Forall_nil_2.
Qed.

(** The text [escapeHtml] returns holds no [<], no [>] and no double quote,
    whatever the argument: it cannot open or close an element or end an
    attribute value written between double quotes. *)
Theorem escapeHtml_no_markup (s : option string) :
  Forall (fun c => ~ markup_char c) (chars (escapeHtml s)).
Proof.
  destruct s as [s|]; [|apply Forall_nil_2].
  rewrite escapeHtml_escape_each.
  induction s as [|a s IH]; [apply Forall_nil_2|].
  cbn [escape_each]. rewrite chars_app. apply Forall_app. split; [|done].
  apply escape_char_unmarked.
Qed.

Lemma escape_char_cons a : exists c r, escape_char a = String c r.
Proof. unfold escape_char. repeat case_decide; eauto. Qed.

Lemma escape_each_inj s t : escape_each s = escape_each t -> s = t.
Proof.
  revert t. induction s as [|a s IH]; intros [|b t]; cbn [escape_each].
  - done.
  - destruct (escape_char_cons b) as (c & r & ->). discriminate.
  - destruct (escape_char_cons a) as (c & r & ->). discriminate.
  - intros Heq.
    assert (a = b /\ escape_each s = escape_each t) as [-> Hrest].
    { revert Heq. unfold escape_char.
      repeat case_decide; subst; simpl; intros Heq;
        first [ by injection Heq | discriminate Heq | (injection Heq; congruence) ]. }
    by rewrite (IH t Hrest).
Qed.

(** [escapeHtml] loses nothing: two strings with the same escaped text are
    the same string. *)
Theorem escapeHtml_injective (s t : string) :
  escapeHtml (Some s) = escapeHtml (Some t) -> s = t.
Proof. rewrite !escapeHtml_escape_each. apply escape_each_inj. Qed.

Lemma escapeHtml_injective_witness :
  escapeHtml (Some "a<b") = escapeHtml (Some "a<b") /\ "a<b" = "a<b".
Proof. split; [reflexivity|]. apply (escapeHtml_injective "a<b" "a<b"). reflexivity. Defined.

End HtmlFacts.

(** ** The ids of the checks and the catalogues *)

Section CheckIdFacts.
Import Js Checks Checklists Runner Vocabulary Terms.

Lemma await_resolves {A} Q (m : Settled A) k :
  (forall x, resolves_to Q (k x)) -> resolves_to Q (await m k).
Proof. intros Hk. destruct m; [exact I|apply Hk]. Qed.

Lemma ids_in_order_nil ids : ids_in_order ids [].
Proof. apply sublist_nil_l. Qed.

Lemma ids_in_order_skip ids results :
  ids_in_order (removelast ids) results -> ids_in_order ids results.
Proof.
  unfold ids_in_order. intros H. etrans; [exact H|].
  destruct ids as [|i ids] using rev_ind; [done|].
  rewrite removelast_last. by apply sublist_inserts_r.
Qed.

Lemma ids_in_order_push ids results r :
  last ids = Some (cr_id r) ->
  ids_in_order (removelast ids) results -> ids_in_order ids (push results r).
Proof.
  unfold ids_in_order, push. intros Hlast H.
  destruct ids as [|i ids _] using rev_ind; [done|].
  rewrite last_snoc in Hlast. injection Hlast as ->.
  rewrite removelast_last in H. rewrite map_app. by apply sublist_app.
Qed.

Lemma ids_in_order_push_if c ids results r :
  last ids = Some (cr_id r) ->
  ids_in_order (removelast ids) results -> ids_in_order ids (push_if c results r).
Proof.
  intros Hlast H. destruct c; cbn [push_if].
  - by apply ids_in_order_push.
  - by apply ids_in_order_skip.
Qed.

End CheckIdFacts.

Ltac ids_ordered :=
  repeat first
    [ apply ids_in_order_nil
    | match goal with |- Terms.ids_in_order _ (if ?c then _ else _) => destruct c end
    | apply ids_in_order_push; [reflexivity|cbn [removelast]]
    | apply ids_in_order_push_if; [reflexivity|cbn [removelast]]
    | apply ids_in_order_skip; cbn [removelast] ].

Ltac chapter_ids :=
  match goal with
  | |- Terms.resolves_to (Terms.ids_in_order ?l) _ =>
      let ids := eval vm_compute in l in change l with ids
  end;
  repeat first [ apply await_resolves; intros ? | progress cbv zeta ];
  cbn [Terms.resolves_to]; ids_ordered.

Section ChapterIdFacts.
Import Js Checks Checklists Runner Vocabulary Terms.

Lemma runSemanticChecks_ids page :
  resolves_to (ids_in_order (ids_of "semantics")) (Chapter1.runSemanticChecks page).
Proof.
  unfold Chapter1.runSemanticChecks, Chapter1.chapterId.
  chapter_ids.
Qed.

Lemma runImageChecks_ids page :
  resolves_to (ids_in_order (ids_of "images")) (Chapter2.runImageChecks page).
Proof.
  unfold Chapter2.runImageChecks, Chapter2.chapterId.
  chapter_ids.
Qed.

Lemma runVisualChecks_ids page :
  resolves_to (ids_in_order (ids_of "visualDesign")) (Chapter3.runVisualChecks page).
Proof.
  unfold Chapter3.runVisualChecks, Chapter3.chapterId.
  chapter_ids.
Qed.

Lemma runResponsiveChecks_ids page :
  resolves_to (ids_in_order (ids_of "responsive")) (Chapter4.runResponsiveChecks page).
Proof.
  unfold Chapter4.runResponsiveChecks, Chapter4.chapterId.
  chapter_ids.
Qed.

Lemma runMultimediaChecks_ids page :
  resolves_to (ids_in_order (ids_of "multimedia")) (Chapter5.runMultimediaChecks page).
Proof.
  unfold Chapter5.runMultimediaChecks, Chapter5.chapterId.
  chapter_ids.
Qed.

Lemma runInputMethodChecks_ids page :
  resolves_to (ids_in_order (ids_of "inputMethods")) (Chapter6.runInputMethodChecks page).
Proof.
  unfold Chapter6.runInputMethodChecks, Chapter6.chapterId.
  chapter_ids.
Qed.

Lemma runFormChecks_ids page :
  resolves_to (ids_in_order (ids_of "forms")) (Chapter7.runFormChecks page).
Proof.
  unfold Chapter7.runFormChecks, Chapter7.chapterId.
  chapter_ids.
Qed.

Lemma runDynamicChecks_ids page :
  resolves_to (ids_in_order (ids_of "dynamicUpdates")) (Chapter8.runDynamicChecks page).
Proof.
  unfold Chapter8.runDynamicChecks, Chapter8.chapterId.
  chapter_ids.
Qed.

End ChapterIdFacts.

Section CustomCheckFacts.
Import Js Checks Checklists Remediation Runner Report Vocabulary Wcag Terms.
Local Open Scope list_scope.

Lemma foldl_outcomes page url table acc :
  foldl (fun (allResults : list CheckResult) '(chapterId, fn) =>
           match fn page with
           | Resolved results => (allResults ++ map (with_url url) results)%list
           | Rejected message => (allResults ++ [chapter_error chapterId message url])%list
           end) acc table
  = (acc ++ concat (map (fun e : string * (Page -> Settled (list CheckResult)) =>
                           chapter_outcome e.1 url (e.2 page)) table))%list.
Proof.
  revert acc. induction table as [|[ch fn] table IH]; intros acc; cbn [foldl map concat].
  - by rewrite app_nil_r.
  - rewrite IH. cbn [fst snd]. rewrite app_assoc. f_equal.
    by destruct (fn page).
Qed.

(** [runCustomChecks] is the chapter table run in order: every chapter
    contributes what its module resolved to, or one error result. *)
Lemma runCustomChecks_outcomes page url :
  runCustomChecks page url =
  concat (map (fun e : string * (Page -> Settled (list CheckResult)) =>
                 chapter_outcome e.1 url (e.2 page)) chapters).
Proof. unfold runCustomChecks. by rewrite foldl_outcomes. Qed.

Lemma outcome_ids ch url s ids :
  resolves_to (ids_in_order ids) s ->
  sublist (map cr_id (chapter_outcome ch url s)) (ids ++ [error_id ch]).
Proof.
  destruct s as [message|results]; cbn [resolves_to chapter_outcome].
  - intros _. cbn [map chapter_error cr_id]. by apply sublist_inserts_l.
  - unfold ids_in_order. intros H.
    rewrite <- list_fmap_compose.
    replace (map (cr_id ∘ with_url url) results) with (map cr_id results)
      by by apply list_fmap_ext.
    by apply sublist_inserts_r.
Qed.

Lemma custom_checks_ids page url :
  sublist (map cr_id (runCustomChecks page url)) custom_ids.
Proof.
  rewrite runCustomChecks_outcomes. unfold chapters, custom_ids, check_ids.
  cbn [map concat fst snd]. rewrite !map_app.
  repeat (apply sublist_app;
          [apply outcome_ids;
           first [ exact (runSemanticChecks_ids page) | exact (runImageChecks_ids page)
                 | exact (runVisualChecks_ids page) | exact (runResponsiveChecks_ids page)
                 | exact (runMultimediaChecks_ids page) | exact (runInputMethodChecks_ids page)
                 | exact (runFormChecks_ids page) | exact (runDynamicChecks_ids page) ]|]).
  done.
Qed.

Lemma custom_ids_NoDup : NoDup custom_ids.
Proof. apply (bool_decide_unpack _). by vm_compute. Qed.

(** No check is reported twice for a page: the ids of the results of
    [runCustomChecks] are pairwise different, the error results of the
    chapter modules that threw included. *)
Theorem runCustomChecks_distinct_ids (page : Page) (url : string) :
  NoDup (map cr_id (runCustomChecks page url)).
Proof. eapply sublist_NoDup; [apply custom_ids_NoDup|apply custom_checks_ids]. Qed.

Lemma run_result_ids visits r :
  r ∈ customResults (run visits) -> cr_id r ∈ "page-load" :: custom_ids.
Proof.
  rewrite run_customResults. intros Hr.
  apply elem_of_concat in Hr as (results & Hr & Hresults).
  apply list_elem_of_fmap in Hresults as (v & -> & Hv).
  unfold visit_results in Hr. destruct (load_error v) as [message|].
  - apply list_elem_of_singleton in Hr as ->. apply list_elem_of_here.
  - apply list_elem_of_further.
    eapply elem_of_sublist; [|apply (custom_checks_ids (v_page v) (v_url v))].
    apply list_elem_of_fmap. by exists r.
Qed.

End CustomCheckFacts.

Section CatalogueFacts.
Import Js Checks Checklists Remediation Runner Report Vocabulary Wcag Terms.
Local Open Scope list_scope.

Lemma catalogue_entries e :
  catalogue_entry e ->
  e ∈ REMEDIATION_MAP_entries.*2
  \/ Some e ∈ AXE_REMEDIATION_entries.*2
  \/ e = generic_entry.
Proof.
  intros [(id & Hid)|[(id & Hid)| -> ]]; [left|right; left|by right; right].
  - rewrite REMEDIATION_MAP_unfold in Hid. apply elem_of_list_to_map_2 in Hid.
    apply list_elem_of_fmap. by exists (id, e).
  - rewrite AXE_REMEDIATION_unfold in Hid. apply elem_of_list_to_map_2 in Hid.
    apply list_elem_of_fmap. by exists (id, Some e).
Qed.

(** Every success criterion that an entry of the remediation catalogues
    cites has a slug, so [wcagScUrl] links it to its own Understanding page
    and never falls back to the quick reference. *)
Theorem catalogue_criteria_have_pages (e : RemediationEntry) (sc : string) :
  catalogue_entry e -> sc ∈ wcag e ->
  exists slug, SC_TO_SLUG !! sc = Some slug
               /\ slug <> EmptyString
               /\ wcagScUrl sc = W3C_BASE +:+ slug +:+ ".html".
Proof.
  intros He Hsc.
  set (linked := fun sc : string =>
         is_Some (SC_TO_SLUG !! sc)
         /\ default EmptyString (SC_TO_SLUG !! sc) <> EmptyString
         /\ wcagScUrl sc = W3C_BASE +:+ default EmptyString (SC_TO_SLUG !! sc) +:+ ".html").
  assert (linked sc) as ([slug Hslug] & Hne & Hurl).
  { assert (Forall (fun e => Forall linked (wcag e)) REMEDIATION_MAP_entries.*2) as Hrem
      by (apply (bool_decide_unpack _); by vm_compute).
    assert (Forall (fun e => Forall linked (wcag (default generic_entry e)))
                   AXE_REMEDIATION_entries.*2) as Haxe
      by (apply (bool_decide_unpack _); by vm_compute).
    destruct (catalogue_entries e He) as [Hin|[Hin| ->]].
    - apply (proj1 (Forall_forall _ _) Hrem) in Hin.
      by apply (proj1 (Forall_forall _ _) Hin).
    - apply (proj1 (Forall_forall _ _) Haxe) in Hin.
      by apply (proj1 (Forall_forall _ _) Hin).
    - by apply elem_of_nil in Hsc. }
  exists slug. rewrite Hslug in Hne, Hurl. by split_and!.
Qed.

Lemma catalogue_criteria_have_pages_witness :
  exists slug, SC_TO_SLUG !! "1.1.1" = Some slug
               /\ slug <> EmptyString
               /\ wcagScUrl "1.1.1" = W3C_BASE +:+ slug +:+ ".html".
Proof.
  apply (catalogue_criteria_have_pages
           {| wcag := ["1.1.1"];
              snippet := "<img src=" +:+ dq +:+ "photo.jpg" +:+ dq +:+ " alt=" +:+ dq
                         +:+ "Description of the image" +:+ dq +:+ ">";
              impact := "high"; effort := "simple" |} "1.1.1").
  - left. exists "img-alt". by vm_compute.
  - vm_compute. apply list_elem_of_here.
Defined.

(** The ids of the results of a run name no built-in. *)
Lemma run_result_ids_plain visits r :
  r ∈ customResults (run visits) -> plain_key (cr_id r).
Proof.
  intros Hr. apply run_result_ids in Hr.
  assert (Forall plain_key ("page-load" :: custom_ids)) as Hall
    by (apply (bool_decide_unpack _); by vm_compute).
  rewrite Forall_forall in Hall. by apply Hall.
Qed.

(** For a check result of a run, [getRemediation] finds the entry of the
    check in the catalogue of the checks; it falls back to the generic
    entry only for the error result of a chapter module that threw.  The
    entry it returns rates the impact high or medium and the effort simple,
    moderate or complex, so [fixOrderScore] never needs its default
    rank. *)
Theorem run_results_remediation (visits : list Visit) (r : CheckResult) :
  r ∈ customResults (run visits) ->
  exists entry,
    getRemediation (Some (cr_id r)) None = Js.Data entry
    /\ ((is_chapter_error r /\ entry = generic_entry)
        \/ (~ is_chapter_error r /\ REMEDIATION_MAP !! cr_id r = Some entry))
    /\ impact entry ∈ ["high"; "medium"]
    /\ effort entry ∈ efforts
    /\ is_Some (IMPACT_ORDER !! impact entry)
    /\ is_Some (EFFORT_ORDER !! effort entry).
Proof.
  intros Hr. apply run_result_ids in Hr. unfold is_chapter_error.
  generalize dependent (cr_id r). clear r. intros id Hid.
  set (entry_of := fun id : string =>
         default generic_entry (REMEDIATION_MAP !! id)).
  assert (Forall (fun id =>
            getRemediation (Some id) None = Js.Data (entry_of id)
            /\ ((id ∈ chapter_error_ids /\ entry_of id = generic_entry)
                \/ ((id ∉ chapter_error_ids)
                    /\ REMEDIATION_MAP !! id = Some (entry_of id)))
            /\ impact (entry_of id) ∈ ["high"; "medium"]
            /\ effort (entry_of id) ∈ efforts
            /\ is_Some (IMPACT_ORDER !! impact (entry_of id))
            /\ is_Some (EFFORT_ORDER !! effort (entry_of id)))
          ("page-load" :: custom_ids)) as Hall
    by (apply (bool_decide_unpack _); by vm_compute).
  rewrite Forall_forall in Hall. exists (entry_of id). by apply Hall.
Qed.

Lemma run_results_remediation_witness :
  let r := page_load_error "net::ERR_NAME_NOT_RESOLVED" "https://unreachable.example/" in
  exists entry,
    getRemediation (Some (cr_id r)) None = Js.Data entry
    /\ ((is_chapter_error r /\ entry = generic_entry)
        \/ (~ is_chapter_error r /\ REMEDIATION_MAP !! cr_id r = Some entry))
    /\ impact entry ∈ ["high"; "medium"]
    /\ effort entry ∈ efforts
    /\ is_Some (IMPACT_ORDER !! impact entry)
    /\ is_Some (EFFORT_ORDER !! effort entry).
Proof.
  apply (run_results_remediation [Samples.failing_visit "https://unreachable.example/"]).
  vm_compute. apply list_elem_of_here.
Defined.

Lemma run_result_disabilities visits r :
  r ∈ customResults (run visits) ->
  ((is_page_load r \/ is_chapter_error r) /\ listed_for r = Js.Data ["Various"])
  \/ (~ is_page_load r /\ ~ is_chapter_error r
      /\ exists ds,
           listed_for r = Js.Data ds
           /\ DISABILITY_MAP !! cr_id r = Some ds
           /\ ds <> []
           /\ ("Various" ∉ ds)
           /\ ds ⊆ ALL_DISABILITIES).
Proof.
  intros Hr. apply run_result_ids in Hr. unfold is_chapter_error, is_page_load, listed_for.
  generalize dependent (cr_id r). clear r. intros id Hid.
  set (ds_of := fun id : string => default ["Various"] (DISABILITY_MAP !! id)).
  assert (Forall (fun id =>
            default (Js.Data ["Various"]) (Js.index DISABILITY_MAP id) = Js.Data (ds_of id)
            /\ (((id = "page-load" \/ id ∈ chapter_error_ids) /\ ds_of id = ["Various"])
                \/ (id <> "page-load" /\ (id ∉ chapter_error_ids)
                    /\ DISABILITY_MAP !! id = Some (ds_of id)
                    /\ ds_of id <> []
                    /\ ("Various" ∉ ds_of id)
                    /\ Forall (fun d => d ∈ ALL_DISABILITIES) (ds_of id))))
          ("page-load" :: custom_ids)) as Hall
    by (apply (bool_decide_unpack _); by vm_compute).
  rewrite Forall_forall in Hall. specialize (Hall id Hid).
  destruct Hall as [Hl [[? Hv]|(? & ? & ? & ? & ? & Hsub)]].
  - left. split; [done|]. by rewrite Hl, Hv.
  - right. split_and!; [done..|]. exists (ds_of id). split_and!; [done..|].
    intros d Hd. rewrite Forall_forall in Hsub. by apply Hsub.
Qed.

(** For a check result of a run, the disabilities counted are those the
    catalogue lists for its id, each one of the known categories and none
    of them "Various"; only a page-load failure and the error result of a
    chapter module that threw count for "Various". *)
Theorem run_results_disabilities (visits : list Visit) (r : CheckResult) :
  r ∈ customResults (run visits) ->
  ((is_page_load r \/ is_chapter_error r) /\ listed_for r = Js.Data ["Various"])
  \/ (~ is_page_load r /\ ~ is_chapter_error r
      /\ exists ds,
           listed_for r = Js.Data ds
           /\ DISABILITY_MAP !! cr_id r = Some ds
           /\ ds <> []
           /\ ("Various" ∉ ds)
           /\ ds ⊆ ALL_DISABILITIES).
Proof. apply run_result_disabilities. Qed.

Lemma run_results_disabilities_witness :
  let r := page_load_error "net::ERR_NAME_NOT_RESOLVED" "https://unreachable.example/" in
  ((is_page_load r \/ is_chapter_error r) /\ listed_for r = Js.Data ["Various"])
  \/ (~ is_page_load r /\ ~ is_chapter_error r
      /\ exists ds,
           listed_for r = Js.Data ds
           /\ DISABILITY_MAP !! cr_id r = Some ds
           /\ ds <> []
           /\ ("Various" ∉ ds)
           /\ ds ⊆ ALL_DISABILITIES).
Proof.
  apply (run_results_disabilities [Samples.failing_visit "https://unreachable.example/"]).
  vm_compute. apply list_elem_of_here.
Defined.

End CatalogueFacts.

(** ** The lists of the deliverables *)

Section DeliverableFacts.
Import Js Remediation Deliverables Statement Vocabulary Terms.
Local Open Scope list_scope.

Lemma jsdict_keys_set {V} k (x : V) m :
  JsDict.keys (JsDict.set k x m) = JsSet.add k (JsDict.keys m).
Proof.
  unfold JsDict.keys, JsSet.add.
  induction m as [|[k' x'] m IH]; cbn [JsDict.set fmap list_fmap fst].
  - by rewrite decide_False by apply not_elem_of_nil.
  - destruct (decide (k' = k)) as [->|Hne]; cbn [fmap list_fmap fst].
    + by rewrite decide_True by apply list_elem_of_here.
    + rewrite IH. destruct (decide (k ∈ m.*1)) as [Hin|Hin].
      * by rewrite decide_True by by apply list_elem_of_further.
      * rewrite decide_False; [done|]. intros [?|?]%elem_of_cons; congruence.
Qed.

Lemma jsdict_keys_foldl {A V} (key : A -> string) (val : A -> V) xs m :
  JsDict.keys (foldl (fun m x => JsDict.set (key x) (val x) m) m xs)
  = JsSet.add_all (map key xs) (JsDict.keys m).
Proof.
  unfold JsSet.add_all. revert m.
  induction xs as [|x xs IH]; intros m; cbn [foldl map]; [done|].
  by rewrite IH, jsdict_keys_set.
Qed.

Lemma jsdict_get_foldl {A V} (key : A -> string) (val : A -> V) xs m k :
  JsDict.get k (foldl (fun m x => JsDict.set (key x) (val x) m) m xs)
  = match last (filter (fun x => key x = k) xs) with
    | Some x => Some (val x)
    | None => JsDict.get k m
    end.
Proof.
  revert m. induction xs as [|x xs IH] using rev_ind; intros m; [done|].
  rewrite foldl_app. cbn [foldl]. rewrite jsdict_get_set, filter_app.
  destruct (decide (key x = k)) as [Hk|Hk].
  - rewrite (filter_cons_True (fun x => key x = k)) by done.
    by rewrite filter_nil, last_snoc.
  - rewrite (filter_cons_False (fun x => key x = k)) by done.
    rewrite filter_nil, app_nil_r. apply IH.
Qed.

Lemma jsdict_get_elem {V} (m : list (string * V)) k x :
  JsDict.get k m = Some x -> (k, x) ∈ m.
Proof.
  induction m as [|[k' x'] m IH]; cbn [JsDict.get]; [done|].
  case_decide as Hk.
  - intros [= ->]. subst. apply list_elem_of_here.
  - intros H. apply list_elem_of_further. by apply IH.
Qed.

Lemma jsdict_elem_get {V} (m : list (string * V)) k x :
  NoDup (JsDict.keys m) -> (k, x) ∈ m -> JsDict.get k m = Some x.
Proof.
  unfold JsDict.keys.
  induction m as [|[k' x'] m IH]; cbn [JsDict.get fmap list_fmap fst].
  - by intros _ ?%elem_of_nil.
  - intros [Hk' Hnd]%NoDup_cons [Heq|Hin]%elem_of_cons.
    + injection Heq as -> ->. by rewrite decide_True.
    + rewrite decide_False; [by apply IH|].
      intros ->. apply Hk'. apply list_elem_of_fmap. by exists (k, x).
Qed.

Lemma uniqueByRule_keys items :
  NoDup (JsDict.keys (foldl (fun m i => JsDict.set (fi_rule i) i m) [] items)).
Proof.
  rewrite (jsdict_keys_foldl fi_rule id). apply jsset_add_all_NoDup, NoDup_nil_2.
Qed.

Lemma uniqueByRule_elem items i :
  i ∈ uniqueByRule items <-> last (filter (fun j => fi_rule j = fi_rule i) items) = Some i.
Proof.
  unfold uniqueByRule, JsDict.values. split.
  - intros Hi. apply list_elem_of_fmap in Hi as ([k j] & -> & Hkj). cbn [snd].
    apply jsdict_elem_get in Hkj; [|apply uniqueByRule_keys].
    rewrite (jsdict_get_foldl fi_rule id) in Hkj. cbn [JsDict.get id] in Hkj.
    destruct (last (filter (fun x => fi_rule x = k) items)) as [j'|] eqn:Hlast; [|done].
    injection Hkj as ->.
    assert (j ∈ filter (fun x => fi_rule x = k) items) as Hin.
    { apply last_Some in Hlast as (l' & ->). apply elem_of_app. right. apply list_elem_of_here. }
    apply list_elem_of_filter in Hin as [<- _]. done.
  - intros Hlast. apply list_elem_of_fmap. exists (fi_rule i, i). split; [done|].
    apply jsdict_get_elem. rewrite (jsdict_get_foldl fi_rule id). by rewrite Hlast.
Qed.

Lemma uniqueByRule_rules items :
  map fi_rule (uniqueByRule items) = uniqueRules items.
Proof.
  unfold uniqueRules. etrans; [|exact (jsdict_keys_foldl fi_rule id items [])].
  unfold uniqueByRule, JsDict.values, JsDict.keys.
  rewrite <- list_fmap_compose. apply list_fmap_ext.
  intros n [k i] Hlookup. cbn [compose fst snd].
  apply list_elem_of_lookup_2 in Hlookup.
  apply jsdict_elem_get in Hlookup; [|apply uniqueByRule_keys].
  rewrite (jsdict_get_foldl fi_rule id) in Hlookup. cbn [JsDict.get id] in Hlookup.
  destruct (last (filter (fun x => fi_rule x = k) items)) as [j|] eqn:Hlast; [|done].
  injection Hlookup as ->.
  assert (i ∈ filter (fun x => fi_rule x = k) items) as Hin.
  { apply last_Some in Hlast as (l' & ->). apply elem_of_app. right. apply list_elem_of_here. }
  by apply list_elem_of_filter in Hin as [? _].
Qed.

(** [uniqueByRule] lists every rule of its argument once, in the order in
    which the rules first occur: its rules are the [uniqueRules] of the
    accessibility statement. *)
Theorem uniqueByRule_lists_each_rule_once (items : list FixOrderItem) :
  map fi_rule (uniqueByRule items) = uniqueRules items
  /\ NoDup (map fi_rule (uniqueByRule items))
  /\ (forall rule, rule ∈ map fi_rule (uniqueByRule items) <-> rule ∈ map fi_rule items).
Proof.
  rewrite uniqueByRule_rules. unfold uniqueRules. split_and!.
  - done.
  - apply jsset_add_all_NoDup, NoDup_nil_2.
  - intros rule. rewrite jsset_add_all_elem. split; [|by left].
    intros [?|?%elem_of_nil]; done.
Qed.

(** Of the items that share a rule, [uniqueByRule] keeps the last one (at
    the place of the first): an item is in the result exactly when no later
    item of the argument has its rule. *)
Theorem uniqueByRule_keeps_last (items : list FixOrderItem) (i : FixOrderItem) :
  i ∈ uniqueByRule items <->
  exists before after,
    items = before ++ i :: after /\ Forall (fun j => fi_rule j <> fi_rule i) after.
Proof.
  rewrite uniqueByRule_elem. split.
  - intros Hlast. apply last_Some in Hlast as (l' & Hfilter).
    assert (forall (xs : list FixOrderItem) l',
              filter (fun j => fi_rule j = fi_rule i) xs = l' ++ [i] ->
              exists before after, xs = before ++ i :: after
                /\ Forall (fun j => fi_rule j <> fi_rule i) after) as Hgen.
    { clear. induction xs as [|x xs IH] using rev_ind; intros l' Hf.
      - by destruct l'.
      - rewrite filter_app in Hf.
        destruct (decide (fi_rule x = fi_rule i)) as [Hx|Hx].
        + rewrite (filter_cons_True (fun j => fi_rule j = fi_rule i)) in Hf by done.
          rewrite filter_nil in Hf. apply app_inj_tail in Hf as [_ ->].
          exists xs, []. by split.
        + rewrite (filter_cons_False (fun j => fi_rule j = fi_rule i)) in Hf by done.
          rewrite filter_nil, app_nil_r in Hf.
          destruct (IH _ Hf) as (before & after & -> & Hafter).
          exists before, (after ++ [x]). split; [by rewrite <- app_assoc|].
          apply Forall_app. split; [done|by apply Forall_singleton]. }
    by eapply Hgen.
  - intros (before & after & -> & Hafter).
    rewrite filter_app, (filter_cons_True (fun j => fi_rule j = fi_rule i)) by done.
    replace (filter (fun j => fi_rule j = fi_rule i) after) with (@nil FixOrderItem).
    + by rewrite last_snoc.
    + symmetry. induction Hafter as [|x after Hx _ IH]; [done|].
      by rewrite (filter_cons_False (fun j => fi_rule j = fi_rule i)) by done.
Qed.

Lemma uniqueByRule_keeps_last_witness :
  Samples.captions_item ∈ uniqueByRule [Samples.img_alt_item; Samples.captions_item].
Proof.
  apply (uniqueByRule_keeps_last [Samples.img_alt_item; Samples.captions_item]).
  exists [Samples.img_alt_item], []. split; [reflexivity|apply Forall_nil_2].
Defined.

Lemma phase_of_known_impact i :
  fi_impact i ∈ impacts ->
  quickWins_pred i = true \/ mediumEffort_pred i = true \/ longTerm_pred i = true.
Proof.
  unfold impacts, quickWins_pred, mediumEffort_pred, longTerm_pred.
  intros Himpact. repeat (apply elem_of_cons in Himpact as [->|Himpact]);
    [..|by apply elem_of_nil in Himpact];
    destruct (decide (fi_effort i = "simple")) as [->|Hne];
    rewrite ?(bool_decide_eq_false_2 (fi_effort i = "simple")) by done;
    cbn; auto.
  all: destruct (bool_decide (fi_effort i = "complex")); auto.
Qed.

(** No fix-order item whose impact is high, medium or low is left out of
    the remediation plan of the client presentation, whatever its effort:
    its rule is listed in at least one of the three phases. *)
Theorem phases_list_every_known_impact
    (fixOrderItems : list FixOrderItem) (i : FixOrderItem) :
  i ∈ fixOrderItems -> fi_impact i ∈ impacts ->
  fi_rule i ∈ map fi_rule (quickWins fixOrderItems)
  \/ fi_rule i ∈ map fi_rule (mediumEffort fixOrderItems)
  \/ fi_rule i ∈ map fi_rule (longTerm fixOrderItems).
Proof.
  intros Hi Himpact.
  assert (forall (p : FixOrderItem -> bool), p i = true ->
            fi_rule i ∈ map fi_rule (uniqueByRule (filter (fun i => p i = true) fixOrderItems)))
    as Hlisted.
  { intros p Hp. rewrite uniqueByRule_rules. unfold uniqueRules.
    apply jsset_add_all_elem. left. apply list_elem_of_fmap. exists i.
    split; [done|]. by apply list_elem_of_filter. }
  unfold quickWins, mediumEffort, longTerm.
  destruct (phase_of_known_impact i Himpact) as [H|[H|H]]; eauto.
Qed.

Lemma phases_list_every_known_impact_witness :
  let items := [Samples.img_alt_item; Samples.captions_item] in
  fi_rule Samples.captions_item ∈ map fi_rule (quickWins items)
  \/ fi_rule Samples.captions_item ∈ map fi_rule (mediumEffort items)
  \/ fi_rule Samples.captions_item ∈ map fi_rule (longTerm items).
Proof.
  apply (phases_list_every_known_impact
           [Samples.img_alt_item; Samples.captions_item] Samples.captions_item).
  - apply list_elem_of_further, list_elem_of_here.
  - apply (bool_decide_unpack _). by vm_compute.
Defined.

End DeliverableFacts.

(** ** The classifier, tag by tag *)

Section ClassifierFacts.
Import Js Checklists AxeScan Vocabulary Terms.
Local Open Scope list_scope.

Lemma chapters_of_union v c :
  c ∈ chapters_of v <->
  (exists tag chs, tag ∈ default [] (ar_tags v)
                   /\ AXE_TAG_TO_CHAPTER !! tag = Some chs /\ c ∈ chs)
  \/ (c = "semantics"
      /\ forall tag chs, tag ∈ default [] (ar_tags v) ->
           AXE_TAG_TO_CHAPTER !! tag = Some chs -> chs = []).
Proof.
  unfold chapters_of. cbv zeta.
  set (tags := default [] (ar_tags v)).
  assert (forall x, x ∈ collect [] tags <->
            exists tag chs, tag ∈ tags /\ AXE_TAG_TO_CHAPTER !! tag = Some chs /\ x ∈ chs)
    as Hcollect.
  { intros x. rewrite collect_elem. split; [|by right].
    intros [?%elem_of_nil|?]; done. }
  case_decide as Hlen.
  - apply length_zero_iff_nil in Hlen.
    assert (forall tag chs, tag ∈ tags -> AXE_TAG_TO_CHAPTER !! tag = Some chs -> chs = [])
      as Hnone.
    { intros tag [|x chs] Htag Hchs; [done|].
      assert (x ∈ collect [] tags) as Hx.
      { apply Hcollect. exists tag, (x :: chs). split_and!; [done..|apply list_elem_of_here]. }
      rewrite Hlen in Hx. apply elem_of_nil in Hx. destruct Hx. }
    rewrite Hlen. unfold JsSet.add.
    rewrite decide_False by apply not_elem_of_nil. cbn [app].
    rewrite list_elem_of_singleton. split.
    + intros ->. by right.
    + intros [(tag & chs & Htag & Hchs & Hc)|[-> _]]; [|done].
      rewrite (Hnone tag chs Htag Hchs) in Hc. apply elem_of_nil in Hc. destruct Hc.
  - rewrite Hcollect. split; [by left|].
    intros [?|[-> Hnone]]; [done|]. exfalso. apply Hlen.
    destruct (collect [] tags) as [|x xs]; [done|].
    assert (x ∈ x :: xs) as Hx by apply list_elem_of_here.
    apply Hcollect in Hx as (tag & chs & Htag & Hchs & Hx).
    rewrite (Hnone tag chs Htag Hchs) in Hx. apply elem_of_nil in Hx. destruct Hx.
Qed.

(** The classifier throws exactly for a record with a tag that names a
    property the tag table inherits from [Object.prototype].  For any other
    record its result is the union of the chapters of the tags, each chapter
    once: a chapter is returned exactly when the table gives it for one of
    the tags, and "semantics" is returned besides when no tag gives any
    chapter.  Tags that are not in the table and name no inherited property
    have no effect. *)
Theorem categorize_is_union (v : AxeRecord) :
  (~ plain_record v -> categorizeAxeViolation v = None)
  /\ (plain_record v ->
      exists chapters,
        categorizeAxeViolation v = Some chapters
        /\ NoDup chapters
        /\ forall c,
             c ∈ chapters <->
             (exists tag chs, tag ∈ default [] (ar_tags v)
                              /\ AXE_TAG_TO_CHAPTER !! tag = Some chs /\ c ∈ chs)
             \/ (c = "semantics"
                 /\ forall tag chs, tag ∈ default [] (ar_tags v) ->
                      AXE_TAG_TO_CHAPTER !! tag = Some chs -> chs = [])).
Proof.
  split; [apply categorize_builtin|].
  intros Hplain. exists (chapters_of v). split_and!.
  - by apply categorize_plain.
  - apply chapters_of_NoDup.
  - apply chapters_of_union.
Qed.

End ClassifierFacts.

(** ** The report of a run, result by result *)

Section RunResultFacts.
Import Js Checks Checklists AxeScan Runner Report Vocabulary View Terms.
Local Open Scope list_scope.

Lemma count_partition results :
  (count_status "pass" results + count_status "fail" results + count_other results
   = N.of_nat (length results))%N.
Proof.
  unfold count_status, count_other.
  induction results as [|r results IH]; [done|].
  destruct (decide (cr_status r = "pass")) as [Hp|Hp].
  - rewrite (filter_cons_True (fun r => cr_status r = "pass")) by done.
    rewrite (filter_cons_False (fun r => cr_status r = "fail")) by congruence.
    rewrite (filter_cons_False (fun r => cr_status r <> "pass" /\ _)) by tauto.
    cbn [length]. lia.
  - rewrite (filter_cons_False (fun r => cr_status r = "pass")) by done.
    destruct (decide (cr_status r = "fail")) as [Hf|Hf].
    + rewrite (filter_cons_True (fun r => cr_status r = "fail")) by done.
      rewrite (filter_cons_False (fun r => cr_status r <> "pass" /\ _)) by tauto.
      cbn [length]. lia.
    + rewrite (filter_cons_False (fun r => cr_status r = "fail")) by done.
      rewrite (filter_cons_True (fun r => cr_status r <> "pass" /\ _)) by tauto.
      cbn [length]. lia.
Qed.

(** The three counters of the summary add up to the number of check
    results: every result of a run, the page-load failures included, is
    counted once, as a pass, a failure or a warning. *)
Theorem summary_adds_up (visits : list Visit) :
  (pass (summary (run visits)) + fail (summary (run visits)) + warn (summary (run visits))
   = N.of_nat (length (customResults (run visits))))%N.
Proof.
  destruct (summary_counts visits) as (-> & -> & ->). apply count_partition.
Qed.

Lemma visit_results_of v r :
  r ∈ visit_results v ->
  cr_url r = Some (v_url v)
  /\ cr_status r ∈ statuses
  /\ (is_page_load r <-> failed v).
Proof.
  unfold visit_results, failed, is_page_load.
  destruct (load_error v) as [message|] eqn:Herr.
  - intros ->%list_elem_of_singleton. split_and!; [done| |].
    + apply (bool_decide_unpack _). by vm_compute.
    + split; [by eexists|done].
  - intros Hr. pose proof (runCustomChecks_results (v_page v) (v_url v)) as Hall.
    rewrite Forall_forall in Hall. destruct (Hall r Hr) as (Hid & _ & Hurl & Hst).
    split_and!; [done..|]. split; [done|]. by intros [? [=]].
Qed.

(** Every check result of a run names the URL of the visit that produced
    it and has one of the four statuses; it is a page-load failure exactly
    when that visit failed. *)
Theorem run_results_url_and_status (visits : list Visit) (r : CheckResult) :
  r ∈ customResults (run visits) ->
  cr_status r ∈ statuses
  /\ exists v, v ∈ visits /\ cr_url r = Some (v_url v) /\ (is_page_load r <-> failed v).
Proof.
  rewrite run_customResults. intros Hr.
  apply elem_of_concat in Hr as (results & Hr & Hresults).
  apply list_elem_of_fmap in Hresults as (v & -> & Hv).
  destruct (visit_results_of v r Hr) as (Hurl & Hst & Hpl).
  split; [done|]. by exists v.
Qed.

Lemma run_results_url_and_status_witness :
  let r := page_load_error "net::ERR_NAME_NOT_RESOLVED" "https://unreachable.example/" in
  let visits := [Samples.failing_visit "https://unreachable.example/"] in
  cr_status r ∈ statuses
  /\ exists v, v ∈ visits /\ cr_url r = Some (v_url v) /\ (is_page_load r <-> failed v).
Proof.
  apply (run_results_url_and_status [Samples.failing_visit "https://unreachable.example/"]).
  vm_compute. apply list_elem_of_here.
Defined.

Lemma loop_axeResults_set visits report :
  axeResults (foldl test_url report visits) =
  foldl (fun m v => JsDict.set (v_url v) (scan_of v) m)
        (axeResults report) (filter loaded visits).
Proof.
  revert report. induction visits as [|v visits IH]; intros report; cbn [foldl]; [done|].
  rewrite IH. destruct (load_error v) as [message|] eqn:Herr.
  - rewrite (test_url_failed _ _ _ Herr).
    rewrite filter_cons_False; [done|]. unfold loaded. by rewrite Herr.
  - rewrite (test_url_loaded _ _ Herr). by rewrite filter_cons_True by done.
Qed.

(** [urls] lists the URLs whose visit loaded, in the order of the run and
    as often as they were visited; the keys of [axeResults] are the same
    URLs, each once, in the order of their first visit that loaded. *)
Theorem run_urls_in_order (visits : list Visit) :
  urls (run visits) = map v_url (filter loaded visits)
  /\ JsDict.keys (axeResults (run visits)) = JsSet.add_all (urls (run visits)) [].
Proof.
  assert (urls (run visits) = map v_url (filter loaded visits)) as Hurls.
  { unfold run. by rewrite loop_urls. }
  split; [done|]. rewrite Hurls. unfold run. rewrite loop_axeResults_set.
  apply (jsdict_keys_foldl v_url scan_of).
Qed.

Lemma last_loaded_visit (visits : list Visit) (u : string) v :
  last (filter (fun v => v_url v = u /\ loaded v) visits) = Some v ->
  v_url v = u /\ loaded v.
Proof.
  intros Hlast. apply last_Some in Hlast as (l' & Hl').
  assert (v ∈ filter (fun v => v_url v = u /\ loaded v) visits) as Hin.
  { rewrite Hl'. apply elem_of_app. right. apply list_elem_of_here. }
  by apply list_elem_of_filter in Hin as [? _].
Qed.

Lemma axeResults_get (visits : list Visit) (u : string) :
  JsDict.get u (axeResults (run visits)) =
  scan_of <$> last (filter (fun v => v_url v = u /\ loaded v) visits).
Proof.
  unfold run. rewrite loop_axeResults_set.
  rewrite (jsdict_get_foldl v_url scan_of).
  rewrite list_filter_filter. by cbn [axeResults initial_report JsDict.get].
Qed.

(** The audit data the report holds for a URL is what [runAxeScan]
    resolved to for the last visit of the URL that loaded; a URL without
    such a visit has none. *)
Theorem axeResults_of_last_visit (visits : list Visit) (u : string) :
  Resolved <$> JsDict.get u (axeResults (run visits)) =
  (fun v => runAxeScan (audit_of v) u)
    <$> last (filter (fun v => v_url v = u /\ loaded v) visits).
Proof.
  rewrite axeResults_get.
  destruct (last (filter (fun v => v_url v = u /\ loaded v) visits)) as [v|] eqn:Hlast;
    cbn [fmap option_fmap option_map]; [|done].
  apply last_loaded_visit in Hlast as [<- Hok]. by rewrite loaded_scan.
Qed.

Lemma scan_of_byChapter v ch :
  loaded v ->
  ad_byChapter (scan_of v) !! ch =
  if decide (ch ∈ chapter_keys)
  then Some {| b_violations := routed_to ch (violations (audit_of v));
               b_incomplete := routed_to ch (incomplete (audit_of v));
               b_passes := routed_to ch (passes (audit_of v)) |}
  else None.
Proof.
  intros Hok. apply loaded_scan, runAxeScan_Resolved in Hok as (byChapter & Hb & Hdata).
  rewrite Hdata. cbn [ad_byChapter]. by apply build_byChapter_lookup.
Qed.

(** Under a chapter and a URL the report shows the violations of the last
    visit of the URL that loaded which the classifier sends to the chapter,
    in the order of the audit, and none for another key or a URL that never
    loaded. *)
Theorem axeViolations_routed (visits : list Visit) (ch u : string) :
  axeViolations (run visits) ch u =
  match last (filter (fun v => v_url v = u /\ loaded v) visits) with
  | Some v => if decide (ch ∈ chapter_keys)
              then routed_to ch (violations (audit_of v)) else []
  | None => []
  end.
Proof.
  unfold axeViolations. rewrite axeResults_get.
  destruct (last (filter (fun v => v_url v = u /\ loaded v) visits)) as [v|] eqn:Hlast;
    cbn [fmap option_fmap option_map]; [|done].
  apply last_loaded_visit in Hlast as [_ Hok].
  rewrite (scan_of_byChapter _ _ Hok). by case_decide.
Qed.

End RunResultFacts.

(** ** What the report shows *)

Section ViewFacts.
Import Js Checks Checklists AxeScan Runner Report Vocabulary View Terms.
Local Open Scope list_scope.

Lemma filter_concat {A} (P : A -> Prop) `{forall x, Decision (P x)} (ls : list (list A)) :
  filter P (concat ls) = concat (map (filter P) ls).
Proof.
  induction ls as [|l ls IH]; cbn [concat map]; [done|].
  by rewrite filter_app, IH.
Qed.

Lemma filter_all {A} (P : A -> Prop) `{forall x, Decision (P x)} (l : list A) :
  Forall P l -> filter P l = l.
Proof.
  induction 1 as [|x l Hx _ IH]; [done|].
  by rewrite filter_cons_True, IH by done.
Qed.

Lemma filter_none {A} (P : A -> Prop) `{forall x, Decision (P x)} (l : list A) :
  Forall (fun x => ~ P x) l -> filter P l = [].
Proof.
  induction 1 as [|x l Hx _ IH]; [done|].
  by rewrite filter_cons_False, IH by done.
Qed.

Lemma concat_map_nil {A B} (f : A -> list B) (l : list A) :
  (forall x, x ∈ l -> f x = []) -> concat (map f l) = [].
Proof.
  induction l as [|x l IH]; cbn [map concat]; [done|]. intros Hnil.
  rewrite (Hnil x) by apply list_elem_of_here. cbn [app].
  apply IH. intros y Hy. apply Hnil. by apply list_elem_of_further.
Qed.

Lemma concat_map_single {A B K} (key : A -> K) (f : A -> list B) (l : list A) x0 :
  NoDup (map key l) -> x0 ∈ l ->
  (forall x, x ∈ l -> key x <> key x0 -> f x = []) ->
  concat (map f l) = f x0.
Proof.
  induction l as [|x l IH]; cbn [map concat]; [by intros _ ?%elem_of_nil|].
  intros [Hx Hnd]%NoDup_cons [->|Hin]%elem_of_cons Hnil.
  - rewrite concat_map_nil; [by rewrite app_nil_r|].
    intros y Hy. apply Hnil; [by apply list_elem_of_further|].
    intros Heq. apply Hx. rewrite <- Heq. apply list_elem_of_fmap. by exists y.
  - rewrite (Hnil x), (IH Hnd Hin); [done| |apply list_elem_of_here|].
    + intros z Hz. apply Hnil. by apply list_elem_of_further.
    + intros Heq. apply Hx. rewrite Heq. apply list_elem_of_fmap. by exists x0.
Qed.

Lemma outcome_results ch fn page url r :
  (ch, fn) ∈ chapters ->
  r ∈ chapter_outcome ch url (fn page) ->
  cr_chapter r = Some ch /\ cr_url r = Some url.
Proof.
  intros Hin Hr. pose proof chapters_entries as Hall. rewrite Forall_forall in Hall.
  destruct (Hall _ Hin) as (_ & _ & Hfn). cbn [fst snd] in Hfn. specialize (Hfn page).
  destruct (fn page) as [message|results]; cbn [chapter_outcome settled_all] in *.
  - apply list_elem_of_singleton in Hr as ->. done.
  - apply list_elem_of_fmap in Hr as (r0 & -> & Hr0).
    rewrite Forall_forall in Hfn. by destruct (Hfn r0 Hr0) as (_ & ? & _).
Qed.

Lemma chapters_keys_NoDup : NoDup (map fst chapters).
Proof. apply (bool_decide_unpack _). by vm_compute. Qed.

(** For a run of distinct URLs, the table the report shows under a chapter
    and a URL that loaded holds what the module of the chapter returned for
    the page, in its order and with the URL added, or the one error result
    that stands for the module when it threw: no result of another chapter
    or another URL, and none left out. *)
Theorem chapter_table_is_module_outcome
    (visits : list Visit) (v : Visit) (ch : string)
    (fn : Page -> Settled (list CheckResult)) :
  NoDup (map v_url visits) -> v ∈ visits -> loaded v -> (ch, fn) ∈ chapters ->
  custom (run visits) ch (v_url v) = chapter_outcome ch (v_url v) (fn (v_page v)).
Proof.
  intros Hnd Hv Hloaded Hch. unfold custom, customByChapter.
  rewrite run_customResults, list_filter_filter, filter_concat, <- list_fmap_compose.
  rewrite (concat_map_single v_url _ visits v Hnd Hv).
  - cbn [compose]. unfold visit_results. rewrite Hloaded.
    rewrite runCustomChecks_outcomes, filter_concat, <- list_fmap_compose.
    rewrite (concat_map_single fst _ chapters (ch, fn) chapters_keys_NoDup Hch).
    + cbn [compose fst snd]. apply filter_all. apply Forall_forall. intros r Hr.
      by destruct (outcome_results _ _ _ _ _ Hch Hr).
    + intros [ch' fn'] Hin Hne. cbn [compose fst snd] in *.
      apply filter_none. apply Forall_forall. intros r Hr [_ Hchap].
      destruct (outcome_results _ _ _ _ _ Hin Hr) as [Hchap' _]. congruence.
  - intros v' Hv' Hne. cbn [compose]. apply filter_none. apply Forall_forall.
    intros r Hr [Hurl _]. destruct (visit_results_of v' r Hr) as (Hurl' & _). congruence.
Qed.

Lemma chapter_table_is_module_outcome_witness :
  custom (run Samples.three_visits) "forms" "https://example.org/"
  = chapter_outcome "forms" "https://example.org/"
      (Chapter7.runFormChecks (v_page (Samples.clean_visit "https://example.org/"))).
Proof.
  apply (chapter_table_is_module_outcome Samples.three_visits
           (Samples.clean_visit "https://example.org/") "forms" Chapter7.runFormChecks).
  - apply (bool_decide_unpack _). by vm_compute.
  - apply list_elem_of_here.
  - reflexivity.
  - unfold chapters. do 6 apply list_elem_of_further. apply list_elem_of_here.
Defined.

(** The alert of a report that [main] wrote: when a URL failed to load it
    lists the page-load results of the failed visits, in the order of the
    run; otherwise every visit loaded and there is no alert.  The warning
    that no pages were tested is never shown for such a report. *)
Theorem main_report_alert (visits : list Visit) (report : RunReport) :
  main visits = Some report ->
  match alert report with
  | LoadErrorAlert errors => errors = load_failures visits /\ Exists failed visits
  | NoPagesAlert => False
  | NoAlert => Forall loaded visits /\ urls report = map v_url visits
  end.
Proof.
  unfold main. case_bool_decide as Hlen; [done|]. intros [= <-].
  assert (loadErrors (run visits) = load_failures visits) as Herrors.
  { unfold loadErrors. rewrite run_customResults. apply page_load_results. }
  unfold alert. rewrite Herrors.
  pose proof (load_failures_length visits) as Hfailed.
  case_bool_decide as Hsome.
  - split; [done|]. rewrite Hfailed in Hsome.
    destruct (filter failed visits) as [|v l] eqn:Hf; [cbn in Hsome; lia|].
    assert (v ∈ filter failed visits) as Hin by (rewrite Hf; apply list_elem_of_here).
    apply list_elem_of_filter in Hin as [Hv Hin]. apply Exists_exists. by exists v.
  - assert (Forall loaded visits) as Hall.
    { apply Forall_forall. intros v Hv. unfold loaded.
      destruct (load_error v) as [message|] eqn:Herr; [|done]. exfalso. apply Hsome.
      rewrite Hfailed.
      assert (v ∈ filter failed visits) as Hin.
      { apply list_elem_of_filter. split; [|done]. unfold failed. rewrite Herr. by eexists. }
      destruct (filter failed visits); [by apply elem_of_nil in Hin|cbn; lia]. }
    assert (urls (run visits) = map v_url visits) as Hurls.
    { unfold run. rewrite loop_urls. cbn [urls initial_report app].
      by rewrite (filter_all _ _ Hall). }
    rewrite Hurls, length_map. case_bool_decide; [done|]. done.
Qed.

Lemma main_report_alert_witness :
  match alert (run Samples.three_visits) with
  | LoadErrorAlert errors =>
      errors = load_failures Samples.three_visits /\ Exists failed Samples.three_visits
  | NoPagesAlert => False
  | NoAlert => Forall loaded Samples.three_visits
               /\ urls (run Samples.three_visits) = map v_url Samples.three_visits
  end.
Proof. apply (main_report_alert Samples.three_visits). reflexivity. Defined.

End ViewFacts.

(** ** Texts *)

Section TextFacts.
Import Text Terms.
Local Open Scope N_scope.
Local Open Scope list_scope.

Lemma take_while_Forall p t : Forall (fun c => p c = true) (take_while p t).
Proof.
  induction t as [|c t IH]; cbn [take_while]; [apply Forall_nil_2|].
  destruct (p c) eqn:Hc; [by apply Forall_cons|apply Forall_nil_2].
Qed.

Lemma take_while_app p a t :
  Forall (fun c => p c = true) a ->
  take_while p (a ++ t) = a ++ take_while p t.
Proof.
  induction 1 as [|c a Hc _ IH]; cbn [app take_while]; [done|].
  by rewrite Hc, IH.
Qed.

Lemma take_while_stop p c t : p c = false -> take_while p (c :: t) = [].
Proof. intros Hc. cbn [take_while]. by rewrite Hc. Qed.

Lemma drop_while_all p t : Forall (fun c => p c = false) t -> drop_while p t = t.
Proof. destruct 1 as [|c t Hc _]; cbn [drop_while]; [done|by rewrite Hc]. Qed.

Lemma drop_while_elem p t c : c ∈ drop_while p t -> c ∈ t.
Proof.
  induction t as [|x t IH]; cbn [drop_while]; [done|].
  destruct (p x); [|done]. intros Hc. by apply list_elem_of_further, IH.
Qed.

(** Cutting the characters of a class off the end of a text. *)
Lemma strip_snoc p u c :
  reverse (drop_while p (reverse (u ++ [c]))) =
  if p c then reverse (drop_while p (reverse u)) else u ++ [c].
Proof.
  rewrite reverse_snoc. cbn [drop_while]. destruct (p c); [done|].
  by rewrite reverse_cons, reverse_involutive.
Qed.

Lemma strip_keeps p a b c :
  last a = Some c -> p c = false ->
  reverse (drop_while p (reverse (a ++ b))) = a ++ reverse (drop_while p (reverse b)).
Proof.
  intros Hlast Hc. induction b as [|x b IH] using rev_ind.
  - rewrite app_nil_r. cbn [reverse rev_append drop_while]. rewrite app_nil_r.
    apply last_Some in Hlast as (a' & ->). by rewrite strip_snoc, Hc.
  - rewrite app_assoc, !strip_snoc. destruct (p x); [done|by rewrite app_assoc].
Qed.

Lemma strip_last p u c :
  last (reverse (drop_while p (reverse u))) = Some c -> p c = false.
Proof.
  induction u as [|x u IH] using rev_ind; [done|].
  rewrite strip_snoc. destruct (p x) eqn:Hx; [done|].
  rewrite last_snoc. by intros [= <-].
Qed.

Lemma strip_elem p u c : c ∈ reverse (drop_while p (reverse u)) -> c ∈ u.
Proof.
  rewrite elem_of_reverse. intros Hc%drop_while_elem. by apply elem_of_reverse.
Qed.

Lemma strip_fixed p u :
  (forall c, last u = Some c -> p c = false) ->
  reverse (drop_while p (reverse u)) = u.
Proof.
  destruct u as [|x u _] using rev_ind; [done|]. intros Hlast.
  rewrite strip_snoc, (Hlast x) by apply last_snoc. done.
Qed.

Lemma trim_elem t c : c ∈ trim t -> c ∈ t.
Proof. unfold trim. intros Hc%strip_elem. by apply drop_while_elem in Hc. Qed.

Lemma trim_fixed t :
  (forall c, head t = Some c -> is_space c = false) ->
  (forall c, last t = Some c -> is_space c = false) ->
  trim t = t.
Proof.
  intros Hhead Hlast. unfold trim.
  replace (drop_while is_space t) with t; [by apply strip_fixed|].
  destruct t as [|c t]; [done|]. cbn [drop_while]. by rewrite (Hhead c).
Qed.

Lemma take_while_elem p t c : c ∈ take_while p t -> c ∈ t.
Proof.
  induction t as [|x t IH]; cbn [take_while]; [done|].
  destruct (p x); [|by intros ?%elem_of_nil].
  intros [->|Hc]%elem_of_cons; [apply list_elem_of_here|by apply list_elem_of_further, IH].
Qed.

Lemma drop_while_head p t c : head (drop_while p t) = Some c -> p c = false.
Proof.
  induction t as [|x t IH]; cbn [drop_while]; [done|].
  destruct (p x) eqn:Hx; [done|]. by intros [= <-].
Qed.

Lemma trim_trim t : trim (trim t) = trim t.
Proof.
  apply trim_fixed; unfold trim.
  - destruct (drop_while is_space t) as [|x d] eqn:Hd; [done|].
    assert (is_space x = false) as Hx by (apply (drop_while_head is_space t); by rewrite Hd).
    change (x :: d) with ([x] ++ d).
    rewrite (strip_keeps is_space [x] d x) by done. by intros c [= <-].
  - intros c. apply strip_last.
Qed.

Lemma startsWith_app p t : startsWith p (p ++ t) = true.
Proof. unfold startsWith. apply bool_decide_eq_true_2. by rewrite take_app_length. Qed.

Lemma startsWith_prefix p q t :
  startsWith p q = true -> startsWith p (q ++ t) = true.
Proof.
  unfold startsWith. intros Hq%bool_decide_eq_true_1. apply bool_decide_eq_true_2.
  rewrite <- Hq at 2. rewrite <- (take_drop (length p) q) at 1.
  rewrite <- app_assoc. rewrite Hq. by rewrite take_app_length.
Qed.

Lemma distinct_elem xs (x : text) : x ∈ distinct xs <-> x ∈ xs.
Proof.
  unfold distinct. induction xs as [|y xs IH] using rev_ind; [done|].
  rewrite foldl_app. cbn [foldl]. rewrite elem_of_app, list_elem_of_singleton.
  case_decide as Hy.
  - rewrite IH. split; [by left|]. intros [?| ->]; [done|by apply IH].
  - rewrite elem_of_app, list_elem_of_singleton, IH. done.
Qed.

Lemma distinct_NoDup (xs : list text) : NoDup (distinct xs).
Proof.
  unfold distinct. induction xs as [|y xs IH] using rev_ind; [apply NoDup_nil_2|].
  rewrite foldl_app. cbn [foldl]. case_decide as Hy; [done|].
  apply NoDup_app. split_and!; [done| |apply NoDup_singleton].
  intros x Hx ->%list_elem_of_singleton. done.
Qed.

Lemma distinct_fixed (xs : list text) : NoDup xs -> distinct xs = xs.
Proof.
  unfold distinct. induction xs as [|y xs IH] using rev_ind; [done|].
  intros [Hxs [Hy _]]%NoDup_app. rewrite foldl_app. cbn [foldl]. rewrite (IH Hxs).
  rewrite decide_False; [done|]. intros Hin. apply (Hy y Hin), list_elem_of_here.
Qed.

End TextFacts.

(** ** The URLs the server reads *)

Section ExtractFacts.
Import Text Server Terms.
Local Open Scope N_scope.
Local Open Scope list_scope.

Lemma scheme_chars :
  Forall (fun c => url_char c = true) (lit "http://")
  /\ Forall (fun c => url_char c = true) (lit "https://")
  /\ last (lit "http://") = Some 47 /\ last (lit "https://") = Some 47
  /\ trailing_punct 47 = false.
Proof. split_and!; try reflexivity; apply (bool_decide_unpack _); by vm_compute. Qed.

Lemma after_scheme_Some scheme t u :
  after_scheme scheme t = Some u ->
  exists rest, rest <> [] /\ u = scheme ++ rest
               /\ rest = take_while url_char (drop (length scheme) t).
Proof.
  unfold after_scheme. destruct (startsWith scheme t); [|done].
  destruct (take_while url_char (drop (length scheme) t)) as [|c rest] eqn:Hrest; [done|].
  intros [= <-]. by exists (c :: rest).
Qed.

Lemma url_at_Some t u :
  url_at t = Some u ->
  (exists rest, rest <> [] /\ has_scheme u rest)
  /\ Forall (fun c => url_char c = true) u.
Proof.
  destruct scheme_chars as (Hhttp & Hhttps & _).
  unfold url_at, has_scheme.
  destruct (after_scheme (lit "https://") t) as [u'|] eqn:Hs.
  - intros [= <-]. apply after_scheme_Some in Hs as (rest & Hne & -> & ->).
    split; [eexists; split; [exact Hne|by right]|].
    apply Forall_app. split; [done|apply take_while_Forall].
  - intros Hp. apply after_scheme_Some in Hp as (rest & Hne & -> & ->).
    split; [eexists; split; [exact Hne|by left]|].
    apply Forall_app. split; [done|apply take_while_Forall].
Qed.

Lemma url_matches_elem skip t u :
  u ∈ url_matches skip t -> exists t', url_at t' = Some u.
Proof.
  revert skip. induction t as [|c t IH]; intros skip; cbn [url_matches].
  - by intros ?%elem_of_nil.
  - destruct skip as [|k]; [|apply IH].
    destruct (url_at (c :: t)) as [u'|] eqn:Hat; [|apply IH].
    intros [->|Hu]%elem_of_cons; [by eexists|by eapply IH].
Qed.

Lemma strip_trailing_scheme u rest :
  has_scheme u rest ->
  exists rest', has_scheme (strip_trailing u) rest'.
Proof.
  destruct scheme_chars as (_ & _ & Hl1 & Hl2 & Hp).
  unfold strip_trailing. intros [-> | ->].
  - rewrite (strip_keeps _ _ _ _ Hl1 Hp). eexists. by left.
  - rewrite (strip_keeps _ _ _ _ Hl2 Hp). eexists. by right.
Qed.

Lemma extracted_url (text : option text) u :
  u ∈ extractUrlsFromText text ->
  (exists rest, has_scheme u rest)
  /\ startsWith (lit "http") u = true
  /\ Forall (fun c => url_char c = true) u
  /\ (forall c, last u = Some c -> trailing_punct c = false).
Proof.
  destruct text as [[|c t]|]; cbn [extractUrlsFromText];
    try (by intros ?%elem_of_nil).
  intros Hu. apply (proj1 (distinct_elem _ _)) in Hu.
  apply list_elem_of_fmap in Hu as (m & -> & Hm).
  apply url_matches_elem in Hm as (t' & Hat).
  apply url_at_Some in Hat as ((rest & _ & Hscheme) & Hchars).
  destruct (strip_trailing_scheme _ _ Hscheme) as (rest' & Hscheme').
  split_and!.
  - by exists rest'.
  - destruct Hscheme' as [-> | ->];
      [apply (startsWith_prefix (lit "http") (lit "http://"))
      |apply (startsWith_prefix (lit "http") (lit "https://"))]; reflexivity.
  - apply Forall_forall. intros x Hx. rewrite Forall_forall in Hchars.
    apply Hchars. by apply strip_elem in Hx.
  - intros x. apply strip_last.
Qed.

Lemma extracted_NoDup (text : option text) : NoDup (extractUrlsFromText text).
Proof.
  destruct text as [[|c t]|]; cbn [extractUrlsFromText];
    [apply NoDup_nil_2|apply distinct_NoDup|apply NoDup_nil_2].
Qed.

(** What [extractUrlsFromText] returns, whatever the text: no URL twice;
    and every URL reads http:// or https:// at its start, holds no white
    space, quote, angle bracket, comma or vertical bar, and does not end
    with one of the punctuation marks that are cut off. *)
Theorem extractUrlsFromText_urls (text : option text) :
  NoDup (extractUrlsFromText text)
  /\ forall u, u ∈ extractUrlsFromText text ->
       (exists rest, has_scheme u rest)
       /\ startsWith (lit "http") u = true
       /\ Forall (fun c => url_char c = true) u
       /\ (forall c, last u = Some c -> trailing_punct c = false).
Proof. split; [apply extracted_NoDup|apply extracted_url]. Qed.

Lemma url_at_plain u t :
  plain_url u ->
  (forall c, head t = Some c -> url_char c = false) ->
  url_at (u ++ t) = Some u.
Proof.
  intros ((rest & Hne & Hscheme) & Hchars & _) Hnext.
  assert (take_while url_char t = []) as Hstop.
  { destruct t as [|c t]; [done|]. apply take_while_stop. by apply Hnext. }
  unfold url_at, after_scheme. destruct Hscheme as [-> | ->].
  - assert (startsWith (lit "https://") ((lit "http://" ++ rest) ++ t) = false) as ->.
    { unfold startsWith. apply bool_decide_eq_false_2. rewrite <- app_assoc.
      destruct rest as [|x rest]; [done|]. cbn. intros [=]. }
    rewrite <- app_assoc, startsWith_app, drop_app_length.
    apply Forall_app in Hchars as [_ Hrest].
    rewrite (take_while_app _ _ _ Hrest), Hstop, app_nil_r.
    by destruct rest.
  - rewrite <- app_assoc, startsWith_app, drop_app_length.
    apply Forall_app in Hchars as [_ Hrest].
    rewrite (take_while_app _ _ _ Hrest), Hstop, app_nil_r.
    by destruct rest.
Qed.

Lemma url_matches_skip a t : url_matches (length a) (a ++ t) = url_matches 0 t.
Proof.
  induction a as [|c a IH]; [done|]. cbn [length app url_matches].
  destruct a as [|c' a]; [by destruct t|]. exact IH.
Qed.

Lemma url_matches_first u t :
  plain_url u ->
  (forall c, head t = Some c -> url_char c = false) ->
  url_matches 0 (u ++ t) = u :: url_matches 0 t.
Proof.
  intros Hu Hnext. pose proof (url_at_plain u t Hu Hnext) as Hat.
  destruct u as [|c u]; [by destruct Hu as ((rest & _ & [?|?]) & _)|].
  cbn [app url_matches]. cbn [app] in Hat. rewrite Hat. f_equal.
  cbn [length]. rewrite Nat.sub_succ, Nat.sub_0_r. apply url_matches_skip.
Qed.

Lemma startsWith_other_head p x c t :
  head p = Some x -> x <> c -> startsWith p (c :: t) = false.
Proof.
  intros Hp Hne. unfold startsWith. apply bool_decide_eq_false_2.
  destruct p as [|y p]; [done|]. injection Hp as ->. cbn [length take]. congruence.
Qed.

Lemma url_at_not_url c t : url_char c = false -> url_at (c :: t) = None.
Proof.
  intros Hc. unfold url_at, after_scheme.
  assert (104 <> c) as Hne by (intros <-; discriminate Hc).
  rewrite !(startsWith_other_head _ 104 c t); done.
Qed.

Lemma url_matches_sep sep t :
  Forall (fun c => url_char c = false) sep ->
  url_matches 0 (sep ++ t) = url_matches 0 t.
Proof.
  induction 1 as [|c sep Hc _ IH]; [done|].
  cbn [app url_matches]. by rewrite (url_at_not_url c _ Hc).
Qed.

Lemma url_matches_join sep urls :
  sep <> [] -> Forall (fun c => url_char c = false) sep -> Forall plain_url urls ->
  url_matches 0 (join sep urls) = urls.
Proof.
  intros Hne Hsep. induction 1 as [|u urls Hu Hurls IH]; [done|].
  destruct urls as [|u' urls].
  - cbn [join]. rewrite <- (app_nil_r u) at 1. by rewrite url_matches_first.
  - change (join sep (u :: u' :: urls)) with (u ++ sep ++ join sep (u' :: urls)).
    rewrite url_matches_first, url_matches_sep, IH; [done..|].
    intros c. destruct sep as [|x sep]; [done|]. cbn. intros [= <-].
    by apply Forall_cons in Hsep as [? _].
Qed.

(** Texts that are URLs in full, joined by a separator without URL
    characters (a line feed, spaces, a comma), are read back as they were
    written: [extractUrlsFromText] returns them in their order, each
    once. *)
Theorem extractUrlsFromText_joined (sep : text) (urls : list text) :
  sep <> [] -> Forall (fun c => url_char c = false) sep -> Forall plain_url urls ->
  extractUrlsFromText (Some (join sep urls)) = distinct urls.
Proof.
  intros Hne Hsep Hurls.
  assert (map strip_trailing (url_matches 0 (join sep urls)) = urls) as Hmap.
  { rewrite (url_matches_join _ _ Hne Hsep Hurls).
    induction Hurls as [|u urls (_ & _ & Hlast) _ IH]; [done|].
    cbn [map]. rewrite IH. f_equal. by apply strip_fixed. }
  unfold extractUrlsFromText.
  destruct (join sep urls) as [|c t] eqn:Hjoin; [|by rewrite Hmap].
  cbn in Hmap. by rewrite <- Hmap.
Qed.

Lemma extractUrlsFromText_joined_witness :
  extractUrlsFromText
    (Some (join line_feed [lit "https://example.org/"; lit "http://example.org/contact"]))
  = distinct [lit "https://example.org/"; lit "http://example.org/contact"].
Proof.
  apply (extractUrlsFromText_joined line_feed
           [lit "https://example.org/"; lit "http://example.org/contact"]).
  - discriminate.
  - apply (bool_decide_unpack _). vm_compute. exact I.
  - constructor; [|constructor; [|constructor]].
    + split_and!.
      * exists (lit "example.org/"). split; [discriminate|right; reflexivity].
      * apply (bool_decide_unpack _). vm_compute. exact I.
      * intros c [= <-]. reflexivity.
    + split_and!.
      * exists (lit "example.org/contact"). split; [discriminate|left; reflexivity].
      * apply (bool_decide_unpack _). vm_compute. exact I.
      * intros c [= <-]. reflexivity.
Defined.

End ExtractFacts.

Section UploadFacts.
Import Text Server Terms.
Local Open Scope N_scope.
Local Open Scope list_scope.

Lemma split_lines_Forall (P : N -> Prop) cur t l :
  Forall (fun c => P c /\ c <> 10) cur -> Forall P t ->
  l ∈ split_lines cur t -> Forall (fun c => P c /\ c <> 10) l.
Proof.
  revert cur. induction t as [|c t IH]; intros cur Hcur Ht; cbn [split_lines].
  - by intros ->%list_elem_of_singleton.
  - apply Forall_cons in Ht as [Hc Ht].
    destruct (N.eqb_spec c 10) as [->|Hne].
    + intros [->|Hl]%elem_of_cons; [done|]. by apply (IH []).
    + destruct ((c =? 13) && bool_decide (head t = Some 10)); [by apply IH|].
      apply IH; [|done]. apply Forall_app. split; [done|]. by apply Forall_singleton.
Qed.

Lemma split_fields_Forall (P : N -> Prop) cur t f :
  Forall (fun c => P c /\ c <> 44 /\ c <> 9) cur -> Forall P t ->
  f ∈ split_fields cur t -> Forall (fun c => P c /\ c <> 44 /\ c <> 9) f.
Proof.
  revert cur. induction t as [|c t IH]; intros cur Hcur Ht; cbn [split_fields].
  - by intros ->%list_elem_of_singleton.
  - apply Forall_cons in Ht as [Hc Ht].
    destruct (N.eqb_spec c 44) as [->|Hne1]; cbn [orb].
    + intros [->|Hl]%elem_of_cons; [done|]. by apply (IH []).
    + destruct (N.eqb_spec c 9) as [->|Hne2].
      * intros [->|Hl]%elem_of_cons; [done|]. by apply (IH []).
      * apply IH; [|done]. apply Forall_app. split; [done|]. by apply Forall_singleton.
Qed.

Lemma strip_quotes_elem p c : c ∈ strip_quotes p -> c ∈ p.
Proof.
  unfold strip_quotes.
  set (p1 := match p with x :: p' => if is_quote x then p' else p | [] => [] end).
  assert (forall x, x ∈ p1 -> x ∈ p) as Hp1.
  { subst p1. destruct p as [|x p']; [done|]. destruct (is_quote x); [|done].
    intros y Hy. by apply list_elem_of_further. }
  destruct (reverse p1) as [|x r] eqn:Hr; [by intros ?%elem_of_nil|].
  destruct (is_quote x); [|by intros ?%Hp1].
  intros Hc. apply Hp1. apply elem_of_reverse. rewrite Hr.
  apply list_elem_of_further. by apply elem_of_reverse.
Qed.

Lemma foldl_push_if_elem {A} (keep : A -> bool) (xs : list A) acc x :
  x ∈ foldl (fun acc p => if keep p then acc ++ [p] else acc) acc xs <->
  x ∈ acc \/ (x ∈ xs /\ keep x = true).
Proof.
  revert acc. induction xs as [|y xs IH]; intros acc; cbn [foldl].
  - split; [by left|]. intros [?|[?%elem_of_nil _]]; done.
  - rewrite IH. destruct (keep y) eqn:Hy.
    + rewrite elem_of_app, list_elem_of_singleton, elem_of_cons. split.
      * intros [[?| ->]|[? ?]]; [by left|right; split; [by left|done]|].
        right. split; [by right|done].
      * intros [?|[[->|?] ?]]; [by left; left|by left; right|by right].
    + rewrite elem_of_cons. split.
      * intros [?|[? ?]]; [by left|right; split; [by right|done]].
      * intros [?|[[->|?] ?]]; [by left|congruence|by right].
Qed.

Lemma parsed_csv_url buffer u :
  u ∈ parseCsv buffer ->
  startsWith (lit "http") u = true
  /\ Forall (fun c => c ∈ buffer /\ c <> 10 /\ c <> 44 /\ c <> 9) u.
Proof.
  unfold parseCsv. cbv zeta. intros Hu. apply (proj1 (distinct_elem _ _)) in Hu.
  set (lines := filter (fun l => trim l <> []) (split_lines [] buffer)) in Hu.
  assert (forall acc,
            u ∈ foldl (fun urls line =>
                         foldl (fun urls p => if startsWith (lit "http") p
                                              then urls ++ [p] else urls) urls
                               (map (fun p => strip_quotes (trim p)) (split_fields [] line)))
                      acc lines ->
            u ∈ acc \/ exists line p, line ∈ lines /\ p ∈ split_fields [] line
                                      /\ u = strip_quotes (trim p)
                                      /\ startsWith (lit "http") u = true) as Hloop.
  { generalize lines. clear. intros lines. induction lines as [|line lines IH]; intros acc;
      cbn [foldl]; [by left|].
    intros Hu. apply IH in Hu as [Hu|(line' & p & Hl & Hp & Heq & Hs)].
    - apply foldl_push_if_elem in Hu as [?|[Hin Hs]]; [by left|].
      apply list_elem_of_fmap in Hin as (p & -> & Hp).
      right. exists line, p. split_and!; [apply list_elem_of_here|done..].
    - right. exists line', p. split_and!; [by apply list_elem_of_further|done..]. }
  apply Hloop in Hu as [Hu|(line & p & Hline & Hp & -> & Hs)]; [by apply elem_of_nil in Hu|].
  split; [done|].
  apply list_elem_of_filter in Hline as [_ Hline].
  apply (split_lines_Forall (fun c => c ∈ buffer) [] buffer) in Hline;
    [|apply Forall_nil_2|by apply Forall_forall].
  apply (split_fields_Forall (fun c => c ∈ buffer /\ c <> 10) [] line) in Hp;
    [|apply Forall_nil_2|done].
  apply Forall_forall. intros c Hc. apply strip_quotes_elem, trim_elem in Hc.
  rewrite Forall_forall in Hp. destruct (Hp c Hc) as ((? & ?) & ? & ?). done.
Qed.

(** What [parseCsv] returns, whatever the file: no URL twice; and every
    URL starts with http and is made of characters of the file other than
    the comma, the tab and the line feed. *)
Theorem parseCsv_urls (buffer : text) :
  NoDup (parseCsv buffer)
  /\ forall u, u ∈ parseCsv buffer ->
       startsWith (lit "http") u = true
       /\ Forall (fun c => c ∈ buffer /\ c <> 10 /\ c <> 44 /\ c <> 9) u.
Proof. split; [apply distinct_NoDup|apply parsed_csv_url]. Qed.

Lemma element_at_Some name t body n :
  element_at name t = Some (body, n) ->
  Forall (fun c => c ∈ t /\ c <> 60) body.
Proof.
  unfold element_at. cbv zeta.
  destruct (starts_ci (lit ("<" +:+ name +:+ ">")) t); [|done].
  set (rest := drop (length (lit ("<" +:+ name +:+ ">"))) t).
  destruct (take_while (fun c => negb (c =? 60)) rest) as [|x b] eqn:Hbody; [done|].
  destruct (starts_ci _ _); [|done]. intros [= <- _].
  rewrite <- Hbody. apply Forall_forall. intros c Hc. split.
  + apply take_while_elem in Hc. eapply elem_of_sublist; [exact Hc|apply sublist_drop].
  + pose proof (take_while_Forall (fun c => negb (c =? 60)) rest) as Hall.
    rewrite Forall_forall in Hall. specialize (Hall c Hc).
    apply negb_true_iff in Hall. by apply N.eqb_neq.
Qed.

Lemma elements_elem name skip t u :
  u ∈ elements name skip t ->
  exists body, u = trim body /\ Forall (fun c => c ∈ t /\ c <> 60) body.
Proof.
  revert skip. induction t as [|c t IH]; intros skip; cbn [elements].
  - by intros ?%elem_of_nil.
  - assert (forall k, u ∈ elements name k t ->
              exists body, u = trim body /\ Forall (fun x => x ∈ c :: t /\ x <> 60) body)
      as Hrest.
    { intros k Hu. destruct (IH k Hu) as (body & -> & Hbody). exists body. split; [done|].
      eapply Forall_impl; [exact Hbody|]. intros x [? ?]. split; [|done].
      by apply list_elem_of_further. }
    destruct skip as [|k]; [|apply Hrest].
    destruct (element_at name (c :: t)) as [[body n]|] eqn:Hat; [|apply Hrest].
    intros [->|Hu]%elem_of_cons; [|by eapply Hrest].
    exists body. split; [done|]. by eapply element_at_Some.
Qed.

(** What [parseXml] returns, whatever the file: no text twice; and every
    text is the trimmed content of a [loc] or [url] element, made of
    characters of the file other than [<]. *)
Theorem parseXml_urls (buffer : text) :
  NoDup (parseXml buffer)
  /\ forall u, u ∈ parseXml buffer ->
       trim u = u /\ Forall (fun c => c ∈ buffer /\ c <> 60) u.
Proof.
  split; [apply distinct_NoDup|]. intros u Hu. unfold parseXml in Hu.
  apply (proj1 (distinct_elem _ _)) in Hu.
  assert (exists body, u = trim body /\ Forall (fun c => c ∈ buffer /\ c <> 60) body)
    as (body & -> & Hbody).
  { apply elem_of_app in Hu as [Hu|Hu]; by eapply elements_elem. }
  split; [apply trim_trim|]. apply Forall_forall. intros c Hc.
  apply trim_elem in Hc. rewrite Forall_forall in Hbody. by apply Hbody.
Qed.

End UploadFacts.

(** ** From the request to the arguments of the runner *)

Section ArgsFacts.
Import Text Checks Server Args Terms.
Local Open Scope N_scope.
Local Open Scope list_scope.

Lemma split_runs_word u cur inside t :
  u <> [] -> Forall (fun c => separator c = false) u ->
  split_runs cur inside (u ++ t) = split_runs (cur ++ u) false t.
Proof.
  intros Hne Hu. revert cur inside.
  induction Hu as [|c u Hc Hu IH]; [done|]. intros cur inside.
  cbn [app split_runs]. rewrite Hc. destruct u as [|c' u].
  - done.
  - rewrite IH by done. by rewrite <- app_assoc.
Qed.

Lemma split_runs_join urls inside :
  urls <> [] -> Forall (fun u => u <> [] /\ Forall (fun c => separator c = false) u) urls ->
  split_runs [] inside (join line_feed urls) = urls.
Proof.
  intros Hne Hurls. revert inside.
  induction Hurls as [|u urls [Hu Hsep] Hurls IH]; [done|]. intros inside.
  destruct urls as [|u' urls].
  - cbn [join]. rewrite <- (app_nil_r u) at 1. by rewrite split_runs_word.
  - change (join line_feed (u :: u' :: urls))
      with (u ++ line_feed ++ join line_feed (u' :: urls)).
    rewrite split_runs_word by done. cbn [app line_feed split_runs].
    replace (separator 10) with true by reflexivity.
    by rewrite IH.
Qed.

Lemma join_head_last urls c :
  Forall (fun u => u <> [] /\ Forall (fun c => separator c = false) u) urls ->
  (head (join line_feed urls) = Some c \/ last (join line_feed urls) = Some c) ->
  is_space c = false.
Proof.
  assert (forall x, separator x = false -> is_space x = false) as Hsp.
  { intros x. unfold separator. by intros (_ & ?)%orb_false_elim. }
  induction 1 as [|u urls [Hu Hsep] Hurls IH]; [by intros [?|?]|].
  destruct urls as [|u' urls].
  - cbn [join]. intros [Hc|Hc]; apply Hsp.
    + apply head_Some in Hc as (? & ->). by apply Forall_cons in Hsep as [? _].
    + apply last_Some in Hc as (? & ->).
      by apply Forall_app in Hsep as [_ [? _]%Forall_cons].
  - change (join line_feed (u :: u' :: urls))
      with (u ++ line_feed ++ join line_feed (u' :: urls)).
    intros [Hc|Hc].
    + apply Hsp. destruct u as [|x u]; [done|]. injection Hc as <-.
      by apply Forall_cons in Hsep as [? _].
    + apply IH. right. rewrite !last_app in Hc.
      destruct (last (join line_feed (u' :: urls))) as [y|] eqn:Hl; [done|].
      exfalso. apply last_None in Hl.
      apply Forall_cons in Hurls as [[Hu' _] _].
      destruct u'; [done|]. destruct urls; discriminate Hl.
Qed.

Lemma find_first (p : text -> bool) pre a post :
  Forall (fun x => p x = false) pre -> p a = true ->
  List.find p (pre ++ a :: post) = Some a.
Proof.
  intros Hpre Ha. induction Hpre as [|x pre Hx _ IH]; cbn [app List.find].
  - by rewrite Ha.
  - by rewrite Hx.
Qed.

Lemma recovered_urls pre post urls :
  Forall (fun a => startsWith (lit "--urls=") a = false) pre ->
  Forall argument_url urls ->
  parseUrlsFromArgs (pre ++ (lit "--urls=" ++ join line_feed urls) :: post) = Some urls.
Proof.
  intros Hpre Hurls. unfold parseUrlsFromArgs.
  rewrite (find_first _ pre _ post Hpre) by apply startsWith_app.
  rewrite drop_app_length. f_equal.
  assert (Forall (fun u => u <> [] /\ Forall (fun c => separator c = false) u) urls) as Hwords.
  { eapply Forall_impl; [exact Hurls|]. intros u [Hs Hsep]. split; [|done].
    intros ->. discriminate Hs. }
  rewrite trim_fixed by (intros c Hc; eapply join_head_last; eauto).
  destruct urls as [|u urls]; [done|].
  rewrite split_runs_join by done.
  assert (map trim (u :: urls) = u :: urls) as ->.
  { clear -Hwords. induction Hwords as [|x xs [Hx Hsep] _ IH]; [done|].
    cbn [map]. rewrite IH. f_equal.
    assert (forall c, c ∈ x -> is_space c = false) as Hsp.
    { intros c Hc. rewrite Forall_forall in Hsep. specialize (Hsep c Hc).
      unfold separator in Hsep. by apply orb_false_elim in Hsep as [_ ?]. }
    apply trim_fixed; intros c Hc; apply Hsp.
    - apply head_Some in Hc as (? & ->). apply list_elem_of_here.
    - apply last_Some in Hc as (? & ->). apply elem_of_app. right. apply list_elem_of_here. }
  apply filter_all. apply Forall_forall. intros x Hx.
  rewrite Forall_forall in Hurls, Hwords.
  destruct (Hurls x Hx) as [? _]. destruct (Hwords x Hx) as [? _]. done.
Qed.

(** The runner reads back the URLs that were joined into its [--urls=]
    argument: texts that start with http and hold no white space and no
    comma, joined by line feeds, are split into the same texts, in the same
    order, whatever the other arguments. *)
Theorem parseUrlsFromArgs_joined (pre post urls : list text) :
  Forall (fun a => startsWith (lit "--urls=") a = false) pre ->
  Forall argument_url urls ->
  parseUrlsFromArgs (pre ++ (lit "--urls=" ++ join line_feed urls) :: post) = Some urls.
Proof. apply recovered_urls. Qed.

Lemma parseUrlsFromArgs_joined_witness :
  parseUrlsFromArgs
    ([lit "node"; lit "run-tests.js"; lit "--report"]
     ++ (lit "--urls=" ++ join line_feed [lit "https://example.org/"; lit "http://example.org/a"])
     :: [lit "--output-id=1a2b3c4d"])
  = Some [lit "https://example.org/"; lit "http://example.org/a"].
Proof.
  apply (parseUrlsFromArgs_joined [lit "node"; lit "run-tests.js"; lit "--report"]
           [lit "--output-id=1a2b3c4d"]
           [lit "https://example.org/"; lit "http://example.org/a"]).
  - apply (bool_decide_unpack _). vm_compute. exact I.
  - constructor; [|constructor; [|constructor]]; split;
      first [ reflexivity | apply (bool_decide_unpack _); vm_compute; exact I ].
Defined.

Lemma split_runs_Forall cur inside t piece :
  Forall (fun c => separator c = false) cur ->
  piece ∈ split_runs cur inside t -> Forall (fun c => separator c = false) piece.
Proof.
  revert cur inside. induction t as [|c t IH]; intros cur inside Hcur; cbn [split_runs].
  - by intros ->%list_elem_of_singleton.
  - destruct (separator c) eqn:Hc.
    + destruct inside; [by apply IH|].
      intros [->|Hp]%elem_of_cons; [done|]. by apply (IH [] true).
    + apply IH. apply Forall_app. split; [done|]. by apply Forall_singleton.
Qed.

(** Whatever its arguments, the runner takes from [--urls=] only texts
    that start with http and hold no white space and no comma. *)
Theorem parseUrlsFromArgs_urls (argv urls : list text) :
  parseUrlsFromArgs argv = Some urls -> Forall argument_url urls.
Proof.
  unfold parseUrlsFromArgs.
  destruct (List.find (startsWith (lit "--urls=")) argv) as [urlsArg|]; [|done].
  intros [= <-]. apply Forall_forall. intros u Hu.
  apply list_elem_of_filter in Hu as [[_ Hs] Hu].
  apply list_elem_of_fmap in Hu as (piece & -> & Hpiece).
  split; [done|]. apply split_runs_Forall in Hpiece; [|apply Forall_nil_2].
  apply Forall_forall. intros c Hc. apply trim_elem in Hc.
  rewrite Forall_forall in Hpiece. by apply Hpiece.
Qed.

Lemma parseUrlsFromArgs_urls_witness :
  Forall argument_url [lit "http://example.org/"; lit "https://example.org/a"].
Proof.
  apply (parseUrlsFromArgs_urls
           [lit "node"; lit "run-tests.js"; lit "--urls=http://example.org/, https://example.org/a"]).
  vm_compute. reflexivity.
Defined.

Lemma startsWith_mismatch p q x k :
  take k p <> take k q -> (k <= length p)%nat -> (k <= length q)%nat ->
  startsWith p (q ++ x) = false.
Proof.
  intros Hne Hkp Hk. unfold startsWith. apply bool_decide_eq_false_2. intros Heq.
  apply Hne. rewrite <- Heq at 1. rewrite take_take.
  rewrite Nat.min_l by done. by rewrite take_app_le.
Qed.

Lemma url_char_not_separator c : url_char c = true -> separator c = false.
Proof.
  unfold url_char, separator. intros Hc%negb_true_iff.
  destruct (is_space c) eqn:Hs; [discriminate Hc|].
  destruct (N.eqb_spec c 44) as [->|_]; [discriminate Hc|].
  destruct (N.eqb_spec c 10) as [->|_]; [discriminate Hs|]. done.
Qed.

Lemma request_urls_properties urlText file :
  NoDup (request_urls urlText file)
  /\ Forall (fun u => startsWith (lit "http") u = true) (request_urls urlText file).
Proof.
  unfold request_urls. cbv zeta. split.
  - apply NoDup_filter, distinct_NoDup.
  - apply Forall_forall. by intros u [? _]%list_elem_of_filter.
Qed.

Lemma request_urls_text urlText file u :
  read_as_text file -> u ∈ request_urls urlText file -> argument_url u.
Proof.
  unfold request_urls, read_as_text. cbv zeta.
  intros Hfile [Hs Hu]%list_elem_of_filter. split; [done|].
  apply (proj1 (distinct_elem _ _)) in Hu.
  assert (exists text, u ∈ extractUrlsFromText text) as (text & Hin).
  { destruct file as [f|].
    - destruct Hfile as [Hcsv Hxml]. rewrite Hcsv, Hxml in Hu.
      apply elem_of_app in Hu as [Hu|Hu]; [|by eexists].
      case_bool_decide; [by apply elem_of_nil in Hu|by eexists].
    - case_bool_decide; [by apply elem_of_nil in Hu|by eexists]. }
  destruct (extracted_url _ _ Hin) as (_ & _ & Hchars & _).
  eapply Forall_impl; [exact Hchars|]. apply url_char_not_separator.
Qed.

(** The handler of [POST /api/run] answers 400 exactly when the request
    gives no URL; otherwise it spawns the runner once, with the flag
    [--report], the URLs of the request (no URL twice, each starting with
    http) joined by line feeds in [--urls=], and the identifier in
    [--output-id=], and answers with the number of URLs. *)
Theorem post_run_spawns_with_urls
    (urlText : option text) (file : option Upload) (id : text) :
  let urls := request_urls urlText file in
  NoDup urls
  /\ Forall (fun u => startsWith (lit "http") u = true) urls
  /\ match post_run urlText file id with
     | BadRequest _ => urls = []
     | Spawned args count =>
         urls <> [] /\ count = length urls
         /\ args = [lit "--report"; lit "--urls=" ++ join line_feed urls;
                    lit "--output-id=" ++ id]
     end.
Proof.
  cbv zeta. destruct (request_urls_properties urlText file) as [Hnd Hhttp].
  split_and!; [done..|]. unfold post_run. cbv zeta.
  case_bool_decide as Hlen.
  - by apply length_zero_iff_nil.
  - split_and!; [|done..]. intros Hnil. by rewrite Hnil in Hlen.
Qed.

(** When the URLs of a request come from texts (the text area, or an
    upload that is neither a CSV nor an XML file) and the arguments of the
    spawn reach the runner as they were given, the runner that the server
    spawns reads back from its arguments exactly the URLs of the request,
    in their order, and so tests them and not those of urls.config.js; it
    reads back the identifier of the run, trimmed; and the number the
    server answers with is the number of URLs tested. *)
Theorem spawned_runner_reads_request
    (urlText : option text) (file : option Upload) (id execPath script : text)
    (args : list text) (count : nat) (config : Settled (option (list text))) :
  read_as_text file -> plain_argument execPath -> plain_argument script ->
  post_run urlText file id = Spawned args count ->
  Forall passed_unchanged args ->
  parseUrlsFromArgs (argv_of execPath script args) = Some (request_urls urlText file)
  /\ getUrls (argv_of execPath script args) config = request_urls urlText file
  /\ length (getUrls (argv_of execPath script args) config) = count
  /\ parseOutputId (argv_of execPath script args) = Some (trim id).
Proof.
  intros Hfile (He1 & He2) (Hs1 & Hs2) Hpost _.
  unfold post_run in Hpost. cbv zeta in Hpost.
  set (urls := request_urls urlText file) in *.
  case_bool_decide as Hlen; [done|].
  assert (args = [lit "--report"; lit "--urls=" ++ join line_feed urls;
                  lit "--output-id=" ++ id]) as -> by congruence.
  assert (count = length urls) as -> by congruence. clear Hpost.
  assert (Forall argument_url urls) as Hurls.
  { apply Forall_forall. intros u Hu. by eapply request_urls_text. }
  assert (parseUrlsFromArgs
            (argv_of execPath script
               [lit "--report"; lit "--urls=" ++ join line_feed urls; lit "--output-id=" ++ id])
          = Some urls) as Hparse.
  { unfold argv_of.
    apply (recovered_urls [execPath; script; lit "--report"] [lit "--output-id=" ++ id]);
      [|done].
    repeat (constructor; [done|]). constructor. }
  split_and!.
  - done.
  - unfold getUrls. rewrite Hparse. by destruct urls.
  - unfold getUrls. rewrite Hparse. by destruct urls.
  - unfold parseOutputId, argv_of.
    assert (List.find (startsWith (lit "--output-id="))
              [execPath; script; lit "--report"; lit "--urls=" ++ join line_feed urls;
               lit "--output-id=" ++ id]
            = Some (lit "--output-id=" ++ id)) as ->.
    { apply (find_first (startsWith (lit "--output-id="))
               [execPath; script; lit "--report"; lit "--urls=" ++ join line_feed urls]
               (lit "--output-id=" ++ id) []).
      - repeat (apply List.Forall_cons;
                [first [ done | apply (startsWith_mismatch _ _ _ 3); by vm_compute ]|]).
        apply List.Forall_nil.
      - apply startsWith_app. }
    by rewrite drop_app_length.
Qed.

Lemma spawned_runner_reads_request_witness :
  let urlText := Some (lit "see https://example.org/, http://example.org/a.") in
  let args := [lit "--report";
               lit "--urls=" ++ join line_feed (request_urls urlText None);
               lit "--output-id=" ++ lit "1a2b3c4d"] in
  let argv := argv_of (lit "/usr/bin/node") (lit "/app/run-tests.js") args in
  parseUrlsFromArgs argv = Some (request_urls urlText None)
  /\ getUrls argv (Rejected "no config") = request_urls urlText None
  /\ length (getUrls argv (Rejected "no config")) = 2%nat
  /\ parseOutputId argv = Some (trim (lit "1a2b3c4d")).
Proof.
  apply (spawned_runner_reads_request
           (Some (lit "see https://example.org/, http://example.org/a.")) None
           (lit "1a2b3c4d") (lit "/usr/bin/node") (lit "/app/run-tests.js")).
  - exact I.
  - split; reflexivity.
  - split; reflexivity.
  - vm_compute. reflexivity.
  - apply (bool_decide_unpack _). by vm_compute.
Defined.

(** [isValidReportId] accepts every identifier the server draws for a run
    (eight hexadecimal digits), and nothing that could lead out of the
    folder of the reports: an accepted identifier is not empty, has at most
    32 characters, and holds no slash, backslash, dot, NUL or white
    space. *)
Theorem isValidReportId_keeps_to_folder (id : text) :
  (length id = 8%nat -> Forall (fun c => hex_digit c = true) id -> isValidReportId id = true)
  /\ (isValidReportId id = true ->
      id <> [] /\ (length id <= 32)%nat
      /\ Forall (fun c => path_char c = false /\ is_space c = false) id).
Proof.
  unfold isValidReportId. split.
  - intros Hlen Hhex. rewrite (bool_decide_eq_true_2 (length id <= 32)%nat) by lia.
    rewrite bool_decide_eq_false_2 by (intros ->; discriminate Hlen).
    cbn [negb andb]. rewrite andb_true_r. apply forallb_forall.
    intros c Hc%list_elem_of_In. rewrite Forall_forall in Hhex. specialize (Hhex c Hc).
    unfold hex_digit in Hhex. unfold id_char.
    apply orb_prop in Hhex as [[H1 H2]%andb_prop|[H1 H2]%andb_prop].
    + rewrite H1, H2. cbn. by rewrite !orb_true_r.
    + apply N.leb_le in H1, H2.
      rewrite (proj2 (N.leb_le 97 c)), (proj2 (N.leb_le c 122)) by lia. done.
  - intros [[Hne Hchars]%andb_prop Hlen%bool_decide_eq_true_1]%andb_prop.
    apply negb_true_iff, bool_decide_eq_false_1 in Hne.
    split_and!; [done..|]. apply Forall_forall. intros c Hc.
    rewrite forallb_forall in Hchars. specialize (Hchars c (proj1 (list_elem_of_In _ _) Hc)).
    unfold id_char in Hchars. unfold path_char, is_space.
    repeat match goal with
           | H : (_ || _)%bool = true |- _ => apply orb_prop in H as [H|H]
           | H : (_ && _)%bool = true |- _ => apply andb_prop in H as [? ?]
           | H : (_ <=? _)%N = true |- _ => apply N.leb_le in H
           | H : (_ =? _)%N = true |- _ => apply N.eqb_eq in H
           end;
      (split;
       repeat match goal with
              | |- (_ || _)%bool = false => apply orb_false_intro
              | |- (_ && _)%bool = false => apply andb_false_iff
              end;
       first [ apply N.eqb_neq; lia | left; apply N.leb_gt; lia | right; apply N.leb_gt; lia ]).
Qed.

End ArgsFacts.

(** ** The totals of the report *)

Section TotalFacts.
Import Js Checks Checklists AxeScan Runner Number Report Vocabulary View Terms.
Local Open Scope list_scope.

Lemma visit_results_length v : (length (visit_results v) <= 40)%nat.
Proof.
  unfold visit_results. destruct (load_error v); [cbn; lia|].
  pose proof (sublist_length _ _ (custom_checks_ids (v_page v) (v_url v))) as Hlen.
  rewrite length_map in Hlen.
  replace (length custom_ids) with 40%nat in Hlen by (by vm_compute). done.
Qed.

Lemma run_results_length visits :
  (length (customResults (run visits)) <= 40 * length visits)%nat.
Proof.
  rewrite run_customResults.
  induction visits as [|v visits IH]; cbn [map concat length]; [lia|].
  rewrite length_app. pose proof (visit_results_length v). lia.
Qed.

(** The score the report shows for a run of fewer than 2^47 URLs is an
    integer between 0 and 100. *)
Theorem report_score_range (visits : list Visit) :
  (N.of_nat (length visits) < 2 ^ 47)%N ->
  exists n, (0 <= n <= 100)%Z /\ report_score (run visits) = of_Z n.
Proof.
  intros Hvisits. unfold report_score. apply scoreClamp_range.
  pose proof (summary_counts visits) as (Hpass & _).
  pose proof (run_results_length visits) as Hlen.
  rewrite Hpass. unfold count_status.
  pose proof (length_filter (fun r => cr_status r = "pass") (customResults (run visits))).
  assert (2 ^ 53 = 64 * 2 ^ 47)%N as -> by reflexivity. lia.
Qed.

Lemma report_score_range_witness :
  exists n, (0 <= n <= 100)%Z /\ report_score (run Samples.three_visits) = of_Z n.
Proof. apply (report_score_range Samples.three_visits). reflexivity. Defined.

Lemma jsdict_set_fresh {V} k (x : V) m :
  k ∉ JsDict.keys m -> JsDict.set k x m = m ++ [(k, x)].
Proof.
  unfold JsDict.keys. induction m as [|[k' x'] m IH]; cbn [JsDict.set fmap list_fmap fst];
    [done|].
  intros Hk. rewrite decide_False by (intros ->; apply Hk, list_elem_of_here).
  rewrite IH; [done|]. intros Hin. by apply Hk, list_elem_of_further.
Qed.

Lemma jsdict_foldl_fresh {A V} (key : A -> string) (val : A -> V) xs :
  NoDup (map key xs) ->
  foldl (fun m x => JsDict.set (key x) (val x) m) [] xs = map (fun x => (key x, val x)) xs.
Proof.
  induction xs as [|x xs IH] using rev_ind; [done|].
  rewrite map_app. intros [Hnd [Hfresh _]]%NoDup_app.
  rewrite foldl_app. cbn [foldl]. rewrite (IH Hnd), map_app. cbn [map].
  apply jsdict_set_fresh. unfold JsDict.keys. rewrite <- list_fmap_compose.
  intros Hin. apply (Hfresh (key x)); [done|apply list_elem_of_here].
Qed.

Lemma total_of_values (datas : list AxeData) n :
  foldl (fun sum r => (sum + N.of_nat (length (default [] (ad_violations r))))%N) n datas
  = (n + N.of_nat (sum_list_with (fun r => length (default [] (ad_violations r))) datas))%N.
Proof.
  revert n. induction datas as [|d datas IH]; intros n; cbn [foldl sum_list_with]; [lia|].
  rewrite IH. lia.
Qed.

(** For a run of distinct URLs, the number of audit violations the report
    shows is the sum, over the visits that loaded, of the number of
    violations the audit found on the page. *)
Theorem totalAxeViolations_of_run (visits : list Visit) :
  NoDup (map v_url visits) ->
  totalAxeViolations (run visits)
  = N.of_nat (sum_list_with (fun v => length (default [] (violations (audit_of v))))
                            (filter loaded visits)).
Proof.
  intros Hnd. unfold totalAxeViolations, run. rewrite loop_axeResults_set.
  cbn [axeResults initial_report].
  rewrite (jsdict_foldl_fresh v_url scan_of).
  - rewrite total_of_values, N.add_0_l. f_equal.
    unfold JsDict.values. rewrite <- list_fmap_compose.
    induction (filter loaded visits) as [|v l IH]; [done|].
    cbn [fmap list_fmap sum_list_with compose snd ad_violations scan_of].
    by rewrite <- IH.
  - eapply sublist_NoDup; [exact Hnd|]. apply fmap_sublist, sublist_filter.
Qed.

Lemma totalAxeViolations_of_run_witness :
  totalAxeViolations (run Samples.tie_visits)
  = N.of_nat (sum_list_with (fun v => length (default [] (violations (audit_of v))))
                            (filter loaded Samples.tie_visits)).
Proof.
  apply (totalAxeViolations_of_run Samples.tie_visits).
  apply (bool_decide_unpack _). vm_compute. exact I.
Defined.

Lemma filter_iff_in {A} (P Q : A -> Prop)
    `{forall x, Decision (P x)} `{forall x, Decision (Q x)} (l : list A) :
  (forall x, x ∈ l -> P x <-> Q x) -> filter P l = filter Q l.
Proof.
  induction l as [|x l IH]; [done|]. intros Hiff.
  rewrite !filter_cons. rewrite IH by (intros y Hy; apply Hiff; by apply list_elem_of_further).
  pose proof (Hiff x (list_elem_of_here _ _)) as Hx.
  repeat case_decide; tauto.
Qed.

Lemma filter_or_length {A} (P Q : A -> Prop)
    `{forall x, Decision (P x)} `{forall x, Decision (Q x)} (l : list A) :
  (forall x, x ∈ l -> P x -> Q x -> False) ->
  length (filter (fun x => P x \/ Q x) l) = (length (filter P l) + length (filter Q l))%nat.
Proof.
  induction l as [|x l IH]; [done|]. intros Hdisj.
  assert (length (filter (fun x => P x \/ Q x) l)
          = (length (filter P l) + length (filter Q l))%nat) as IH'
    by (apply IH; intros y Hy; apply Hdisj; by apply list_elem_of_further).
  pose proof (Hdisj x (list_elem_of_here _ _)) as Hx.
  rewrite !filter_cons. repeat case_decide; cbn [length]; try lia; tauto.
Qed.

(** The statistics of the report of a run are computed without a throw,
    and in them "Various" counts the URLs that failed to load, the chapter
    modules that threw, and the share of the audit violations; no check of
    the catalogue adds to it. *)
Theorem various_counts_failures (visits : list Visit) :
  exists stats,
    disabilityStats (run visits) = Some stats
    /\ stats !! "Various" =
       Some (N.of_nat (length (filter failed visits))
             + N.of_nat (length (filter is_chapter_error (customResults (run visits))))
             + audit_share (run visits))%N.
Proof.
  destruct (disabilityStats_lookup (run visits) "Various") as (stats & Hstats & Hlookup).
  { apply Forall_forall. intros r Hr. by eapply run_result_ids_plain. }
  exists stats. split; [done|]. rewrite Hlookup.
  rewrite decide_True by (apply (bool_decide_unpack _); by vm_compute).
  rewrite decide_True by done. f_equal.
  assert (items_listing "Various" = 0%N) as -> by (by vm_compute).
  assert (results_listing "Various" (customResults (run visits)) =
          N.of_nat (length (filter is_page_load (customResults (run visits)))
                    + length (filter is_chapter_error (customResults (run visits)))))
    as ->.
  { unfold results_listing. f_equal.
    rewrite <- filter_or_length.
    - f_equal. apply filter_iff_in. intros r Hr. unfold categories.
      destruct (run_result_disabilities visits r Hr)
        as [[Hor Hl]|(Hnp & Hnc & ds & Hl & _ & _ & Hnv & _)]; rewrite Hl.
      + split; [done|]. intros _. apply list_elem_of_here.
      + split; [done|tauto].
    - intros r Hr Hp Hc. unfold is_page_load in Hp. unfold is_chapter_error in Hc.
      rewrite Hp in Hc. revert Hc. apply (bool_decide_unpack _). by vm_compute. }
  rewrite run_customResults at 1. rewrite page_load_results, load_failures_length. lia.
Qed.

End TotalFacts.
